(** * Seq2SeqModel: a shallow embedding of [models/seq2seq.py]

    The Python class builds a TensorFlow-1 graph in its constructor and
    evaluates parts of it in [train], [eval] and [inference].  A graph
    tensor is embedded as a function from a run context (the feed
    dictionary, the current values of the variables and the random
    source of the dropout ops) to a value or an exception; an attribute
    of [self] that only one mode creates is an [option].  Integer tensors
    are [Z] with the int32 wrap-around written out; float tensors are
    idealised as real numbers. *)

From Stdlib Require Import String Ascii DecimalString.
From Stdlib Require Import List ZArith Bool Lia.
From Stdlib Require Import Reals Lra Psatz FunctionalExtensionality.
Import ListNotations.

Set Implicit Arguments.
Local Open Scope Z_scope.

(** ** Exceptions and the result monad *)

Inductive exception : Type :=
| AssertionError
| AttributeError
| IndexError
| TypeError
| ValueError
| InvalidArgumentError
| UnimplementedError
| OverflowError.

Definition result (A : Type) : Type := (exception + A)%type.

Definition ok {A} (a : A) : result A := inr a.
Definition raise {A} (e : exception) : result A := inl e.

Definition bind {A B} (c : result A) (k : A -> result B) : result B :=
  match c with
  | inl e => inl e
  | inr a => k a
  end.

Notation "x <- c ;; k" := (bind c (fun x => k))
  (at level 61, c at next level, right associativity).
Notation "' pat <- c ;; k" := (bind c (fun x => match x with pat => k end))
  (at level 61, pat pattern, c at next level, right associativity).

Fixpoint mapM {A B} (f : A -> result B) (l : list A) : result (list B) :=
  match l with
  | [] => ok []
  | a :: l' => b <- f a ;; bs <- mapM f l' ;; ok (b :: bs)
  end.

Definition is_ok {A} (c : result A) : bool :=
  match c with inr _ => true | inl _ => false end.

(** Reading an attribute of [self] that may not have been created. *)
Definition attr {A} (o : option A) : result A :=
  match o with
  | Some a => ok a
  | None => raise AttributeError
  end.

(** ** Tensor values *)

Definition IntVec := list Z.          (* int32, shape [batch]            *)
Definition IntMat := list (list Z).   (* int32, shape [batch, time]      *)
Definition Vec := list R.             (* float, shape [dim]              *)
Definition Mat := list Vec.           (* float, shape [batch, dim]       *)
Definition Tensor3 := list Mat.       (* float, shape [batch, time, dim] *)

(** int32 arithmetic wraps around. *)
Definition min_i32 : Z := - 2 ^ 31.
Definition max_i32 : Z := 2 ^ 31 - 1.
Definition in_i32 (z : Z) : bool := (min_i32 <=? z) && (z <=? max_i32).
Definition wrap_i32 (z : Z) : Z := (z + 2 ^ 31) mod 2 ^ 32 - 2 ^ 31.
Definition add_i32 (x y : Z) : Z := wrap_i32 (x + y).

(** A Python integer fed to an int32 placeholder goes through numpy: it is
    read as a C long, an OverflowError outside 64 bits, and cast to
    int32, which wraps around. *)
Definition min_i64 : Z := - 2 ^ 63.
Definition max_i64 : Z := 2 ^ 63 - 1.
Definition in_i64 (z : Z) : bool := (min_i64 <=? z) && (z <=? max_i64).

(** Number of columns of a batch-major matrix, and the check numpy makes
    when a nested list is fed to a rank-2 placeholder. *)
Definition width {A} (m : list (list A)) : nat :=
  match m with
  | [] => O
  | r :: _ => length r
  end.

Definition rectangular {A} (m : list (list A)) : bool :=
  forallb (fun r => Nat.eqb (length r) (width m)) m.

(** ** The run context of [sess.run] *)

Record feed_dict : Type := {
  fd_encoder_inputs : option IntMat;
  fd_encoder_inputs_length : option IntVec;
  fd_decoder_inputs : option IntMat;
  fd_decoder_inputs_length : option IntVec;
  fd_keep_prob : option R
}.

(** The values of the variables, by variable name and index. *)
Definition Vars := string -> nat -> nat -> R.

(** The uniform samples of the dropout ops: by op site, invocation (time
    step), batch row and unit. *)
Definition Noise := string -> nat -> nat -> nat -> R.

Record RunCtx : Type := {
  feed : feed_dict;
  vars : Vars;
  noise : Noise
}.

Definition Tensor (A : Type) : Type := RunCtx -> result A.

Definition constant {A} (a : A) : Tensor A := fun _ => ok a.

(** Evaluating a tensor attribute of [self] that may be missing. *)
Definition fetch {A} (o : option (Tensor A)) : Tensor A :=
  fun ctx => t <- attr o ;; t ctx.

Definition feed_i32 (z : Z) : result Z :=
  if in_i64 z then ok (wrap_i32 z) else raise OverflowError.

(** [tf.placeholder]: evaluating it without a fed value fails; a nested
    list with rows of different lengths is no rank-2 array. *)
Definition placeholder_scalar (get : feed_dict -> option R) : Tensor R :=
  fun ctx =>
    match get (feed ctx) with
    | Some v => ok v
    | None => raise InvalidArgumentError
    end.

Definition placeholder_vec (get : feed_dict -> option IntVec) : Tensor IntVec :=
  fun ctx =>
    match get (feed ctx) with
    | Some v => mapM feed_i32 v
    | None => raise InvalidArgumentError
    end.

Definition placeholder_mat (get : feed_dict -> option IntMat) : Tensor IntMat :=
  fun ctx =>
    match get (feed ctx) with
    | Some m =>
        if rectangular m then mapM (mapM feed_i32) m else raise ValueError
    | None => raise InvalidArgumentError
    end.

(** ** Integer tensor operations *)

(** [tf.ones(shape=[n, 1], dtype=tf.int32) * c] *)
Definition ones_times_col (n : nat) (c : Z) : IntMat := repeat [c] n.

(** [tf.ones(shape=[n], dtype=tf.int32) * c] *)
Definition ones_times (n : nat) (c : Z) : IntVec := repeat c n.

(** [tf.concat([a, b], axis=-1)] on rank-2 tensors: the row counts must
    agree. *)
Fixpoint concat_rows {A} (a b : list (list A)) : list (list A) :=
  match a, b with
  | ra :: a', rb :: b' => (ra ++ rb) :: concat_rows a' b'
  | _, _ => []
  end.

Definition tf_concat_last {A} (a b : list (list A)) : result (list (list A)) :=
  if Nat.eqb (length a) (length b) then ok (concat_rows a b)
  else raise InvalidArgumentError.

(** [t + 1] on an int32 vector. *)
Definition tf_add_scalar (v : IntVec) (c : Z) : IntVec :=
  map (fun x => add_i32 x c) v.

(** [tf.reduce_max] on an int32 vector; the maximum of no element is the
    least int32. *)
Definition tf_reduce_max_int (v : IntVec) : Z := fold_right Z.max min_i32 v.

(** [tf.reverse_sequence] on one example: the first [len] steps are
    reversed, the rest is kept; [len] must lie within the time axis. *)
Definition reverse_sequence_row {A} (len : Z) (row : list A) : result (list A) :=
  if (0 <=? len) && (len <=? Z.of_nat (length row)) then
    ok (rev (firstn (Z.to_nat len) row) ++ skipn (Z.to_nat len) row)
  else raise InvalidArgumentError.

Fixpoint reverse_sequence {A} (lens : IntVec) (rows : list (list A))
  : result (list (list A)) :=
  match lens, rows with
  | l :: lens', r :: rows' =>
      r' <- reverse_sequence_row l r ;;
      rs <- reverse_sequence lens' rows' ;;
      ok (r' :: rs)
  | [], [] => ok []
  | _, _ => raise InvalidArgumentError
  end.

(** ** Float tensor operations (idealised over the reals) *)

Section FloatOps.
Local Open Scope R_scope.

Definition Rsum (l : list R) : R := fold_right Rplus 0 l.

(** Map with the index of each element. *)
Definition imap {A B} (f : nat -> A -> B) (l : list A) : list B :=
  map (fun p => f (fst p) (snd p)) (combine (seq 0 (length l)) l).

Definition map2 {A B C} (f : A -> B -> C) (a : list A) (b : list B) : list C :=
  map (fun p => f (fst p) (snd p)) (combine a b).

(** [tf.layers.dense(inputs, units, use_bias, name)] on one vector: the
    kernel and the bias are the variables [name/kernel] and [name/bias]. *)
Definition dense_vec (vs : Vars) (name : string) (units : Z) (use_bias : bool)
    (x : Vec) : Vec :=
  map (fun j =>
         Rsum (imap (fun i xi => xi * vs (name ++ "/kernel")%string i j) x)
         + (if use_bias then vs (name ++ "/bias")%string O j else 0))
      (seq 0 (Z.to_nat units)).

Definition tf_layers_dense (name : string) (units : Z) (use_bias : bool)
    (inputs : Tensor Mat) : Tensor Mat :=
  fun ctx => x <- inputs ctx ;; ok (map (dense_vec (vars ctx) name units use_bias) x).

Definition tf_layers_dense3 (name : string) (units : Z) (use_bias : bool)
    (inputs : Tensor Tensor3) : Tensor Tensor3 :=
  fun ctx =>
    x <- inputs ctx ;;
    ok (map (map (dense_vec (vars ctx) name units use_bias)) x).

(** [tf.nn.embedding_lookup]: an id outside the table is an error. *)
Definition embedding_row (vs : Vars) (name : string) (vocab_size embedding_size : Z)
    (id : Z) : result Vec :=
  if (0 <=? id)%Z && (id <? vocab_size)%Z then
    ok (map (fun k => vs name (Z.to_nat id) k) (seq 0 (Z.to_nat embedding_size)))
  else raise InvalidArgumentError.

Definition embedding_lookup_vec (name : string) (vocab_size embedding_size : Z)
    (ids : Tensor IntVec) : Tensor Mat :=
  fun ctx =>
    v <- ids ctx ;;
    mapM (embedding_row (vars ctx) name vocab_size embedding_size) v.

Definition embedding_lookup_mat (name : string) (vocab_size embedding_size : Z)
    (ids : Tensor IntMat) : Tensor Tensor3 :=
  fun ctx =>
    m <- ids ctx ;;
    mapM (mapM (embedding_row (vars ctx) name vocab_size embedding_size)) m.

(** [tf.nn.softmax(logits, -1)] on one row. *)
Definition softmax (logits : Vec) : Vec :=
  let s := Rsum (map exp logits) in
  map (fun x => exp x / s) logits.

(** [tf.argmax(v, -1)] on one row: the least index of a greatest entry;
    an empty row is an error. *)
Fixpoint argmax_from (best_i : nat) (best : R) (i : nat) (l : list R) : nat :=
  match l with
  | [] => best_i
  | x :: l' =>
      if Rlt_dec best x then argmax_from i x (S i) l'
      else argmax_from best_i best (S i) l'
  end.

Definition tf_argmax (v : Vec) : result Z :=
  match v with
  | [] => raise InvalidArgumentError
  | x :: l => ok (Z.of_nat (argmax_from 0 x 1 l))
  end.

(** [tf.reduce_max(v, -1)] on one row.  The float maximum of no element,
    minus infinity, is no real number: the empty row is an error here. *)
Definition tf_reduce_max (v : Vec) : result R :=
  match v with
  | [] => raise InvalidArgumentError
  | x :: l => ok (fold_left Rmax l x)
  end.

(** [tf.nn.dropout(x, keep_prob)]: [x / keep_prob * floor(keep_prob + u)]
    with [u] uniform in [0, 1). *)
Definition dropout (keep_prob : R) (u : nat -> R) (x : Vec) : Vec :=
  imap (fun i xi => xi / keep_prob * IZR (Zfloor (keep_prob + u i))) x.

(** [tf.sequence_mask(lengths, maxlen, dtype)] *)
Definition sequence_mask_row (maxlen : nat) (len : Z) : Vec :=
  map (fun j => if (Z.of_nat j <? len)%Z then 1 else 0) (seq 0 maxlen).

Definition tf_sequence_mask (lengths : IntVec) (maxlen : Z) : result Mat :=
  if (maxlen <? 0)%Z then raise InvalidArgumentError
  else ok (map (sequence_mask_row (Z.to_nat maxlen)) lengths).

(** [tf.nn.sparse_softmax_cross_entropy_with_logits] at one position. *)
Definition sparse_softmax_cross_entropy (label : Z) (logits : Vec) : result R :=
  if (0 <=? label)%Z && (label <? Z.of_nat (length logits))%Z then
    ok (- ln (nth (Z.to_nat label) (softmax logits) 0))
  else raise InvalidArgumentError.

(** Elementwise product of two rank-1 tensors with broadcasting: the
    lengths agree, or one of them is 1. *)
Definition broadcast_mul (a b : Vec) : result Vec :=
  if Nat.eqb (length a) (length b) then ok (map2 Rmult a b)
  else match a, b with
       | _, [w] => ok (map (fun x => x * w) a)
       | [x], _ => ok (map (fun w => x * w) b)
       | _, _ => raise InvalidArgumentError
       end.

(** [tf.contrib.seq2seq.sequence_loss(logits, targets, weights)] with its
    defaults: the weighted cross-entropies summed over batch and time,
    divided by the total weight plus [1e-12]. *)
Definition flat_crossent (logits : Tensor3) (targets : IntMat) : result Vec :=
  if Nat.eqb (length (concat logits)) (length (concat targets)) then
    mapM (fun p => sparse_softmax_cross_entropy (fst p) (snd p))
         (combine (concat targets) (concat logits))
  else raise InvalidArgumentError.

Definition sequence_loss (logits : Tensor3) (targets : IntMat) (weights : Mat)
  : result R :=
  crossent <- flat_crossent logits targets ;;
  weighted <- broadcast_mul crossent (concat weights) ;;
  ok (Rsum weighted / (Rsum (concat weights) + / 1000000000000)).

End FloatOps.

(** ** [str.lower()] *)

Definition is_upper (c : ascii) : bool :=
  let n := nat_of_ascii c in (Nat.leb 65 n) && (Nat.leb n 90).

Definition lower_ascii (c : ascii) : ascii :=
  if is_upper c then ascii_of_nat (nat_of_ascii c + 32) else c.

Fixpoint lower (s : string) : string :=
  match s with
  | EmptyString => EmptyString
  | String c s' => String (lower_ascii c) (lower s')
  end.

(** [s] is [w] up to the capitalisation of its letters: each character of
    [s] is the character of [w] at its place, or the upper-case letter of
    which that one is the lower case. *)
Definition upper_of (a b : ascii) : bool :=
  is_upper a && Nat.eqb (nat_of_ascii a + 32) (nat_of_ascii b).

Fixpoint case_variant (s w : string) : bool :=
  match s, w with
  | EmptyString, EmptyString => true
  | String a s', String b w' => (Ascii.eqb a b || upper_of a b) && case_variant s' w'
  | _, _ => false
  end.

Fixpoint no_upper (s : string) : bool :=
  match s with
  | EmptyString => true
  | String c s' => negb (is_upper c) && no_upper s'
  end.

(** ** The configuration, the graph under construction, the session *)

Record Config : Type := {
  hidden_units : Z;
  embedding_size : Z;
  encoder_max_time_steps : Z;
  decoder_max_time_steps : Z;
  encoder_depth : Z;
  decoder_depth : Z;
  encoder_vocab_size : Z;
  decoder_vocab_size : Z;
  logger_name : string;
  dropout_rate : R;
  use_fp16 : bool;
  optimizer_type : string;
  learning_rate : R;
  max_gradient_norm : R;
  use_bidirectional : bool;
  use_dropout : bool
}.

(** The variables created so far, with their [trainable] flag, in order. *)
Definition Graph := list (string * bool).

Definition has_variable (g : Graph) (name : string) : bool :=
  existsb (fun v => String.eqb (fst v) name) g.

Definition trainable_variables (g : Graph) : list string :=
  map fst (filter snd g).

(** Graph construction: it may raise, and it adds variables to the graph;
    what was added before an exception stays. *)
Definition Build (A : Type) : Type := Graph -> result A * Graph.

Definition bret {A} (a : A) : Build A := fun g => (ok a, g).

Definition bbind {A B} (c : Build A) (k : A -> Build B) : Build B :=
  fun g =>
    match c g with
    | (inl e, g') => (inl e, g')
    | (inr a, g') => k a g'
    end.

Definition lift {A} (r : result A) : Build A := fun g => (r, g).

Notation "x <~ c ;; k" := (bbind c (fun x => k))
  (at level 61, c at next level, right associativity).
Notation "' pat <~ c ;; k" := (bbind c (fun x => match x with pat => k end))
  (at level 61, pat pattern, c at next level, right associativity).

(** [tf.Variable(..., trainable=False, name=...)] *)
Definition tf_Variable (name : string) (trainable : bool) : Build string :=
  fun g => (ok name, g ++ [(name, trainable)]).

(** [tf.get_variable] without reuse: the name must be new. *)
Definition tf_get_variable (name : string) : Build string :=
  fun g =>
    if has_variable g name then (raise ValueError, g)
    else (ok name, g ++ [(name, true)]).

(** The variables of a layer: created at its first use, looked up again
    under [reuse=tf.AUTO_REUSE]. *)
Definition layer_variables (names : list string) (auto_reuse : bool) : Build unit :=
  fun g =>
    if existsb (has_variable g) names then
      if auto_reuse then (ok tt, g) else (raise ValueError, g)
    else (ok tt, g ++ map (fun n => (n, true)) names).

(** The variables of a recurrent cell, or of a layer that is given no
    name: created when it is first called. *)
Definition cell_variables (names : list string) : Build unit :=
  fun g => (ok tt, g ++ map (fun n => (n, true))
                         (filter (fun n => negb (has_variable g n)) names)).

(** What a session holds between two calls of [run]. *)
Record Session : Type := {
  sess_vars : Vars;
  sess_global_step : Z;
  sess_global_epoch_step : Z
}.

(** ** Sample inputs

    A small configuration, a GRU kernel, a gradient and an update rule on
    which the model is exercised. *)

Definition sample_config (bidirectional : bool) (enc_depth dec_depth : Z)
    (steps : Z) (opt : string) : Config :=
  {| hidden_units := 2;
     embedding_size := 2;
     encoder_max_time_steps := 3;
     decoder_max_time_steps := steps;
     encoder_depth := enc_depth;
     decoder_depth := dec_depth;
     encoder_vocab_size := 10;
     decoder_vocab_size := 10;
     logger_name := "seq2seq";
     dropout_rate := 0%R;
     use_fp16 := false;
     optimizer_type := opt;
     learning_rate := 1%R;
     max_gradient_norm := 5%R;
     use_bidirectional := bidirectional;
     use_dropout := true |}.

Definition sample_gru : Vars -> string -> Z -> Vec -> Vec -> Vec :=
  fun _ _ _ _ h => h.

Definition sample_gradients : (Vars -> result R) -> list string -> Vars -> list Vec :=
  fun _ names _ => map (fun _ => [1%R]) names.

Definition sample_adam : R -> list (Vec * string) -> Vars -> Vars :=
  fun _ _ vs => vs.

Definition sample_session : Session :=
  {| sess_vars := fun _ _ _ => 0%R;
     sess_global_step := 0;
     sess_global_epoch_step := 0 |}.

Definition sample_noise : Noise := fun _ _ _ _ => 0%R.

Definition sample_noise_half : Noise := fun _ _ _ _ => (/ 2)%R.

Definition sample_train_ctx (E : IntMat) (El : IntVec) (D : IntMat) (Dl : IntVec)
  : RunCtx :=
  {| feed := {| fd_encoder_inputs := Some E;
                fd_encoder_inputs_length := Some El;
                fd_decoder_inputs := Some D;
                fd_decoder_inputs_length := Some Dl;
                fd_keep_prob := Some 1%R |};
     vars := sess_vars sample_session;
     noise := sample_noise |}.

(** ** Special tokens

    [GO] and [EOS] come from [utils.config], which is not part of the
    sources at hand: they are int32 constants taken as parameters. *)

Section Seq2Seq.

Variables GO EOS : Z.

(** The GRU kernel of TensorFlow: the new state (which is also the output)
    from the cell's variables, found under its scope, its width, the input
    and the previous state. *)
Variable gru_kernel : Vars -> string -> Z -> Vec -> Vec -> Vec.

(** [tf.gradients(ys, xs)]: the gradient of a scalar, as a function of
    the variables, with respect to the named variables, one flattened
    tensor per variable; and the update rule of [tf.train.AdamOptimizer]
    from the learning rate and the (gradient, variable) pairs. *)
Variable tf_gradients : (Vars -> result R) -> list string -> Vars -> list Vec.
Variable adam_update : R -> list (Vec * string) -> Vars -> Vars.

(** ** Recurrent cells *)

Inductive SingleCell : Type :=
| GRUCell (units : Z) (name : string)
| DropoutWrapper (cell : SingleCell) (output_keep_prob : Tensor R).

Inductive RNNCell : Type :=
| Single (cell : SingleCell)
| MultiRNNCell (cells : list SingleCell).

(** The value of a cell state: one tensor, or a tuple of tensors. *)
Inductive StateV : Type :=
| STensor (h : Mat)
| STuple (hs : list Mat).

(** A cell state in the graph. *)
Inductive StateT : Type :=
| TTensor (h : Tensor Mat)
| TTuple (hs : list (Tensor Mat)).

Fixpoint cell_units (c : SingleCell) : Z :=
  match c with
  | GRUCell units _ => units
  | DropoutWrapper c' _ => cell_units c'
  end.

Definition scoped (scope name : string) : string := (scope ++ "/" ++ name)%string.

Definition string_of_nat (n : nat) : string :=
  NilEmpty.string_of_uint (Nat.to_uint n).

(** One invocation of a single cell on a batch.  [t] counts the
    invocations: the dropout op draws fresh samples at each. *)
Fixpoint single_cell_call (c : SingleCell) (scope : string) (ctx : RunCtx)
    (t : nat) (x h : Mat) : result (Mat * Mat) :=
  match c with
  | GRUCell units name =>
      let h' := map2 (gru_kernel (vars ctx) (scoped scope name) units) x h in
      ok (h', h')
  | DropoutWrapper c' output_keep_prob =>
      ' (o, h') <- single_cell_call c' scope ctx t x h ;;
      p <- output_keep_prob ctx ;;
      ok (imap (fun b row => dropout p (noise ctx scope t b) row) o, h')
  end.

(** [MultiRNNCell.call]: layer [i] reads [state[i]]; its output is the
    input of layer [i + 1]. *)
Fixpoint multi_cell_call (cells : list SingleCell) (scope : string) (i : nat)
    (ctx : RunCtx) (t : nat) (cur_inp : Mat) (state : list Mat)
  : result (Mat * list Mat) :=
  match cells with
  | [] => ok (cur_inp, [])
  | c :: cells' =>
      match nth_error state i with
      | None => raise IndexError
      | Some cur_state =>
          ' (o, new_state) <-
            single_cell_call c (scoped scope ("cell_" ++ string_of_nat i)) ctx t
                             cur_inp cur_state ;;
          ' (out, new_states) <- multi_cell_call cells' scope (S i) ctx t o state ;;
          ok (out, new_state :: new_states)
      end
  end.

Definition cell_call (cell : RNNCell) (scope : string) (ctx : RunCtx) (t : nat)
    (x : Mat) (s : StateV) : result (Mat * StateV) :=
  match cell, s with
  | Single c, STensor h =>
      ' (o, h') <- single_cell_call c scope ctx t x h ;; ok (o, STensor h')
  | MultiRNNCell cells, STuple hs =>
      ' (o, hs') <- multi_cell_call cells (scoped scope "multi_rnn_cell") 0 ctx t x hs ;;
      ok (o, STuple hs')
  | _, _ => raise ValueError
  end.

Definition zeros (batch : nat) (units : Z) : Mat :=
  repeat (repeat 0%R (Z.to_nat units)) batch.

Definition zero_state (cell : RNNCell) (batch : nat) : StateV :=
  match cell with
  | Single c => STensor (zeros batch (cell_units c))
  | MultiRNNCell cells => STuple (map (fun c => zeros batch (cell_units c)) cells)
  end.

(** ** [tf.nn.dynamic_rnn] *)

(** Rows whose sequence has ended keep [a], the others take [b]. *)
Definition select_rows (finished : list bool) (a b : Mat) : Mat :=
  map (fun p : bool * (Vec * Vec) => if fst p then fst (snd p) else snd (snd p))
      (combine finished (combine a b)).

Definition select_state (finished : list bool) (old new : StateV) : StateV :=
  match old, new with
  | STensor a, STensor b => STensor (select_rows finished a b)
  | STuple la, STuple lb => STuple (map2 (select_rows finished) la lb)
  | _, _ => new
  end.

(** The loop over time: past the length of a row the output is zero and
    the state is copied through. *)
Fixpoint rnn_loop (step : nat -> Mat -> StateV -> result (Mat * StateV))
    (lens : IntVec) (t : nat) (xs : list Mat) (s : StateV)
  : result (list Mat * StateV) :=
  match xs with
  | [] => ok ([], s)
  | x :: xs' =>
      ' (o, s') <- step t x s ;;
      let finished := map (fun l => l <=? Z.of_nat t) lens in
      let o' := select_rows finished (map (map (fun _ => 0%R)) o) o in
      ' (os, sf) <- rnn_loop step lens (S t) xs' (select_state finished s s') ;;
      ok (o' :: os, sf)
  end.

Definition time_major (inputs : Tensor3) : list Mat :=
  map (fun t => map (fun row => nth t row []) inputs) (seq 0 (width inputs)).

Definition batch_major (batch : nat) (outputs : list Mat) : Tensor3 :=
  map (fun b => map (fun o => nth b o []) outputs) (seq 0 batch).

Definition dynamic_rnn_run (step : nat -> Mat -> StateV -> result (Mat * StateV))
    (init : StateV) (inputs : Tensor3) (lens : IntVec) : result (Tensor3 * StateV) :=
  if Nat.eqb (length lens) (length inputs) then
    ' (os, sf) <- rnn_loop step lens 0 (time_major inputs) init ;;
    ok (batch_major (length inputs) os, sf)
  else raise InvalidArgumentError.

Definition eval_state (s : StateT) : Tensor StateV :=
  fun ctx =>
    match s return result StateV with
    | TTensor h => v <- h ctx ;; ok (STensor v)
    | TTuple hs => vs <- mapM (fun h => h ctx) hs ;; ok (STuple vs)
    end.

(** The components of the final state of a cell, as graph tensors. *)
Definition state_tensor {A} (run : Tensor (A * StateV)) : Tensor Mat :=
  fun ctx =>
    r <- run ctx ;;
    match snd r with
    | STensor h => ok h
    | STuple _ => raise TypeError
    end.

Definition state_component {A} (run : Tensor (A * StateV)) (i : nat) : Tensor Mat :=
  fun ctx =>
    r <- run ctx ;;
    match snd r with
    | STuple hs =>
        match nth_error hs i with
        | Some h => ok h
        | None => raise IndexError
        end
    | STensor _ => raise TypeError
    end.

(** The structure of an initial state is checked against the cell when the
    graph is built. *)
Definition check_state_structure (cell : RNNCell) (s : StateT) : result unit :=
  match cell, s with
  | Single _, TTensor _ => ok tt
  | MultiRNNCell cells, TTuple hs =>
      if Nat.ltb (length hs) (length cells) then raise IndexError
      else if Nat.ltb (length cells) (length hs) then raise ValueError
      else ok tt
  | _, _ => raise ValueError
  end.

(** The outputs of [dynamic_rnn] are the stack of the TensorArray that
    the loop fills, one element per time step.  TensorFlow does not stack
    an empty TensorArray whose element shape is not fully known, and the
    batch size of a fed batch is not: on a batch with no time step the
    loop does not run, the final state is the initial state, and the
    outputs raise UnimplementedError when they are evaluated. *)
Definition stack_outputs (inputs outputs : Tensor3) : result Tensor3 :=
  if Nat.eqb (width inputs) 0 then raise UnimplementedError else ok outputs.

Definition tf_dynamic_rnn (cell : RNNCell) (scope : string)
    (initial_state : option StateT) (inputs : Tensor Tensor3)
    (sequence_length : Tensor IntVec) : result (Tensor Tensor3 * StateT) :=
  _ <- match initial_state with
       | Some s => check_state_structure cell s
       | None => ok tt
       end ;;
  let run : Tensor (Tensor3 * StateV) :=
    fun ctx =>
      x <- inputs ctx ;;
      lens <- sequence_length ctx ;;
      s0 <- match initial_state with
            | Some s => eval_state s ctx
            | None => ok (zero_state cell (length x))
            end ;;
      dynamic_rnn_run (cell_call cell scope ctx) s0 x lens in
  let outputs : Tensor Tensor3 :=
    fun ctx => x <- inputs ctx ;; r <- run ctx ;; stack_outputs x (fst r) in
  let state :=
    match cell with
    | Single _ => TTensor (state_tensor run)
    | MultiRNNCell cells =>
        TTuple (map (state_component run) (seq 0 (length cells)))
    end in
  ok (outputs, state).

(** [tf.nn.bidirectional_dynamic_rnn]: the backward cell runs over the
    sequences reversed by length, and its outputs are reversed back. *)
Definition tf_bidirectional_dynamic_rnn (cell_fw cell_bw : SingleCell)
    (scope : string) (inputs : Tensor Tensor3) (sequence_length : Tensor IntVec)
  : result ((Tensor Tensor3 * Tensor Tensor3) * (StateT * StateT)) :=
  ' (output_fw, state_fw) <-
    tf_dynamic_rnn (Single cell_fw) (scoped scope "fw") None inputs sequence_length ;;
  let inputs_reverse : Tensor Tensor3 :=
    fun ctx =>
      x <- inputs ctx ;; lens <- sequence_length ctx ;; reverse_sequence lens x in
  ' (tmp, state_bw) <-
    tf_dynamic_rnn (Single cell_bw) (scoped scope "bw") None inputs_reverse
                   sequence_length ;;
  let output_bw : Tensor Tensor3 :=
    fun ctx =>
      o <- tmp ctx ;; lens <- sequence_length ctx ;; reverse_sequence lens o in
  ok ((output_fw, output_bw), (state_fw, state_bw)).

(** ** [build_placeholders] *)

Record Placeholders : Type := {
  keep_prob : Tensor R;
  encoder_inputs : Tensor IntMat;
  encoder_inputs_length : Tensor IntVec;
  batch_size : Tensor nat;
  decoder_inputs : Tensor IntMat;
  decoder_inputs_length : option (Tensor IntVec);
  decoder_start_token : option (Tensor IntMat);
  decoder_end_token : option (Tensor IntMat);
  decoder_inputs_train : option (Tensor IntMat);
  decoder_inputs_train_length : option (Tensor IntVec);
  decoder_targets_train : option (Tensor IntMat);
  decoder_targets_train_length : option (Tensor IntVec);
  decoder_inputs_inference : option (Tensor IntMat);
  decoder_inputs_inference_length : option (Tensor IntVec)
}.

Definition build_placeholders (mode : string) : Placeholders :=
  let keep_prob := placeholder_scalar fd_keep_prob in
  let encoder_inputs := placeholder_mat fd_encoder_inputs in
  let encoder_inputs_length := placeholder_vec fd_encoder_inputs_length in
  let batch_size : Tensor nat :=
    fun ctx => e <- encoder_inputs ctx ;; ok (length e) in
  if String.eqb mode "train" then
    let decoder_inputs := placeholder_mat fd_decoder_inputs in
    let decoder_inputs_length := placeholder_vec fd_decoder_inputs_length in
    let decoder_start_token : Tensor IntMat :=
      fun ctx => n <- batch_size ctx ;; ok (ones_times_col n GO) in
    let decoder_end_token : Tensor IntMat :=
      fun ctx => n <- batch_size ctx ;; ok (ones_times_col n EOS) in
    let decoder_inputs_train : Tensor IntMat :=
      fun ctx =>
        s <- decoder_start_token ctx ;;
        d <- decoder_inputs ctx ;;
        tf_concat_last s d in
    let decoder_inputs_train_length : Tensor IntVec :=
      fun ctx => l <- decoder_inputs_length ctx ;; ok (tf_add_scalar l 1) in
    let decoder_targets_train : Tensor IntMat :=
      fun ctx =>
        d <- decoder_inputs ctx ;;
        e <- decoder_end_token ctx ;;
        tf_concat_last d e in
    let decoder_targets_train_length : Tensor IntVec :=
      fun ctx => l <- decoder_inputs_length ctx ;; ok (tf_add_scalar l 1) in
    {| keep_prob := keep_prob;
       encoder_inputs := encoder_inputs;
       encoder_inputs_length := encoder_inputs_length;
       batch_size := batch_size;
       decoder_inputs := decoder_inputs;
       decoder_inputs_length := Some decoder_inputs_length;
       decoder_start_token := Some decoder_start_token;
       decoder_end_token := Some decoder_end_token;
       decoder_inputs_train := Some decoder_inputs_train;
       decoder_inputs_train_length := Some decoder_inputs_train_length;
       decoder_targets_train := Some decoder_targets_train;
       decoder_targets_train_length := Some decoder_targets_train_length;
       decoder_inputs_inference := None;
       decoder_inputs_inference_length := None |}
  else
    let decoder_inputs : Tensor IntMat :=
      fun ctx => n <- batch_size ctx ;; ok (ones_times_col n GO) in
    let decoder_inputs_inference_length : Tensor IntVec :=
      fun ctx => n <- batch_size ctx ;; ok (ones_times n 1) in
    {| keep_prob := keep_prob;
       encoder_inputs := encoder_inputs;
       encoder_inputs_length := encoder_inputs_length;
       batch_size := batch_size;
       decoder_inputs := decoder_inputs;
       decoder_inputs_length := None;
       decoder_start_token := None;
       decoder_end_token := None;
       decoder_inputs_train := None;
       decoder_inputs_train_length := None;
       decoder_targets_train := None;
       decoder_targets_train_length := None;
       decoder_inputs_inference := Some decoder_inputs;
       decoder_inputs_inference_length := Some decoder_inputs_inference_length |}.

(** ** [build_single_cell], [build_encoder_cell], [build_decoder_cell] *)

(** [range(n)] *)
Definition range (n : Z) : list nat := seq 0 (Z.to_nat n).

Definition build_single_cell (cfg : Config) (ph : Placeholders) : SingleCell :=
  let cell := GRUCell (hidden_units cfg) "single_cell" in
  if use_dropout cfg then DropoutWrapper cell (keep_prob ph) else cell.

(** The constructor of [MultiRNNCell] refuses an empty list of cells. *)
Definition new_MultiRNNCell (cells : list SingleCell) : result RNNCell :=
  match cells with
  | [] => raise ValueError
  | _ => ok (MultiRNNCell cells)
  end.

(** [depth if depth else self.encoder_depth]: [None] and [0] are falsy. *)
Definition depth_or (depth : option Z) (default : Z) : Z :=
  match depth with
  | Some d => if d =? 0 then default else d
  | None => default
  end.

Definition build_encoder_cell (cfg : Config) (ph : Placeholders) (depth : option Z)
  : result RNNCell :=
  let depth := depth_or depth (encoder_depth cfg) in
  let cells := map (fun _ => build_single_cell cfg ph) (range depth) in
  new_MultiRNNCell cells.

Definition build_decoder_cell (cfg : Config) (ph : Placeholders) (depth : option Z)
  : result RNNCell :=
  let depth := depth_or depth (decoder_depth cfg) in
  let cells := map (fun _ => build_single_cell cfg ph) (range depth) in
  new_MultiRNNCell cells.

(** ** Graph operations that create variables *)

Fixpoint cell_name (c : SingleCell) : string :=
  match c with
  | GRUCell _ name => name
  | DropoutWrapper c' _ => cell_name c'
  end.

Definition rnn_variable_names (cell : RNNCell) (scope : string) : list string :=
  match cell with
  | Single c => [scoped scope (cell_name c)]
  | MultiRNNCell cells =>
      imap (fun i c =>
              scoped (scoped (scoped scope "multi_rnn_cell")
                             ("cell_" ++ string_of_nat i)) (cell_name c))
           cells
  end.

Definition dynamic_rnn (cell : RNNCell) (scope : string)
    (initial_state : option StateT) (inputs : Tensor Tensor3)
    (sequence_length : Tensor IntVec) : Build (Tensor Tensor3 * StateT) :=
  r <~ lift (tf_dynamic_rnn cell scope initial_state inputs sequence_length) ;;
  _ <~ cell_variables (rnn_variable_names cell scope) ;;
  bret r.

Definition bidirectional_dynamic_rnn (cell_fw cell_bw : SingleCell) (scope : string)
    (inputs : Tensor Tensor3) (sequence_length : Tensor IntVec)
  : Build ((Tensor Tensor3 * Tensor Tensor3) * (StateT * StateT)) :=
  r <~ lift (tf_bidirectional_dynamic_rnn cell_fw cell_bw scope inputs
                                          sequence_length) ;;
  _ <~ cell_variables (rnn_variable_names (Single cell_fw) (scoped scope "fw")) ;;
  _ <~ cell_variables (rnn_variable_names (Single cell_bw) (scoped scope "bw")) ;;
  bret r.

Definition dense_variable_names (name : string) (use_bias : bool) : list string :=
  scoped name "kernel" :: (if use_bias then [scoped name "bias"] else []).

(** [tf.concat([a, b], axis=-1)] on rank-3 tensors. *)
Definition tf_concat_last3 (a b : Tensor Tensor3) : Tensor Tensor3 :=
  fun ctx =>
    x <- a ctx ;; y <- b ctx ;; ok (map2 (map2 (@app R)) x y).

(** ** [build_encoder] *)

Record Encoder : Type := {
  encoder_embeddings : string;
  encoder_inputs_embedded : Tensor Tensor3;
  encoder_inputs_embedded_dense : Tensor Tensor3;
  encoder_cell : option RNNCell;
  encoder_outputs : Tensor Tensor3;
  encoder_last_state : StateT
}.

(** [(s,)]: a one-element tuple of state tensors. *)
Definition tuple1 (s : StateT) : result (list (Tensor Mat)) :=
  match s with
  | TTensor h => ok [h]
  | TTuple _ => raise ValueError
  end.

(** The right operand of [tuple + s]: [s] must itself be a tuple. *)
Definition as_tuple (s : StateT) : result (list (Tensor Mat)) :=
  match s with
  | TTuple hs => ok hs
  | TTensor _ => raise TypeError
  end.

Definition build_encoder (cfg : Config) (ph : Placeholders) : Build Encoder :=
  let scope := "encoder"%string in
  encoder_embeddings <~ tf_get_variable (scoped scope "embedding") ;;
  let encoder_inputs_embedded :=
    embedding_lookup_mat encoder_embeddings (encoder_vocab_size cfg)
                         (embedding_size cfg) (encoder_inputs ph) in
  _ <~ layer_variables
         (dense_variable_names (scoped scope "inputs_embedded_dense") false) false ;;
  let encoder_inputs_embedded_dense :=
    tf_layers_dense3 (scoped scope "inputs_embedded_dense") (hidden_units cfg) false
                     encoder_inputs_embedded in
  if use_bidirectional cfg then
    let cell_fw := build_single_cell cfg ph in
    let cell_bw := build_single_cell cfg ph in
    ' (bi_outputs, bi_last_state) <~
      bidirectional_dynamic_rnn cell_fw cell_bw scope encoder_inputs_embedded_dense
                                (encoder_inputs_length ph) ;;
    _ <~ cell_variables (dense_variable_names (scoped scope "dense") false) ;;
    let bi_outputs :=
      tf_layers_dense3 (scoped scope "dense") (hidden_units cfg) false
                       (tf_concat_last3 (fst bi_outputs) (snd bi_outputs)) in
    upper_cell <~ lift
      (if 2 <? encoder_depth cfg then
         c <- build_encoder_cell cfg ph (Some (encoder_depth cfg - 1)) ;; ok (Some c)
       else if encoder_depth cfg =? 2 then
         ok (Some (Single (build_single_cell cfg ph)))
       else ok None) ;;
    match upper_cell with
    | Some upper_cell =>
        ' (upper_outputs, upper_last_state) <~
          dynamic_rnn upper_cell scope None bi_outputs (encoder_inputs_length ph) ;;
        fw <~ lift (tuple1 (fst bi_last_state)) ;;
        upper <~ lift (if encoder_depth cfg =? 2 then tuple1 upper_last_state
                       else as_tuple upper_last_state) ;;
        bret {| encoder_embeddings := encoder_embeddings;
                encoder_inputs_embedded := encoder_inputs_embedded;
                encoder_inputs_embedded_dense := encoder_inputs_embedded_dense;
                encoder_cell := None;
                encoder_outputs := upper_outputs;
                encoder_last_state := TTuple (fw ++ upper) |}
    | None =>
        fw <~ lift (tuple1 (fst bi_last_state)) ;;
        bret {| encoder_embeddings := encoder_embeddings;
                encoder_inputs_embedded := encoder_inputs_embedded;
                encoder_inputs_embedded_dense := encoder_inputs_embedded_dense;
                encoder_cell := None;
                encoder_outputs := bi_outputs;
                encoder_last_state := TTuple fw |}
    end
  else
    encoder_cell <~ lift (build_encoder_cell cfg ph None) ;;
    ' (encoder_outputs, encoder_last_state) <~
      dynamic_rnn encoder_cell scope None encoder_inputs_embedded_dense
                  (encoder_inputs_length ph) ;;
    bret {| encoder_embeddings := encoder_embeddings;
            encoder_inputs_embedded := encoder_inputs_embedded;
            encoder_inputs_embedded_dense := encoder_inputs_embedded_dense;
            encoder_cell := Some encoder_cell;
            encoder_outputs := encoder_outputs;
            encoder_last_state := encoder_last_state |}.

(** ** [build_decoder] *)

(** Calling a cell object on graph tensors, as the inference loop does:
    a [MultiRNNCell] reads [state[i]] for each of its layers. *)
Definition rnn_cell_call (cell : RNNCell) (scope : string) (t : nat)
    (inputs : Tensor Mat) (state : StateT) : result (Tensor Mat * StateT) :=
  match cell, state with
  | MultiRNNCell cells, TTuple hs =>
      if Nat.ltb (length hs) (length cells) then raise IndexError
      else
        let run : Tensor (Mat * StateV) :=
          fun ctx =>
            x <- inputs ctx ;;
            s <- eval_state (TTuple (firstn (length cells) hs)) ctx ;;
            cell_call cell scope ctx t x s in
        ok (fun ctx => r <- run ctx ;; ok (fst r),
            TTuple (map (state_component run) (seq 0 (length cells))))
  | Single c, TTensor h =>
      let run : Tensor (Mat * StateV) :=
        fun ctx =>
          x <- inputs ctx ;; s <- eval_state state ctx ;; cell_call cell scope ctx t x s in
      ok (fun ctx => r <- run ctx ;; ok (fst r), TTensor (state_tensor run))
  | _, _ => raise ValueError
  end.

(** [tf.stack(values, axis=1)]: the shape is read off [values[0]], so
    that an empty list is an IndexError. *)
Definition stack_rows {A} (batch : nat) (values : list (list A)) : list (list A) :=
  map (fun b =>
         flat_map (fun v => match nth_error v b with
                            | Some a => [a]
                            | None => []
                            end) values)
      (seq 0 batch).

Definition stack_values {A} (vs : list (list A)) : list (list A) :=
  stack_rows (length (hd [] vs)) vs.

Definition tf_stack1 {A} (values : list (Tensor (list A)))
  : result (Tensor (list (list A))) :=
  match values with
  | [] => raise IndexError
  | _ => ok (fun ctx => vs <- mapM (fun v => v ctx) values ;; ok (stack_values vs))
  end.

Record Decoder : Type := {
  decoder_initial_state : StateT;
  decoder_cell : RNNCell;
  decoder_embeddings : string;
  decoder_inputs_embedded : option (Tensor Tensor3);
  decoder_outputs : Tensor Tensor3;
  decoder_last_state : option StateT;
  decoder_logits : Tensor Tensor3;
  decoder_masks : option (Tensor Mat);
  loss : option (Tensor R);
  decoder_initial_tokens : option (Tensor IntVec);
  decoder_initial_tokens_embedded : option (Tensor Mat);
  decoder_probabilities : option (Tensor Tensor3);
  decoder_predicts : option (Tensor IntMat);
  decoder_scores : option (Tensor Mat)
}.

(** What the decoder loop carries from one iteration to the next. *)
Record LoopState : Type := {
  ls_state : StateT;
  ls_input : Tensor Mat;
  ls_last_state : option StateT;
  ls_outputs : list (Tensor Mat);
  ls_logits : list (Tensor Mat);
  ls_probabilities : list (Tensor Mat);
  ls_predicts : list (Tensor IntVec);
  ls_scores : list (Tensor Vec)
}.

(** The body of [for _ in range(self.decoder_max_time_steps)]. *)
Definition decoder_loop_body (cfg : Config) (decoder_cell : RNNCell)
    (decoder_embeddings : string) (scope : string) (t : nat) (st : LoopState)
  : Build LoopState :=
  ' (output, state) <~
    lift (rnn_cell_call decoder_cell scope t (ls_input st) (ls_state st)) ;;
  _ <~ cell_variables (rnn_variable_names decoder_cell scope) ;;
  _ <~ layer_variables (dense_variable_names (scoped scope "decoder_logits") true)
                       true ;;
  let logits :=
    tf_layers_dense (scoped scope "decoder_logits") (decoder_vocab_size cfg) true
                    output in
  let probabilities : Tensor Mat :=
    fun ctx => l <- logits ctx ;; ok (map softmax l) in
  let predicts : Tensor IntVec :=
    fun ctx => p <- probabilities ctx ;; mapM tf_argmax p in
  let scores : Tensor Vec :=
    fun ctx => p <- probabilities ctx ;; mapM tf_reduce_max p in
  let input :=
    embedding_lookup_vec decoder_embeddings (decoder_vocab_size cfg)
                         (embedding_size cfg) predicts in
  bret {| ls_state := state;
          ls_input := input;
          ls_last_state := Some state;
          ls_outputs := ls_outputs st ++ [output];
          ls_logits := ls_logits st ++ [logits];
          ls_probabilities := ls_probabilities st ++ [probabilities];
          ls_predicts := ls_predicts st ++ [predicts];
          ls_scores := ls_scores st ++ [scores] |}.

Fixpoint for_loop {S} (body : nat -> S -> Build S) (iterations : list nat) (st : S)
  : Build S :=
  match iterations with
  | [] => bret st
  | t :: rest => st' <~ body t st ;; for_loop body rest st'
  end.

Definition build_decoder (cfg : Config) (mode : string) (ph : Placeholders)
    (enc : Encoder) : Build Decoder :=
  let scope := "decoder"%string in
  let decoder_initial_state := encoder_last_state enc in
  decoder_cell <~ lift (build_decoder_cell cfg ph None) ;;
  decoder_embeddings <~ tf_get_variable (scoped scope "embedding") ;;
  if String.eqb mode "train" then
    decoder_inputs_train <~ lift (attr (decoder_inputs_train ph)) ;;
    let decoder_inputs_embedded :=
      embedding_lookup_mat decoder_embeddings (decoder_vocab_size cfg)
                           (embedding_size cfg) decoder_inputs_train in
    decoder_inputs_train_length <~ lift (attr (decoder_inputs_train_length ph)) ;;
    ' (decoder_outputs, decoder_last_state) <~
      dynamic_rnn decoder_cell scope (Some decoder_initial_state)
                  decoder_inputs_embedded decoder_inputs_train_length ;;
    _ <~ layer_variables (dense_variable_names (scoped scope "decoder_logits") true)
                         false ;;
    let decoder_logits :=
      tf_layers_dense3 (scoped scope "decoder_logits") (decoder_vocab_size cfg) true
                       decoder_outputs in
    decoder_targets_train_length <~ lift (attr (decoder_targets_train_length ph)) ;;
    let decoder_masks : Tensor Mat :=
      fun ctx =>
        lengths <- decoder_inputs_train_length ctx ;;
        tl <- decoder_targets_train_length ctx ;;
        tf_sequence_mask lengths (tf_reduce_max_int tl) in
    decoder_targets_train <~ lift (attr (decoder_targets_train ph)) ;;
    let loss : Tensor R :=
      fun ctx =>
        logits <- decoder_logits ctx ;;
        targets <- decoder_targets_train ctx ;;
        weights <- decoder_masks ctx ;;
        sequence_loss logits targets weights in
    bret {| decoder_initial_state := decoder_initial_state;
            decoder_cell := decoder_cell;
            decoder_embeddings := decoder_embeddings;
            decoder_inputs_embedded := Some decoder_inputs_embedded;
            decoder_outputs := decoder_outputs;
            decoder_last_state := Some decoder_last_state;
            decoder_logits := decoder_logits;
            decoder_masks := Some decoder_masks;
            loss := Some loss;
            decoder_initial_tokens := None;
            decoder_initial_tokens_embedded := None;
            decoder_probabilities := None;
            decoder_predicts := None;
            decoder_scores := None |}
  else
    let decoder_initial_tokens : Tensor IntVec :=
      fun ctx => n <- batch_size ph ctx ;; ok (ones_times n GO) in
    let decoder_initial_tokens_embedded :=
      embedding_lookup_vec decoder_embeddings (decoder_vocab_size cfg)
                           (embedding_size cfg) decoder_initial_tokens in
    st <~ for_loop (decoder_loop_body cfg decoder_cell decoder_embeddings scope)
                   (range (decoder_max_time_steps cfg))
                   {| ls_state := decoder_initial_state;
                      ls_input := decoder_initial_tokens_embedded;
                      ls_last_state := None;
                      ls_outputs := [];
                      ls_logits := [];
                      ls_probabilities := [];
                      ls_predicts := [];
                      ls_scores := [] |} ;;
    decoder_outputs <~ lift (tf_stack1 (ls_outputs st)) ;;
    decoder_logits <~ lift (tf_stack1 (ls_logits st)) ;;
    decoder_probabilities <~ lift (tf_stack1 (ls_probabilities st)) ;;
    decoder_predicts <~ lift (tf_stack1 (ls_predicts st)) ;;
    decoder_scores <~ lift (tf_stack1 (ls_scores st)) ;;
    bret {| decoder_initial_state := decoder_initial_state;
            decoder_cell := decoder_cell;
            decoder_embeddings := decoder_embeddings;
            decoder_inputs_embedded := None;
            decoder_outputs := decoder_outputs;
            decoder_last_state := ls_last_state st;
            decoder_logits := decoder_logits;
            decoder_masks := None;
            loss := None;
            decoder_initial_tokens := Some decoder_initial_tokens;
            decoder_initial_tokens_embedded := Some decoder_initial_tokens_embedded;
            decoder_probabilities := Some decoder_probabilities;
            decoder_predicts := Some decoder_predicts;
            decoder_scores := Some decoder_scores |}.

(** ** [build_optimizer] *)

(** [tf.clip_by_global_norm(t_list, clip_norm)] multiplies every tensor
    by [clip_norm * min(1 / global_norm, 1 / clip_norm)], which is
    [clip_norm / max(global_norm, clip_norm)] for a positive [clip_norm]
    and 1 for a negative one.  With a zero norm [1 / global_norm] is
    infinite and the minimum is [1 / clip_norm]. *)
Definition sum_squares (t_list : list Vec) : R :=
  Rsum (map (fun t => Rsum (map Rsqr t)) t_list).

Definition global_norm (t_list : list Vec) : R := sqrt (sum_squares t_list).

Definition tf_clip_by_global_norm (t_list : list Vec) (clip_norm : R)
  : list Vec * R :=
  let norm := global_norm t_list in
  let scale :=
    (clip_norm * (if Rle_dec norm 0 then / clip_norm
                  else Rmin (/ norm) (/ clip_norm)))%R in
  (map (map (fun x => (x * scale)%R)) t_list, norm).

Record AdamOptimizer : Type := { adam_learning_rate : R }.

Definition with_vars (ctx : RunCtx) (vs : Vars) : RunCtx :=
  {| feed := feed ctx; vars := vs; noise := noise ctx |}.

Record Optimizer : Type := {
  trainable_verbs : option (list string);
  optimizer : option AdamOptimizer;
  gradients : option (Tensor (list Vec));
  clip_gradients : option (Tensor (list Vec));
  train_op : option (RunCtx -> Session -> result Session)
}.

Definition get_graph : Build Graph := fun g => (ok g, g).

(** The slot variables of Adam: the two power accumulators and two
    moment slots per variable, none of them trainable.  TensorFlow creates
    the moment slots of the variables that have a gradient, those the loss
    is computed from; here they are created for every trainable variable,
    also for one the loss does not read (the backward cell of a
    bidirectional encoder of depth 1). *)
Definition adam_slots (names : list string) : Build unit :=
  fun g => (ok tt,
            g ++ [("beta1_power"%string, false); ("beta2_power"%string, false)]
              ++ flat_map (fun n => [(scoped n "Adam", false);
                                     (scoped n "Adam_1", false)]) names).

Definition build_optimizer (cfg : Config) (mode : string) (dec : Decoder)
  : Build Optimizer :=
  if String.eqb mode "train" then
    g <~ get_graph ;;
    let trainable_verbs := trainable_variables g in
    let optimizer :=
      if String.eqb (lower (optimizer_type cfg)) "adam"
      then Some {| adam_learning_rate := learning_rate cfg |}
      else None in
    loss <~ lift (attr (loss dec)) ;;
    let gradients : Tensor (list Vec) :=
      fun ctx =>
        _ <- loss ctx ;;
        ok (tf_gradients (fun vs => loss (with_vars ctx vs)) trainable_verbs
                         (vars ctx)) in
    let clip_gradients : Tensor (list Vec) :=
      fun ctx =>
        gs <- gradients ctx ;;
        ok (fst (tf_clip_by_global_norm gs (max_gradient_norm cfg))) in
    opt <~ lift (attr optimizer) ;;
    _ <~ adam_slots trainable_verbs ;;
    let train_op : RunCtx -> Session -> result Session :=
      fun ctx sess =>
        gs <- clip_gradients ctx ;;
        ok {| sess_vars :=
                adam_update (adam_learning_rate opt) (combine gs trainable_verbs)
                            (sess_vars sess);
              sess_global_step := add_i32 (sess_global_step sess) 1;
              sess_global_epoch_step := sess_global_epoch_step sess |} in
    bret {| trainable_verbs := Some trainable_verbs;
            optimizer := optimizer;
            gradients := Some gradients;
            clip_gradients := Some clip_gradients;
            train_op := Some train_op |}
  else
    bret {| trainable_verbs := None;
            optimizer := None;
            gradients := None;
            clip_gradients := None;
            train_op := None |}.

(** ** [Seq2SeqModel.__init__] *)

Record Seq2SeqModel : Type := {
  mode : string;
  config : Config;
  global_step : string;
  global_epoch_step : string;
  placeholders : Placeholders;
  encoder : Encoder;
  decoder : Decoder;
  optimization : Optimizer
}.

Definition init_config (cfg : Config) : Build (Config * (string * string)) :=
  global_step <~ tf_Variable "global_step" false ;;
  global_epoch_step <~ tf_Variable "global_epoch_step" false ;;
  bret (cfg, (global_step, global_epoch_step)).

Definition mode_in_list (m : string) : bool :=
  existsb (String.eqb m) ["train"%string; "inference"%string].

(** The constructor after its assertion, on the lower-cased mode. *)
Definition build_graph (cfg : Config) (mode : string) : Build Seq2SeqModel :=
  ' (config, (global_step, global_epoch_step)) <~ init_config cfg ;;
  let ph := build_placeholders mode in
  enc <~ build_encoder config ph ;;
  dec <~ build_decoder config mode ph enc ;;
  opt <~ build_optimizer config mode dec ;;
  bret {| mode := mode;
          config := config;
          global_step := global_step;
          global_epoch_step := global_epoch_step;
          placeholders := ph;
          encoder := enc;
          decoder := dec;
          optimization := opt |}.

Definition Seq2SeqModel_init (cfg : Config) (mode : string) : Build Seq2SeqModel :=
  if mode_in_list (lower mode) then build_graph cfg (lower mode)
  else lift (raise AssertionError).

(** ** [train], [eval], [inference]

    One call of [sess.run]: the fetches are evaluated on the fed values,
    the variables of the session and the random samples [w] of this run;
    only the training op changes the session. *)

Definition run_ctx (sess : Session) (fd : feed_dict) (w : Noise) : RunCtx :=
  {| feed := fd; vars := sess_vars sess; noise := w |}.

Definition train (m : Seq2SeqModel) (sess : Session) (w : Noise)
    (encoder_inputs_v : IntMat) (encoder_inputs_length_v : IntVec)
    (decoder_inputs_v : IntMat) (decoder_inputs_length_v : IntVec)
  : result (R * Session) :=
  _ <- attr (decoder_inputs_length (placeholders m)) ;;
  let input_feed :=
    {| fd_encoder_inputs := Some encoder_inputs_v;
       fd_encoder_inputs_length := Some encoder_inputs_length_v;
       fd_decoder_inputs := Some decoder_inputs_v;
       fd_decoder_inputs_length := Some decoder_inputs_length_v;
       fd_keep_prob := Some (1 - dropout_rate (config m))%R |} in
  loss_t <- attr (loss (decoder m)) ;;
  train_op_t <- attr (train_op (optimization m)) ;;
  let ctx := run_ctx sess input_feed w in
  l <- loss_t ctx ;;
  sess' <- train_op_t ctx sess ;;
  ok (l, sess').

Definition eval (m : Seq2SeqModel) (sess : Session) (w : Noise)
    (encoder_inputs_v : IntMat) (encoder_inputs_length_v : IntVec)
    (decoder_inputs_v : IntMat) (decoder_inputs_length_v : IntVec)
  : result (R * Session) :=
  _ <- attr (decoder_inputs_length (placeholders m)) ;;
  let input_feed :=
    {| fd_encoder_inputs := Some encoder_inputs_v;
       fd_encoder_inputs_length := Some encoder_inputs_length_v;
       fd_decoder_inputs := Some decoder_inputs_v;
       fd_decoder_inputs_length := Some decoder_inputs_length_v;
       fd_keep_prob := Some 1%R |} in
  loss_t <- attr (loss (decoder m)) ;;
  l <- loss_t (run_ctx sess input_feed w) ;;
  ok (l, sess).

Definition inference (m : Seq2SeqModel) (sess : Session) (w : Noise)
    (encoder_inputs_v : IntMat) (encoder_inputs_length_v : IntVec)
  : result ((IntMat * Mat) * Session) :=
  let input_feed :=
    {| fd_encoder_inputs := Some encoder_inputs_v;
       fd_encoder_inputs_length := Some encoder_inputs_length_v;
       fd_decoder_inputs := None;
       fd_decoder_inputs_length := None;
       fd_keep_prob := Some 1%R |} in
  predicts_t <- attr (decoder_predicts (decoder m)) ;;
  scores_t <- attr (decoder_scores (decoder m)) ;;
  let ctx := run_ctx sess input_feed w in
  predicts <- predicts_t ctx ;;
  scores <- scores_t ctx ;;
  ok ((predicts, scores), sess).

(** ** Greedy decoding, step by step

    The inference decoder as the specification words it, on values: the
    cell is applied once per step to (input, state); its output is
    projected to logits by the shared projection and normalised by
    softmax; the prediction is the arg-max index and the score its
    probability; the embedding of the prediction is the next input.
    Step 0 starts from the embedded GO tokens and the initial state. *)
Definition project_logits (cfg : Config) (ctx : RunCtx) (output : Mat) : Mat :=
  map (dense_vec (vars ctx) "decoder/decoder_logits" (decoder_vocab_size cfg) true)
      output.

Definition greedy_choice (cfg : Config) (ctx : RunCtx) (output : Mat)
  : result (IntVec * Vec) :=
  let probabilities := map softmax (project_logits cfg ctx output) in
  predicts <- mapM tf_argmax probabilities ;;
  ok (predicts, map2 (fun p i => nth (Z.to_nat i) p 0%R) probabilities predicts).

Definition embed_tokens (cfg : Config) (ctx : RunCtx) (tokens : IntVec) : result Mat :=
  mapM (embedding_row (vars ctx) "decoder/embedding" (decoder_vocab_size cfg)
                      (embedding_size cfg)) tokens.

Fixpoint greedy_cell (cfg : Config) (cell : RNNCell) (batch : Tensor nat)
    (initial_state : Tensor StateV) (k : nat) (ctx : RunCtx)
  : result (Mat * StateV) :=
  match k with
  | O =>
      n <- batch ctx ;;
      x <- embed_tokens cfg ctx (ones_times n GO) ;;
      s <- initial_state ctx ;;
      cell_call cell "decoder" ctx 0 x s
  | S k' =>
      r <- greedy_cell cfg cell batch initial_state k' ctx ;;
      c <- greedy_choice cfg ctx (fst r) ;;
      x <- embed_tokens cfg ctx (fst c) ;;
      cell_call cell "decoder" ctx (S k') x (snd r)
  end.

(** The predictions and the scores of step [k]. *)
Definition greedy_step (cfg : Config) (cell : RNNCell) (batch : Tensor nat)
    (initial_state : Tensor StateV) (k : nat) (ctx : RunCtx)
  : result (IntVec * Vec) :=
  r <- greedy_cell cfg cell batch initial_state k ctx ;;
  greedy_choice cfg ctx (fst r).

(** What the loop state of [build_decoder] holds after [k] iterations,
    in terms of the greedy steps. *)
Definition loop_invariant (cfg : Config) (cells : list SingleCell)
    (batch : Tensor nat) (initial_state : Tensor StateV) (k : nat) (st : LoopState)
  : Prop :=
  exists hs,
    ls_state st = TTuple hs /\
    (forall ctx,
       (x <- ls_input st ctx ;;
        s <- eval_state (TTuple (firstn (length cells) hs)) ctx ;;
        cell_call (MultiRNNCell cells) "decoder" ctx k x s)
       = greedy_cell cfg (MultiRNNCell cells) batch initial_state k ctx) /\
    ls_predicts st
    = map (fun j ctx =>
             r <- greedy_step cfg (MultiRNNCell cells) batch initial_state j ctx ;;
             ok (fst r)) (seq 0 k) /\
    ls_scores st
    = map (fun j ctx =>
             r <- greedy_step cfg (MultiRNNCell cells) batch initial_state j ctx ;;
             ok (snd r)) (seq 0 k) /\
    length (ls_outputs st) = k /\
    length (ls_logits st) = k /\
    length (ls_probabilities st) = k.

(** ** Runs that differ in their random samples only

    Two run contexts agree when they have the same feeds, with
    keep-probability 1, and the same variables; their dropout samples,
    each in [0, 1), may differ.  A tensor is noise-free when it has the
    same value in any two such contexts. *)
Definition unit_noise (w : Noise) : Prop :=
  forall site t b i, (0 <= w site t b i < 1)%R.

Definition ctx_agree (ctx ctx' : RunCtx) : Prop :=
  feed ctx = feed ctx' /\ vars ctx = vars ctx' /\
  fd_keep_prob (feed ctx) = Some 1%R /\
  unit_noise (noise ctx) /\ unit_noise (noise ctx').

Definition noise_free {A} (t : Tensor A) : Prop :=
  forall ctx ctx', ctx_agree ctx ctx' -> t ctx = t ctx'.

Definition noise_free_state (s : StateT) : Prop :=
  match s with
  | TTensor h => noise_free h
  | TTuple hs => Forall noise_free hs
  end.

(** The cells that [build_single_cell] makes: every dropout wrapper reads
    the [keep_prob] placeholder. *)
Fixpoint model_cell (c : SingleCell) : Prop :=
  match c with
  | GRUCell _ _ => True
  | DropoutWrapper c' p => p = placeholder_scalar fd_keep_prob /\ model_cell c'
  end.

Definition model_rnn_cell (cell : RNNCell) : Prop :=
  match cell with
  | Single c => model_cell c
  | MultiRNNCell cells => Forall model_cell cells
  end.

(** ** The loss, example by example

    [sequence_loss] flattens batch and time.  Read by rows, the
    cross-entropies of one example are [crossent_row], and what the
    example adds to the numerator of the loss is the sum of its
    cross-entropies weighted by its row of the mask. *)
Definition crossent_row (targets_row : list Z) (logits_row : Mat) : result Vec :=
  mapM (fun p => sparse_softmax_cross_entropy (fst p) (snd p))
       (combine targets_row logits_row).

Fixpoint crossent_rows (targets : IntMat) (logits : Tensor3) : result Mat :=
  match targets, logits with
  | t :: targets', l :: logits' =>
      x <- crossent_row t l ;; xs <- crossent_rows targets' logits' ;; ok (x :: xs)
  | _, _ => ok []
  end.

Definition masked_sum (crossent mask : Vec) : R := Rsum (map2 Rmult crossent mask).

(** ** Shapes at run time

    An encoder batch that [inference] can be fed: a rectangular matrix of
    int32 token ids of the encoder vocabulary, with one int32 length per
    example; the bidirectional encoder reverses each example up to its
    length, which must then lie within the time axis. *)
Definition valid_encoder_batch (cfg : Config) (encoder_inputs_v : IntMat)
    (encoder_inputs_length_v : IntVec) : bool :=
  rectangular encoder_inputs_v
  && forallb (forallb (fun id => in_i32 id && (0 <=? id)
                                 && (id <? encoder_vocab_size cfg)))
             encoder_inputs_v
  && Nat.eqb (length encoder_inputs_length_v) (length encoder_inputs_v)
  && forallb in_i32 encoder_inputs_length_v
  && (negb (use_bidirectional cfg)
      || forallb (fun l => (0 <=? l) && (l <=? Z.of_nat (width encoder_inputs_v)))
                 encoder_inputs_length_v).

(** A state value with a tensor of [n] rows for every layer of the cell
    that reads it. *)
Definition state_fits (cell : RNNCell) (n : nat) (s : StateV) : Prop :=
  match cell, s with
  | Single _, STensor h => length h = n
  | MultiRNNCell cells, STuple hs =>
      (length cells <= length hs)%nat /\ Forall (fun h : Mat => length h = n) hs
  | _, _ => False
  end.

(** Tensors that evaluate, in [ctx], to [n] rows; for a rank-3 tensor,
    of [w] time steps each. *)
Definition rows_at (ctx : RunCtx) (n : nat) (t : Tensor Mat) : Prop :=
  exists v, t ctx = ok v /\ length v = n.

Definition shape3_at (ctx : RunCtx) (n w : nat) (t : Tensor Tensor3) : Prop :=
  exists v, t ctx = ok v /\ length v = n /\ Forall (fun row : Mat => length row = w) v.

Definition state_rows_at (ctx : RunCtx) (n : nat) (s : StateT) : Prop :=
  match s with
  | TTensor h => rows_at ctx n h
  | TTuple hs => Forall (rows_at ctx n) hs
  end.



(** ** The graph under construction

    Construction only ever adds variables to the graph; [adds P c] tells
    that the names of those that [c] adds satisfy [P]. *)
Definition adds {A} (P : string -> Prop) (c : Build A) : Prop :=
  forall g, exists added,
    snd (c g) = g ++ added /\ Forall (fun v : string * bool => P (fst v)) added.

Definition grows {A} (c : Build A) : Prop := adds (fun _ => True) c.

(** A graph in which no model has been built: no variable of it has a
    name under the scopes of the encoder and of the decoder. *)
Definition fresh_graph (g : Graph) : bool :=
  forallb (fun v => negb (String.prefix "encoder" (fst v))
                    && negb (String.prefix "decoder" (fst v))) g.

(** The sizes that TensorFlow wants positive. *)
Definition positive_sizes (cfg : Config) : bool :=
  (0 <? hidden_units cfg) && (0 <? embedding_size cfg)
  && (0 <? encoder_vocab_size cfg) && (0 <? decoder_vocab_size cfg).

(** The configurations from which the constructor builds a model of the
    given (lower-case) mode. *)
Definition buildable (cfg : Config) (mode : string) : bool :=
  (1 <=? decoder_depth cfg)
  && (use_bidirectional cfg || (1 <=? encoder_depth cfg))
  && (if String.eqb mode "train" then
        (decoder_depth cfg =? Z.max 1 (encoder_depth cfg))
        && String.eqb (lower (optimizer_type cfg)) "adam"
      else
        String.eqb mode "inference"
        && (decoder_depth cfg <=? Z.max 1 (encoder_depth cfg))
        && (1 <=? decoder_max_time_steps cfg)).

(** ** Padding of the encoder batch

    Two encoder batches that are the same up to the lengths: they have
    the same shape, and each example has the same tokens before its
    length. *)
Definition list_Z_eqb (a b : list Z) : bool :=
  if list_eq_dec Z.eq_dec a b then true else false.

Definition same_up_to_lengths (lens : IntVec) (E E' : IntMat) : bool :=
  Nat.eqb (length E) (length E')
  && forallb (fun p : Z * (list Z * list Z) =>
                Nat.eqb (length (fst (snd p))) (length (snd (snd p)))
                && list_Z_eqb (firstn (Z.to_nat (fst p)) (fst (snd p)))
                              (firstn (Z.to_nat (fst p)) (snd (snd p))))
             (combine lens (combine E E')).

(** Two batches of rows that agree on the rows that have not finished;
    two cell states, two results likewise. *)
Definition rows_agree (fin : list bool) (a b : Mat) : Prop :=
  length a = length b /\
  forall i, nth i fin true = false -> nth_error a i = nth_error b i.

Definition state_agree (fin : list bool) (s s' : StateV) : Prop :=
  match s, s' with
  | STensor a, STensor b => rows_agree fin a b
  | STuple la, STuple lb => Forall2 (rows_agree fin) la lb
  | _, _ => False
  end.

Definition same_kind (s s' : StateV) : Prop :=
  match s, s' with
  | STensor _, STensor _ => True
  | STuple _, STuple _ => True
  | _, _ => False
  end.

Definition agree_or_raise {A} (R : A -> A -> Prop) (r r' : result A) : Prop :=
  match r, r' with
  | inl e, inl e' => e = e'
  | inr a, inr a' => R a a'
  | _, _ => False
  end.

Fixpoint inputs_agree (lens : IntVec) (t : nat) (xs xs' : list Mat) : Prop :=
  match xs, xs' with
  | [], [] => True
  | x :: xs1, x' :: xs1' =>
      rows_agree (map (fun l => l <=? Z.of_nat t) lens) x x' /\
      inputs_agree lens (S t) xs1 xs1'
  | _, _ => False
  end.

(** Running an operation on the model that a construction returned. *)
Definition on_model {A} (r : result Seq2SeqModel * Graph)
    (f : Seq2SeqModel -> result A) : result A :=
  match fst r with
  | inr m => f m
  | inl e => inl e
  end.

(** * Properties *)

Unset Implicit Arguments.

(** ** The result and construction monads *)

Lemma bind_ok {A B} (c : result A) (k : A -> result B) (b : B) :
  bind c k = inr b -> exists a, c = inr a /\ k a = inr b.
Proof.
  destruct c as [e | a]; simpl; intros H; [discriminate | eauto].
Qed.

Lemma bbind_ok {A B} (c : Build A) (k : A -> Build B) g b g' :
  bbind c k g = (inr b, g') ->
  exists a g1, c g = (inr a, g1) /\ k a g1 = (inr b, g').
Proof.
  unfold bbind. destruct (c g) as [[e | a] g1]; intros H; [discriminate | eauto].
Qed.

Lemma bbind_raise {A B} (c : Build A) (k : A -> Build B) g e g' :
  c g = (inl e, g') -> bbind c k g = (inl e, g').
Proof. unfold bbind. intros ->. reflexivity. Qed.

Lemma bbind_step {A B} (c : Build A) (k : A -> Build B) g a g1 :
  c g = (inr a, g1) -> bbind c k g = k a g1.
Proof. unfold bbind. intros ->. reflexivity. Qed.

Lemma lift_ok {A} (r : result A) g a g' :
  lift r g = (inr a, g') -> r = inr a /\ g' = g.
Proof. unfold lift. intros H. inversion H. auto. Qed.

Lemma bret_ok {A} (x : A) g a g' :
  bret x g = (inr a, g') -> a = x /\ g' = g.
Proof. unfold bret, ok. intros H. inversion H. auto. Qed.

(** Inversion of a successful construction, one stage at a time. *)
Ltac binv H :=
  lazymatch type of H with
  | bbind _ _ _ = (inr _, _) =>
      let a := fresh "a" in
      let g := fresh "g" in
      let H1 := fresh "Hstage" in
      apply bbind_ok in H; destruct H as (a & g & H1 & H)
  | lift _ _ = (inr _, _) =>
      apply lift_ok in H; destruct H as [H ?]; subst
  | bret _ _ = (inr _, _) =>
      apply bret_ok in H; destruct H as [? ?]; subst
  end.

(** ** The mode string *)

Lemma lower_ascii_variant (a b : ascii) :
  is_upper b = false ->
  (lower_ascii a = b <-> Ascii.eqb a b || upper_of a b = true).
Proof.
  intros Hb. unfold lower_ascii, upper_of.
  destruct (is_upper a) eqn:Ha; simpl.
  - assert (Hne : Ascii.eqb a b = false).
    { apply Ascii.eqb_neq. intros ->. congruence. }
    rewrite Hne. simpl.
    unfold is_upper in Ha. apply andb_prop in Ha. destruct Ha as [_ Ha].
    apply Nat.leb_le in Ha.
    split.
    + intros <-. apply Nat.eqb_eq. rewrite nat_ascii_embedding; [reflexivity | lia].
    + intros H. apply Nat.eqb_eq in H. rewrite H. apply ascii_nat_embedding.
  - rewrite orb_false_r. split.
    + intros ->. apply Ascii.eqb_refl.
    + intros H. apply Ascii.eqb_eq. exact H.
Qed.

Lemma case_variant_lower (s w : string) :
  no_upper w = true -> (case_variant s w = true <-> lower s = w).
Proof.
  revert w. induction s as [| a s IH]; intros [| b w] Hw; simpl.
  - tauto.
  - split; discriminate.
  - split; discriminate.
  - simpl in Hw. apply andb_prop in Hw. destruct Hw as [Hb Hw].
    apply negb_true_iff in Hb.
    rewrite andb_true_iff, <- (lower_ascii_variant a b Hb), (IH w Hw).
    split.
    + intros [-> ->]. reflexivity.
    + intros H. inversion H. auto.
Qed.

Lemma mode_in_list_spec (m : string) :
  mode_in_list m = true <-> m = "train"%string \/ m = "inference"%string.
Proof.
  unfold mode_in_list. simpl. rewrite orb_false_r, orb_true_iff, !String.eqb_eq.
  split; intros [H | H]; auto.
Qed.

Lemma build_graph_ok (cfg : Config) (w : string) (g : Graph) m g' :
  build_graph cfg w g = (inr m, g') ->
  exists g1 enc g2 dec g3 opt,
    g1 = g ++ [("global_step"%string, false); ("global_epoch_step"%string, false)] /\
    build_encoder cfg (build_placeholders w) g1 = (inr enc, g2) /\
    build_decoder cfg w (build_placeholders w) enc g2 = (inr dec, g3) /\
    build_optimizer cfg w dec g3 = (inr opt, g') /\
    m = {| mode := w;
           config := cfg;
           global_step := "global_step";
           global_epoch_step := "global_epoch_step";
           placeholders := build_placeholders w;
           encoder := enc;
           decoder := dec;
           optimization := opt |}.
Proof.
  unfold build_graph. intros H.
  binv H. destruct a as [config [gs ges]].
  unfold init_config, tf_Variable, bbind, bret in Hstage. simpl in Hstage.
  inversion Hstage; subst; clear Hstage.
  do 3 binv H. binv H.
  rewrite <- app_assoc in Hstage. simpl in Hstage.
  do 6 eexists. repeat split; try eassumption; reflexivity.
Qed.

(** C10. The constructor accepts the mode up to capitalisation: on a
    capitalisation variant of 'train' or of 'inference' it builds the graph
    with that lower-case mode, and the model it returns, if any, carries
    it; on every other string it raises AssertionError and the graph is as
    it was, no variable having been created. *)
Theorem mode_accepted_up_to_case (cfg : Config) (md : string) (g : Graph) :
  Seq2SeqModel_init cfg md g
    = (if case_variant md "train" then build_graph cfg "train" g
       else if case_variant md "inference" then build_graph cfg "inference" g
       else (inl AssertionError, g))
  /\ match fst (Seq2SeqModel_init cfg md g) with
     | inr m => mode m = lower md
     | inl _ => True
     end.
Proof.
  split.
  - unfold Seq2SeqModel_init.
    destruct (case_variant md "train") eqn:Ht.
    { apply case_variant_lower in Ht; [| reflexivity]. rewrite Ht. reflexivity. }
    destruct (case_variant md "inference") eqn:Hi.
    { apply case_variant_lower in Hi; [| reflexivity]. rewrite Hi. reflexivity. }
    destruct (mode_in_list (lower md)) eqn:Hin; [| reflexivity].
    exfalso. apply mode_in_list_spec in Hin.
    destruct Hin as [Hin | Hin];
      apply case_variant_lower in Hin; try reflexivity; congruence.
  - destruct (Seq2SeqModel_init cfg md g) as [[e | m] g'] eqn:H; simpl; [exact I |].
    unfold Seq2SeqModel_init in H.
    destruct (mode_in_list (lower md)); [| discriminate H].
    apply build_graph_ok in H.
    destruct H as (g1 & enc & g2 & dec & g3 & opt & _ & _ & _ & _ & ->).
    reflexivity.
Qed.

Lemma Seq2SeqModel_init_ok (cfg : Config) (md : string) (g : Graph) m g' :
  Seq2SeqModel_init cfg md g = (inr m, g') ->
  (lower md = "train"%string \/ lower md = "inference"%string) /\
  build_graph cfg (lower md) g = (inr m, g').
Proof.
  unfold Seq2SeqModel_init. destruct (mode_in_list (lower md)) eqn:Hin.
  - intros H. split; [apply mode_in_list_spec |]; assumption.
  - unfold lift, raise. discriminate.
Qed.

(** ** The operations each mode builds *)

Lemma build_decoder_train (cfg : Config) ph enc g dec g' :
  build_decoder cfg "train" ph enc g = (inr dec, g') ->
  decoder_predicts dec = None /\ decoder_scores dec = None /\
  exists l, loss dec = Some l.
Proof.
  unfold build_decoder. intros H. do 2 binv H. simpl in H.
  do 2 binv H. binv H. destruct a3 as [outs st]. do 3 binv H. binv H.
  simpl. eauto.
Qed.

Lemma build_decoder_inference (cfg : Config) ph enc g dec g' :
  build_decoder cfg "inference" ph enc g = (inr dec, g') ->
  loss dec = None /\
  exists p s, decoder_predicts dec = Some p /\ decoder_scores dec = Some s.
Proof.
  unfold build_decoder. intros H. do 2 binv H. simpl in H.
  do 6 binv H. binv H. simpl. eauto.
Qed.

Lemma build_optimizer_inference (cfg : Config) dec g opt g' :
  build_optimizer cfg "inference" dec g = (inr opt, g') ->
  train_op opt = None.
Proof. unfold build_optimizer. simpl. intros H. binv H. reflexivity. Qed.

(** C9. The two modes build disjoint operations.  A model constructed in
    mode 'train' has no prediction and no score tensor, and [inference]
    on it always raises AttributeError; a model constructed in mode
    'inference' has no loss, no training op and no decoder-length
    placeholder, its decoder input is the constant GO column rather than
    a placeholder, and [train] and [eval] on it always raise
    AttributeError. *)
Theorem modes_build_disjoint_operations (cfg : Config) (md : string) (g : Graph)
    (m : Seq2SeqModel) (g' : Graph) :
  Seq2SeqModel_init cfg md g = (inr m, g') ->
  if String.eqb (lower md) "train" then
    decoder_predicts (decoder m) = None /\
    decoder_scores (decoder m) = None /\
    forall sess w e l, inference m sess w e l = inl AttributeError
  else
    loss (decoder m) = None /\
    train_op (optimization m) = None /\
    decoder_inputs_length (placeholders m) = None /\
    decoder_inputs (placeholders m)
      = (fun ctx => n <- batch_size (placeholders m) ctx ;; ok (ones_times_col n GO)) /\
    forall sess w e l d dl,
      train m sess w e l d dl = inl AttributeError /\
      eval m sess w e l d dl = inl AttributeError.
Proof.
  intros H. apply Seq2SeqModel_init_ok in H. destruct H as [Hmd H].
  apply build_graph_ok in H.
  destruct H as (g1 & enc & g2 & dec & g3 & opt & _ & _ & Hdec & Hopt & ->).
  destruct Hmd as [Hmd | Hmd]; rewrite Hmd in *; simpl.
  - apply build_decoder_train in Hdec. destruct Hdec as (Hp & Hs & _).
    repeat split; try assumption.
    intros. unfold inference. simpl. rewrite Hp. reflexivity.
  - apply build_decoder_inference in Hdec. destruct Hdec as (Hl & _).
    apply build_optimizer_inference in Hopt.
    repeat split; try assumption; unfold train, eval; reflexivity.
Qed.

(** ** The optimizer type *)

Lemma build_optimizer_not_adam (cfg : Config) (dec : Decoder) (g : Graph) l :
  lower (optimizer_type cfg) <> "adam"%string ->
  loss dec = Some l ->
  build_optimizer cfg "train" dec g = (inl AttributeError, g).
Proof.
  intros Hne Hl. unfold build_optimizer. simpl.
  apply String.eqb_neq in Hne. rewrite Hne, Hl. reflexivity.
Qed.

(** The stages of the constructor that come before [build_optimizer]. *)
Lemma build_graph_stages (cfg : Config) (w : string) (g : Graph) :
  build_graph cfg w g
  = match bbind (build_encoder cfg (build_placeholders w))
                (fun enc => build_decoder cfg w (build_placeholders w) enc)
            (g ++ [("global_step"%string, false);
                   ("global_epoch_step"%string, false)]) with
    | (inl e, g3) => (inl e, g3)
    | (inr dec, g3) =>
        match build_optimizer cfg w dec g3 with
        | (inl e, g4) => (inl e, g4)
        | (inr _, _) => build_graph cfg w g
        end
    end.
Proof.
  unfold build_graph, init_config, tf_Variable.
  unfold bbind at 1 2 3 8. simpl. rewrite <- app_assoc. simpl.
  unfold bbind.
  destruct (build_encoder cfg (build_placeholders w) _) as [[e | enc] g2];
    [reflexivity |].
  destruct (build_decoder cfg w (build_placeholders w) enc g2) as [[e | dec] g3];
    [reflexivity |].
  destruct (build_optimizer cfg w dec g3) as [[e | opt] g4]; reflexivity.
Qed.

(** C8, as the code has it.  A train-mode model whose optimizer type is
    not 'adam' up to the case of its letters is never constructed: the
    constructor raises.  It raises what the encoder or the decoder stage
    raises if one of them fails, and otherwise the AttributeError of
    [build_optimizer], which reads the optimizer attribute that no branch
    has set; the graph then holds what encoder and decoder created. *)
Theorem unknown_optimizer_fails_at_construction (cfg : Config) (md : string)
    (g : Graph) :
  lower md = "train"%string ->
  lower (optimizer_type cfg) <> "adam"%string ->
  Seq2SeqModel_init cfg md g
  = match bbind (build_encoder cfg (build_placeholders "train"))
                (fun enc => build_decoder cfg "train" (build_placeholders "train") enc)
            (g ++ [("global_step"%string, false);
                   ("global_epoch_step"%string, false)]) with
    | (inl e, g3) => (inl e, g3)
    | (inr dec, g3) => (inl AttributeError, g3)
    end.
Proof.
  intros Hmd Hne.
  unfold Seq2SeqModel_init. rewrite Hmd. simpl. rewrite build_graph_stages.
  destruct (bbind _ _ _) as [[e | dec] g3] eqn:Hst; [reflexivity |].
  binv Hst.
  destruct (build_decoder_train _ _ _ _ _ _ Hst) as (_ & _ & l & Hl).
  rewrite (build_optimizer_not_adam cfg dec g3 l Hne Hl). reflexivity.
Qed.

(** ** Teacher forcing: the shifted decoder sequences *)

Lemma concat_rows_prefix {A} (c : A) (d : list (list A)) :
  concat_rows (repeat [c] (length d)) d = map (cons c) d.
Proof. induction d as [| r d IH]; simpl; [| rewrite IH]; reflexivity. Qed.

Lemma concat_rows_suffix {A} (c : A) (d : list (list A)) :
  concat_rows d (repeat [c] (length d)) = map (fun r => r ++ [c]) d.
Proof. induction d as [| r d IH]; simpl; [| rewrite IH]; reflexivity. Qed.

Lemma add_i32_no_overflow (l : Z) :
  in_i32 l = true -> l < max_i32 -> add_i32 l 1 = l + 1.
Proof.
  unfold in_i32, add_i32, wrap_i32, min_i32, max_i32.
  intros H Hlt. apply andb_prop in H. destruct H as [H1 H2].
  apply Z.leb_le in H1. rewrite Z.mod_small; lia.
Qed.

(** Feeding int32 values changes nothing; whatever is fed, the values of
    a placeholder are int32. *)
Lemma feed_i32_id (z : Z) : in_i32 z = true -> feed_i32 z = ok z.
Proof.
  unfold in_i32, feed_i32, in_i64, wrap_i32, min_i32, max_i32, min_i64, max_i64.
  intros H. apply andb_prop in H. destruct H as [H1 H2].
  apply Z.leb_le in H1. apply Z.leb_le in H2.
  replace ((- 2 ^ 63 <=? z) && (z <=? 2 ^ 63 - 1)) with true
    by (symmetry; apply andb_true_iff; split; apply Z.leb_le; lia).
  rewrite Z.mod_small by lia. f_equal. lia.
Qed.

Lemma feed_i32_vec (v : IntVec) : forallb in_i32 v = true -> mapM feed_i32 v = ok v.
Proof.
  induction v as [| z v IH]; simpl; [reflexivity |].
  intros H. apply andb_prop in H. destruct H as [Hz Hv].
  rewrite (feed_i32_id z Hz), (IH Hv). reflexivity.
Qed.

Lemma feed_i32_mat (m : IntMat) :
  forallb (forallb in_i32) m = true -> mapM (mapM feed_i32) m = ok m.
Proof.
  induction m as [| r m IH]; simpl; [reflexivity |].
  intros H. apply andb_prop in H. destruct H as [Hr Hm].
  rewrite (feed_i32_vec r Hr), (IH Hm). reflexivity.
Qed.

Lemma placeholder_vec_fed get ctx (v : IntVec) :
  get (feed ctx) = Some v -> forallb in_i32 v = true ->
  placeholder_vec get ctx = ok v.
Proof.
  intros Hget Hv. unfold placeholder_vec. rewrite Hget. apply feed_i32_vec. exact Hv.
Qed.

Lemma placeholder_mat_fed get ctx (m : IntMat) :
  get (feed ctx) = Some m ->
  rectangular m = true -> forallb (forallb in_i32) m = true ->
  placeholder_mat get ctx = ok m.
Proof.
  intros Hget Hr Hm. unfold placeholder_mat. rewrite Hget, Hr.
  apply feed_i32_mat. exact Hm.
Qed.

Lemma feed_i32_in_i32 (z z' : Z) : feed_i32 z = ok z' -> in_i32 z' = true.
Proof.
  unfold feed_i32. destruct (in_i64 z); [| discriminate].
  intros H. injection H as <-.
  unfold in_i32, wrap_i32, min_i32, max_i32.
  pose proof (Z.mod_pos_bound (z + 2 ^ 31) (2 ^ 32)) as Hb.
  apply andb_true_iff. split; apply Z.leb_le; lia.
Qed.

Lemma placeholder_vec_in_i32 get ctx (L : IntVec) :
  placeholder_vec get ctx = ok L -> forallb in_i32 L = true.
Proof.
  unfold placeholder_vec. destruct (get (feed ctx)) as [v |]; [| discriminate].
  revert L. induction v as [| z v IH]; intros L H; simpl in H.
  - injection H as <-. reflexivity.
  - apply bind_ok in H. destruct H as (z' & Hz & H).
    apply bind_ok in H. destruct H as (L' & Hv & H). injection H as <-.
    simpl. rewrite (feed_i32_in_i32 z z' Hz), (IH L' Hv). reflexivity.
Qed.

Lemma Seq2SeqModel_init_placeholders (cfg : Config) (md : string) (g : Graph)
    m g' :
  Seq2SeqModel_init cfg md g = (inr m, g') ->
  placeholders m = build_placeholders (lower md).
Proof.
  intros H. apply Seq2SeqModel_init_ok in H. destruct H as [_ H].
  apply build_graph_ok in H.
  destruct H as (g1 & enc & g2 & dec & g3 & opt & _ & _ & _ & _ & ->).
  reflexivity.
Qed.

(** What the shifted tensors of [build_placeholders] evaluate to. *)
Lemma train_placeholders_eval (ctx : RunCtx) (E D : IntMat) (L : IntVec) :
  let ph := build_placeholders "train" in
  encoder_inputs ph ctx = ok E ->
  decoder_inputs ph ctx = ok D ->
  fetch (decoder_inputs_length ph) ctx = ok L ->
  length E = length D ->
  Forall (fun l => l < max_i32) L ->
  fetch (decoder_inputs_train ph) ctx = ok (map (cons GO) D) /\
  fetch (decoder_targets_train ph) ctx = ok (map (fun row => row ++ [EOS]) D) /\
  fetch (decoder_inputs_train_length ph) ctx = ok (map (fun l => l + 1) L) /\
  fetch (decoder_targets_train_length ph) ctx = ok (map (fun l => l + 1) L).
Proof.
  unfold fetch. simpl. intros HE HD HL Hlen Hlt.
  rewrite HE, HD, HL. simpl. unfold tf_concat_last, ones_times_col.
  rewrite !repeat_length, Hlen, Nat.eqb_refl.
  rewrite concat_rows_prefix, concat_rows_suffix.
  assert (Hsum : tf_add_scalar L 1 = map (fun l => l + 1) L).
  { apply placeholder_vec_in_i32 in HL.
    rewrite forallb_forall in HL. rewrite Forall_forall in Hlt.
    apply map_ext_in. intros l Hl. apply add_i32_no_overflow; auto. }
  rewrite Hsum. repeat split; reflexivity.
Qed.

(** C1. In a model constructed in mode 'train', for a run in which the
    encoder and decoder batches fed have the same number of examples and
    no fed length is the greatest int32: the decoder input of training is
    the fed decoder matrix with a GO column put in front, the target is
    the fed matrix with an EOS column put behind, and both length vectors
    are the fed decoder lengths plus one. *)
Theorem teacher_forcing_shifts (cfg : Config) (md : string) (g : Graph)
    (m : Seq2SeqModel) (g' : Graph) (ctx : RunCtx) (E D : IntMat) (L : IntVec) :
  Seq2SeqModel_init cfg md g = (inr m, g') ->
  lower md = "train"%string ->
  encoder_inputs (placeholders m) ctx = ok E ->
  decoder_inputs (placeholders m) ctx = ok D ->
  fetch (decoder_inputs_length (placeholders m)) ctx = ok L ->
  length E = length D ->
  Forall (fun l => l < max_i32) L ->
  fetch (decoder_inputs_train (placeholders m)) ctx = ok (map (cons GO) D) /\
  fetch (decoder_targets_train (placeholders m)) ctx
    = ok (map (fun row => row ++ [EOS]) D) /\
  fetch (decoder_inputs_train_length (placeholders m)) ctx
    = ok (map (fun l => l + 1) L) /\
  fetch (decoder_targets_train_length (placeholders m)) ctx
    = ok (map (fun l => l + 1) L).
Proof.
  intros H Hmd. apply Seq2SeqModel_init_placeholders in H.
  rewrite H, Hmd. apply train_placeholders_eval.
Qed.

(** ** The final state of the bidirectional encoder *)

Lemma tf_dynamic_rnn_fresh (cell : RNNCell) (scope : string) inputs lens :
  exists outputs (run : Tensor (Tensor3 * StateV)),
    tf_dynamic_rnn cell scope None inputs lens
    = ok (outputs,
          match cell with
          | Single _ => TTensor (state_tensor run)
          | MultiRNNCell cells =>
              TTuple (map (state_component run) (seq 0 (length cells)))
          end).
Proof. unfold tf_dynamic_rnn. simpl. eauto. Qed.

Lemma build_encoder_cell_ok (cfg : Config) ph (d : Z) cell :
  build_encoder_cell cfg ph (Some d) = ok cell ->
  d <> 0 ->
  exists cells, cell = MultiRNNCell cells /\ length cells = Z.to_nat d.
Proof.
  unfold build_encoder_cell, new_MultiRNNCell, depth_or, range.
  intros H Hd. apply Z.eqb_neq in Hd. rewrite Hd in H.
  destruct (map _ _) as [| c cs] eqn:Hcells; [discriminate |].
  inversion H. eexists. split; [reflexivity |].
  rewrite <- Hcells, length_map, length_seq. reflexivity.
Qed.

Lemma tf_get_variable_ok (name : string) g a g' :
  tf_get_variable name g = (inr a, g') -> a = name.
Proof.
  unfold tf_get_variable. destruct (has_variable g name); intros H;
    inversion H; reflexivity.
Qed.

Lemma dynamic_rnn_ok cell scope init inputs lens g r g' :
  dynamic_rnn cell scope init inputs lens g = (inr r, g') ->
  tf_dynamic_rnn cell scope init inputs lens = ok r.
Proof.
  unfold dynamic_rnn. intros H. do 2 binv H. binv H. binv Hstage. exact Hstage.
Qed.

Lemma bidirectional_dynamic_rnn_ok cell_fw cell_bw scope inputs lens g r g' :
  bidirectional_dynamic_rnn cell_fw cell_bw scope inputs lens g = (inr r, g') ->
  tf_bidirectional_dynamic_rnn cell_fw cell_bw scope inputs lens = ok r /\
  exists fw bw, snd r = (TTensor fw, TTensor bw).
Proof.
  unfold bidirectional_dynamic_rnn. intros H. do 3 binv H. binv H. binv Hstage.
  split; [exact Hstage |].
  unfold tf_bidirectional_dynamic_rnn, tf_dynamic_rnn in Hstage. simpl in Hstage.
  inversion Hstage. simpl. eauto.
Qed.

(** C5. With [use_bidirectional], the final state of the encoder is a
    tuple that starts with the final state of the forward cell of the
    bidirectional layer: alone when [encoder_depth] is 1 (or less);
    followed by the state tensor of the single upper cell when it is 2;
    followed by the [encoder_depth - 1] state tensors of the upper stack
    when it is greater. *)
Theorem bidirectional_final_state (cfg : Config) (ph : Placeholders) (g : Graph)
    (enc : Encoder) (g' : Graph) :
  use_bidirectional cfg = true ->
  build_encoder cfg ph g = (inr enc, g') ->
  exists fw_outputs bw_outputs fw bw,
    tf_bidirectional_dynamic_rnn (build_single_cell cfg ph) (build_single_cell cfg ph)
      "encoder" (encoder_inputs_embedded_dense enc) (encoder_inputs_length ph)
    = ok ((fw_outputs, bw_outputs), (TTensor fw, bw)) /\
    let bi_outputs :=
      tf_layers_dense3 "encoder/dense" (hidden_units cfg) false
                       (tf_concat_last3 fw_outputs bw_outputs) in
    if encoder_depth cfg <=? 1 then
      encoder_last_state enc = TTuple [fw]
    else if encoder_depth cfg =? 2 then
      exists upper_outputs upper,
        tf_dynamic_rnn (Single (build_single_cell cfg ph)) "encoder" None bi_outputs
                       (encoder_inputs_length ph)
        = ok (upper_outputs, TTensor upper) /\
        encoder_last_state enc = TTuple [fw; upper]
    else
      exists upper_cells upper_outputs upper,
        build_encoder_cell cfg ph (Some (encoder_depth cfg - 1))
        = ok (MultiRNNCell upper_cells) /\
        length upper_cells = Z.to_nat (encoder_depth cfg - 1) /\
        tf_dynamic_rnn (MultiRNNCell upper_cells) "encoder" None bi_outputs
                       (encoder_inputs_length ph)
        = ok (upper_outputs, TTuple upper) /\
        length upper = Z.to_nat (encoder_depth cfg - 1) /\
        encoder_last_state enc = TTuple (fw :: upper).
Proof.
  intros Hbi H. unfold build_encoder in H. rewrite Hbi in H.
  do 2 binv H. binv H. destruct a1 as [[fw_outputs bw_outputs] [fw_state bw_state]].
  apply tf_get_variable_ok in Hstage. subst a.
  apply bidirectional_dynamic_rnn_ok in Hstage1.
  destruct Hstage1 as (Hbidi & fw & bw & Hst). simpl in Hst.
  inversion Hst; subst fw_state bw_state; clear Hst.
  do 2 binv H. binv Hstage1. simpl in H.
  exists fw_outputs, bw_outputs, fw, (TTensor bw).
  destruct (2 <? encoder_depth cfg) eqn:Hgt.
  - (* depth > 2: the upper stack *)
    apply Z.ltb_lt in Hgt.
    apply bind_ok in Hstage1. destruct Hstage1 as (cell & Hcell & Hsome).
    inversion Hsome; subst a1; clear Hsome.
    destruct (build_encoder_cell_ok _ _ _ _ Hcell) as (cells & -> & Hlen); [lia |].
    binv H.
    apply dynamic_rnn_ok in Hstage1.
    destruct (tf_dynamic_rnn_fresh (MultiRNNCell cells) "encoder"
                (tf_layers_dense3 (scoped "encoder" "dense") (hidden_units cfg) false
                   (tf_concat_last3 fw_outputs bw_outputs))
                (encoder_inputs_length ph)) as (outs & run & Hrun).
    rewrite Hrun in Hstage1. inversion Hstage1; subst; clear Hstage1.
    do 2 binv H. binv H.
    assert (Hne : (encoder_depth cfg =? 2) = false) by (apply Z.eqb_neq; lia).
    rewrite Hne in Hstage2. inversion Hstage1; subst; clear Hstage1.
    inversion Hstage2; subst; clear Hstage2.
    simpl. split; [exact Hbidi |].
    assert (Hle : (encoder_depth cfg <=? 1) = false) by (apply Z.leb_gt; lia).
    rewrite Hle, Hne.
    exists cells, outs, (map (state_component run) (seq 0 (length cells))).
    repeat split; try assumption.
    rewrite length_map, length_seq. exact Hlen.
  - apply Z.ltb_ge in Hgt.
    destruct (encoder_depth cfg =? 2) eqn:Heq.
    + (* depth = 2: one upper cell *)
      inversion Hstage1; subst a1; clear Hstage1.
      binv H.
      apply dynamic_rnn_ok in Hstage1.
      destruct (tf_dynamic_rnn_fresh (Single (build_single_cell cfg ph)) "encoder"
                  (tf_layers_dense3 (scoped "encoder" "dense") (hidden_units cfg) false
                     (tf_concat_last3 fw_outputs bw_outputs))
                  (encoder_inputs_length ph)) as (outs & run & Hrun).
      rewrite Hrun in Hstage1. inversion Hstage1; subst; clear Hstage1.
      do 2 binv H. binv H.
      inversion Hstage1; subst; clear Hstage1.
      inversion Hstage2; subst; clear Hstage2.
      simpl. split; [exact Hbidi |].
      apply Z.eqb_eq in Heq.
      assert (Hle : (encoder_depth cfg <=? 1) = false) by (apply Z.leb_gt; lia).
      rewrite Hle. exists outs, (state_tensor run). split; [exact Hrun | reflexivity].
    + (* depth < 2: no upper cell *)
      inversion Hstage1; subst a1; clear Hstage1.
      binv H. binv H. inversion Hstage1; subst; clear Hstage1.
      simpl. split; [exact Hbidi |].
      apply Z.eqb_neq in Heq.
      assert (Hle : (encoder_depth cfg <=? 1) = true) by (apply Z.leb_le; lia).
      rewrite Hle. reflexivity.
Qed.

(** ** Clipping the gradients by their global norm *)

Section Clipping.
Local Open Scope R_scope.








End Clipping.

Lemma build_optimizer_train (cfg : Config) (dec : Decoder) (g : Graph) opt g' :
  build_optimizer cfg "train" dec g = (inr opt, g') ->
  exists l,
    loss dec = Some l /\
    trainable_verbs opt = Some (trainable_variables g) /\
    gradients opt
      = Some (fun ctx =>
                _ <- l ctx ;;
                ok (tf_gradients (fun vs => l (with_vars ctx vs))
                                 (trainable_variables g) (vars ctx))) /\
    clip_gradients opt
      = Some (fun ctx =>
                gs <- fetch (gradients opt) ctx ;;
                ok (fst (tf_clip_by_global_norm gs (max_gradient_norm cfg)))) /\
    train_op opt
      = Some (fun ctx sess =>
                gs <- fetch (clip_gradients opt) ctx ;;
                ok {| sess_vars :=
                        adam_update (learning_rate cfg)
                                    (combine gs (trainable_variables g))
                                    (sess_vars sess);
                      sess_global_step := add_i32 (sess_global_step sess) 1;
                      sess_global_epoch_step := sess_global_epoch_step sess |}).
Proof.
  unfold build_optimizer. simpl. intros H.
  do 4 binv H. binv H. unfold get_graph in Hstage. inversion Hstage; subst.
  binv Hstage0. binv Hstage1.
  destruct (String.eqb (lower (optimizer_type cfg)) "adam"); [| discriminate].
  inversion Hstage1; subst. simpl.
  destruct (loss dec) as [l |]; [| discriminate]. inversion Hstage0; subst.
  exists a0. repeat split; reflexivity.
Qed.


(** ** The loss mask *)

Section Masking.
Local Open Scope R_scope.

Lemma masked_sum_from (len : Z) (x : Vec) (s : nat) :
  Rsum (map2 Rmult x
          (map (fun j => if (Z.of_nat j <? len)%Z then 1 else 0) (seq s (length x))))
  = Rsum (firstn (Z.to_nat len - s) x).
Proof.
  revert s. induction x as [| a x IH]; intros s; simpl.
  - rewrite firstn_nil. reflexivity.
  - unfold map2 in *. simpl. rewrite IH.
    destruct (Z.ltb_spec (Z.of_nat s) len) as [Hlt | Hge].
    + replace (Z.to_nat len - s)%nat with (S (Z.to_nat len - S s)) by lia.
      simpl. lra.
    + replace (Z.to_nat len - s)%nat with O by lia.
      replace (Z.to_nat len - S s)%nat with O by lia. simpl. lra.
Qed.

(** The weighted sum of a row keeps the cross-entropies below the length. *)
Lemma masked_sum_firstn (len : Z) (x : Vec) :
  masked_sum x (sequence_mask_row (length x) len) = Rsum (firstn (Z.to_nat len) x).
Proof.
  unfold masked_sum, sequence_mask_row. rewrite masked_sum_from.
  rewrite Nat.sub_0_r. reflexivity.
Qed.

Lemma sequence_mask_row_nth (n : nat) (len : Z) (j : nat) :
  (j < n)%nat ->
  nth j (sequence_mask_row n len) 0 = if (Z.of_nat j <? len)%Z then 1 else 0.
Proof.
  intros Hj. unfold sequence_mask_row.
  set (f := fun j : nat => if (Z.of_nat j <? len)%Z then 1 else 0).
  rewrite (nth_indep _ 0 (f O)) by (rewrite length_map, length_seq; exact Hj).
  rewrite (map_nth f), seq_nth by exact Hj. reflexivity.
Qed.

Lemma map2_app {A B C} (f : A -> B -> C) (a1 a2 : list A) (b1 b2 : list B) :
  length a1 = length b1 ->
  map2 f (a1 ++ a2) (b1 ++ b2) = map2 f a1 b1 ++ map2 f a2 b2.
Proof.
  revert b1. unfold map2.
  induction a1 as [| x a1 IH]; intros [| y b1] Hlen; simpl in *;
    try discriminate; [reflexivity |].
  rewrite IH by lia. reflexivity.
Qed.

Lemma Rsum_app (a b : Vec) : Rsum (a ++ b) = Rsum a + Rsum b.
Proof. induction a as [| x a IH]; simpl; [| rewrite IH]; lra. Qed.

(** The flattened weighted sum is the sum of the rows' weighted sums. *)
Lemma Rsum_concat_rows (X M : Mat) :
  Forall2 (fun x w => length x = length w) X M ->
  Rsum (map2 Rmult (concat X) (concat M)) = Rsum (map2 masked_sum X M).
Proof.
  induction 1 as [| x w X M Hxw _ IH]; [reflexivity |].
  simpl. rewrite map2_app by exact Hxw. rewrite Rsum_app, IH.
  reflexivity.
Qed.

(** Padding appended to a row past its length, with the mask widened to
    match, leaves the weighted sum of the row as it was. *)
Lemma masked_sum_padding (len : Z) (x pad : Vec) :
  (Z.to_nat len <= length x)%nat ->
  masked_sum (x ++ pad) (sequence_mask_row (length (x ++ pad)) len)
  = masked_sum x (sequence_mask_row (length x) len).
Proof.
  intros Hlen. rewrite !masked_sum_firstn.
  rewrite firstn_app.
  replace (Z.to_nat len - length x)%nat with O by lia.
  simpl. rewrite app_nil_r. reflexivity.
Qed.

End Masking.

(** ** Shapes of the training decoder *)

Lemma mapM_Forall2 {A B} (f : A -> result B) (l : list A) (l' : list B) :
  mapM f l = ok l' -> Forall2 (fun a b => f a = ok b) l l'.
Proof.
  revert l'. induction l as [| a l IH]; intros l' H; simpl in H.
  - inversion H. constructor.
  - apply bind_ok in H. destruct H as (b & Hb & H).
    apply bind_ok in H. destruct H as (bs & Hbs & H).
    inversion H. constructor; auto.
Qed.

Lemma mapM_length {A B} (f : A -> result B) (l : list A) (l' : list B) :
  mapM f l = ok l' -> length l' = length l.
Proof.
  intros H. apply mapM_Forall2 in H. symmetry. eapply Forall2_length. exact H.
Qed.

Lemma mapM_app {A B} (f : A -> result B) (l1 l2 : list A) (l' : list B) :
  mapM f (l1 ++ l2) = ok l' ->
  exists l1' l2', mapM f l1 = ok l1' /\ mapM f l2 = ok l2' /\ l' = l1' ++ l2'.
Proof.
  revert l'. induction l1 as [| a l1 IH]; intros l' H; simpl in *.
  - exists [], l'. auto.
  - apply bind_ok in H. destruct H as (b & Hb & H).
    apply bind_ok in H. destruct H as (bs & Hbs & H). inversion H; subst.
    destruct (IH _ Hbs) as (l1' & l2' & H1 & H2 & ->).
    exists (b :: l1'), l2'. rewrite Hb, H1. simpl. auto.
Qed.

Lemma width_rows {A} (m : list (list A)) :
  rectangular m = true -> Forall (fun r => length r = width m) m.
Proof.
  unfold rectangular. rewrite forallb_forall, Forall_forall.
  intros H r Hr. apply Nat.eqb_eq. apply H. exact Hr.
Qed.

Lemma mapM_rows_length {A B} (f : A -> result B) (m : list (list A)) m' :
  mapM (mapM f) m = ok m' -> map (@length B) m' = map (@length A) m.
Proof.
  revert m'. induction m as [| r m IH]; intros m' H; simpl in H.
  - injection H as <-. reflexivity.
  - apply bind_ok in H. destruct H as (r' & Hr & H).
    apply bind_ok in H. destruct H as (m0 & Hm & H). injection H as <-.
    simpl. rewrite (IH m0 Hm). f_equal. eapply mapM_length. exact Hr.
Qed.

Lemma rectangular_lengths {A B} (m : list (list A)) (m' : list (list B)) :
  map (@length B) m' = map (@length A) m ->
  rectangular m = true -> rectangular m' = true.
Proof.
  intros Hlen Hr. unfold rectangular in *.
  assert (Hw : width m' = width m).
  { destruct m as [| r m], m' as [| r' m']; simpl in *; congruence. }
  rewrite Hw. rewrite forallb_forall in *. intros r' Hr'.
  apply Nat.eqb_eq.
  assert (Hin : In (length r') (map (@length A) m)).
  { rewrite <- Hlen. apply in_map. exact Hr'. }
  apply in_map_iff in Hin. destruct Hin as (r & Heq & Hin).
  rewrite <- Heq. apply Nat.eqb_eq. apply Hr. exact Hin.
Qed.

Lemma placeholder_mat_rectangular get ctx (m : IntMat) :
  placeholder_mat get ctx = ok m -> rectangular m = true.
Proof.
  unfold placeholder_mat. destruct (get (feed ctx)) as [v |]; [| discriminate].
  destruct (rectangular v) eqn:Hr; simpl; [| discriminate].
  intros H. eapply rectangular_lengths; [| exact Hr].
  eapply mapM_rows_length. exact H.
Qed.

Lemma embedding_lookup_mat_shape name vocab emb (ids : Tensor IntMat) ctx x :
  embedding_lookup_mat name vocab emb ids ctx = ok x ->
  exists m, ids ctx = ok m /\ Forall2 (fun mr xr => length xr = length mr) m x.
Proof.
  unfold embedding_lookup_mat. intros H. apply bind_ok in H.
  destruct H as (m & Hm & H). exists m. split; [exact Hm |].
  apply mapM_Forall2 in H. eapply Forall2_impl; [| exact H].
  intros mr xr Hr. eapply mapM_length. exact Hr.
Qed.

Lemma rnn_loop_length step lens t xs s os sf :
  rnn_loop step lens t xs s = ok (os, sf) -> length os = length xs.
Proof.
  revert t s os sf. induction xs as [| x xs IH]; intros t s os sf H; simpl in H.
  - inversion H. reflexivity.
  - apply bind_ok in H. destruct H as ([o s'] & _ & H).
    apply bind_ok in H. destruct H as ([os' sf'] & Hrest & H).
    inversion H; subst. simpl. f_equal. eapply IH. exact Hrest.
Qed.

Lemma batch_major_shape (batch : nat) (os : list Mat) :
  length (batch_major batch os) = batch /\
  Forall (fun row => length row = length os) (batch_major batch os).
Proof.
  unfold batch_major. split.
  - rewrite length_map, length_seq. reflexivity.
  - apply Forall_forall. intros row Hrow. apply in_map_iff in Hrow.
    destruct Hrow as (b & <- & _). apply length_map.
Qed.

(** The outputs of [dynamic_rnn] have the batch size and the number of
    time steps of its inputs. *)
Lemma tf_dynamic_rnn_outputs_shape cell scope init inputs lens outs st ctx o :
  tf_dynamic_rnn cell scope init inputs lens = ok (outs, st) ->
  outs ctx = ok o ->
  exists x l, inputs ctx = ok x /\ lens ctx = ok l /\ length l = length x /\
              length o = length x /\ Forall (fun row => length row = width x) o.
Proof.
  unfold tf_dynamic_rnn. intros H Ho.
  apply bind_ok in H. destruct H as (_ & _ & H). inversion H; subst; clear H.
  apply bind_ok in Ho. destruct Ho as (x0 & _ & Ho).
  apply bind_ok in Ho. destruct Ho as ([o' sf] & Hrun & Ho).
  unfold stack_outputs in Ho.
  destruct (Nat.eqb (width x0) 0); [discriminate |]. inversion Ho; subst.
  apply bind_ok in Hrun. destruct Hrun as (x & Hx & Hrun).
  apply bind_ok in Hrun. destruct Hrun as (l & Hl & Hrun).
  apply bind_ok in Hrun. destruct Hrun as (s0 & _ & Hrun).
  unfold dynamic_rnn_run in Hrun.
  destruct (Nat.eqb (length l) (length x)) eqn:Hlen; [| discriminate].
  apply Nat.eqb_eq in Hlen.
  apply bind_ok in Hrun. destruct Hrun as ([os sf'] & Hloop & Hrun).
  inversion Hrun; subst. apply rnn_loop_length in Hloop.
  exists x, l. split; [exact Hx |]. split; [exact Hl |]. split; [exact Hlen |].
  destruct (batch_major_shape (length x) os) as [Hb Hrows].
  split; [exact Hb |]. simpl.
  unfold time_major in Hloop. rewrite length_map, length_seq in Hloop.
  rewrite <- Hloop. exact Hrows.
Qed.

Lemma crossent_row_length (t : list Z) (l : Mat) (x : Vec) :
  crossent_row t l = ok x -> length t = length l -> length x = length t.
Proof.
  unfold crossent_row. intros H Hlen. apply mapM_length in H.
  rewrite H, length_combine. lia.
Qed.

(** Read by rows, the flattened cross-entropies are those of the rows. *)
Lemma flat_crossent_rows (targets : IntMat) (logits : Tensor3) (flat : Vec) :
  Forall2 (fun t l => length t = length l) targets logits ->
  flat_crossent logits targets = ok flat ->
  exists X, crossent_rows targets logits = ok X /\ concat X = flat /\
            Forall2 (fun x t => length x = length t) X targets.
Proof.
  unfold flat_crossent. intros Hshape H.
  destruct (Nat.eqb _ _); [| discriminate].
  revert flat H. induction Hshape as [| t l T Lg Htl _ IH]; intros flat H.
  - simpl in H. inversion H. exists []. repeat split; constructor.
  - simpl in H.
    assert (Hcomb : combine (t ++ concat T) (l ++ concat Lg)
                    = combine t l ++ combine (concat T) (concat Lg)).
    { clear -Htl. revert l Htl. induction t as [| a t IHt]; intros [| b l] Htl;
        simpl in *; try discriminate; [reflexivity |].
      rewrite IHt by lia. reflexivity. }
    rewrite Hcomb in H. apply mapM_app in H.
    destruct H as (x & rest & Hx & Hrest & ->).
    destruct (IH _ Hrest) as (X & HX & Hcat & Hlen).
    exists (x :: X). simpl. unfold crossent_row at 1. rewrite Hx, HX. simpl.
    repeat split.
    + rewrite Hcat. reflexivity.
    + constructor; [| exact Hlen]. apply (crossent_row_length t l x Hx Htl).
Qed.

Lemma tf_reduce_max_int_ge (L : IntVec) (l : Z) :
  In l L -> l <= tf_reduce_max_int L.
Proof.
  unfold tf_reduce_max_int. induction L as [| a L IH]; simpl; [tauto |].
  intros [-> | H]; [lia |]. specialize (IH H). lia.
Qed.

Lemma tf_reduce_max_int_succ (L : IntVec) :
  L <> [] ->
  Forall (fun l => min_i32 <= l) L ->
  tf_reduce_max_int (map (fun l => l + 1) L) = tf_reduce_max_int L + 1.
Proof.
  unfold tf_reduce_max_int. induction L as [| a L IH]; [congruence |].
  intros _ Hmin. inversion Hmin as [| ? ? Ha HL]; subst. simpl.
  destruct L as [| b L].
  - simpl. lia.
  - rewrite IH by (discriminate || assumption). lia.
Qed.

Lemma build_decoder_train_inv (cfg : Config) (enc : Encoder) (g : Graph) dec g' :
  let ph := build_placeholders "train" in
  build_decoder cfg "train" ph enc g = (inr dec, g') ->
  exists cell st,
    build_decoder_cell cfg ph None = ok cell /\
    tf_dynamic_rnn cell "decoder" (Some (encoder_last_state enc))
      (embedding_lookup_mat (scoped "decoder" "embedding") (decoder_vocab_size cfg)
                            (embedding_size cfg) (fetch (decoder_inputs_train ph)))
      (fetch (decoder_inputs_train_length ph))
    = ok (decoder_outputs dec, st) /\
    decoder_logits dec
    = tf_layers_dense3 (scoped "decoder" "decoder_logits") (decoder_vocab_size cfg)
                       true (decoder_outputs dec) /\
    decoder_masks dec
    = Some (fun ctx =>
              lengths <- fetch (decoder_inputs_train_length ph) ctx ;;
              tl <- fetch (decoder_targets_train_length ph) ctx ;;
              tf_sequence_mask lengths (tf_reduce_max_int tl)) /\
    loss dec
    = Some (fun ctx =>
              logits <- decoder_logits dec ctx ;;
              targets <- fetch (decoder_targets_train ph) ctx ;;
              weights <- fetch (decoder_masks dec) ctx ;;
              sequence_loss logits targets weights).
Proof.
  intros ph. unfold build_decoder. intros H. do 2 binv H. simpl in H.
  apply tf_get_variable_ok in Hstage0. subst.
  do 2 binv H. binv H. destruct a2 as [outs st]. do 3 binv H. binv H.
  binv Hstage0. binv Hstage1. binv Hstage4. binv Hstage5.
  apply dynamic_rnn_ok in Hstage2.
  inversion Hstage0; inversion Hstage1; inversion Hstage4; inversion Hstage5; subst.
  binv Hstage. exists a, st. simpl. repeat split; try reflexivity; assumption.
Qed.

(** [fetch] of an attribute known to be present. *)
Ltac fetch_some :=
  match goal with
  | |- context [fetch (Some ?t) ?c] => change (fetch (Some t) c) with (t c); cbv beta
  end.

Ltac fetch_some_in H :=
  match type of H with
  | context [fetch (Some ?t) ?c] =>
      change (fetch (Some t) c) with (t c) in H; cbv beta in H
  end.

Lemma Forall2_of_lengths {A B} (n : nat) (a : list (list A)) (b : list (list B)) :
  length a = length b ->
  Forall (fun r => length r = n) a ->
  Forall (fun r => length r = n) b ->
  Forall2 (fun x y => length x = length y) a b.
Proof.
  revert b. induction a as [| x a IH]; intros [| y b] Hlen Ha Hb;
    simpl in Hlen; try discriminate; constructor.
  - inversion Ha; inversion Hb; subst. congruence.
  - inversion Ha; inversion Hb; subst. apply IH; auto.
Qed.

Lemma concat_length_rows {A B} (a : list (list A)) (b : list (list B)) :
  Forall2 (fun x y => length x = length y) a b ->
  length (concat a) = length (concat b).
Proof.
  induction 1 as [| x y a b Hxy _ IH]; [reflexivity |].
  simpl. rewrite !length_app. congruence.
Qed.

(** X12. The loss of a batch padded to its longest example.  In a
    train-mode model, for a batch whose decoder matrix has as many
    columns as the greatest fed length, whenever the loss evaluates: the
    weights are the sequence mask of the lengths plus one, of width the
    number of columns plus one; the loss is the sum over the examples of
    their weighted cross-entropy sums against the targets
    [row ++ [EOS]], divided by the total weight plus 1e-12; and the
    weighted sum of an example is the sum of its cross-entropies at the
    positions below [decoder_inputs_length + 1]. *)
Theorem loss_is_masked_average (cfg : Config) (md : string) (g : Graph)
    (m : Seq2SeqModel) (g' : Graph) (ctx : RunCtx) (E D : IntMat) (L : IntVec)
    (v : R) :
  Seq2SeqModel_init cfg md g = (inr m, g') ->
  lower md = "train"%string ->
  encoder_inputs (placeholders m) ctx = ok E ->
  decoder_inputs (placeholders m) ctx = ok D ->
  fetch (decoder_inputs_length (placeholders m)) ctx = ok L ->
  length E = length D ->
  tf_reduce_max_int L = Z.of_nat (width D) ->
  Z.of_nat (width D) < max_i32 ->
  fetch (loss (decoder m)) ctx = ok v ->
  let M := map (fun l => sequence_mask_row (S (width D)) (l + 1)) L in
  fetch (decoder_masks (decoder m)) ctx = ok M /\
  exists logits X,
    decoder_logits (decoder m) ctx = ok logits /\
    crossent_rows (map (fun row => row ++ [EOS]) D) logits = ok X /\
    Forall2 (fun x l =>
               length x = S (width D) /\
               masked_sum x (sequence_mask_row (S (width D)) (l + 1))
               = Rsum (firstn (Z.to_nat (l + 1)) x))
            X L /\
    v = (Rsum (map2 masked_sum X M) / (Rsum (concat M) + / 1000000000000))%R.
Proof.
  intros H Hmd HE HD HL HED Hmax Hbound Hloss M.
  apply Seq2SeqModel_init_ok in H. destruct H as [_ H].
  rewrite Hmd in H. apply build_graph_ok in H.
  destruct H as (g1 & enc & g2 & dec & g3 & opt & _ & _ & Hdec & _ & ->).
  simpl in *.
  apply build_decoder_train_inv in Hdec.
  destruct Hdec as (cell & st & _ & Hrnn & Hlogits & Hmasks & Hlossdef).
  (* the lengths *)
  assert (Hi32 : forallb in_i32 L = true).
  { unfold fetch in HL. simpl in HL. eapply placeholder_vec_in_i32. exact HL. }
  rewrite forallb_forall in Hi32.
  assert (Hmin : Forall (fun l => min_i32 <= l) L).
  { apply Forall_forall. intros l Hl. specialize (Hi32 l Hl).
    unfold in_i32 in Hi32. apply andb_prop in Hi32. destruct Hi32 as [Hlo _].
    apply Z.leb_le. exact Hlo. }
  assert (Hlt : Forall (fun l => l < max_i32) L).
  { apply Forall_forall. intros l Hl. apply tf_reduce_max_int_ge in Hl. lia. }
  assert (Hne : L <> []).
  { intros ->. unfold tf_reduce_max_int, min_i32 in Hmax. simpl in Hmax. lia. }
  destruct (train_placeholders_eval ctx E D L HE HD HL HED Hlt)
    as (Hit & Htt & Hitl & Httl).
  (* the mask *)
  assert (HM : fetch (decoder_masks dec) ctx = ok M).
  { rewrite Hmasks. fetch_some. rewrite Hitl, Httl. simpl.
    rewrite tf_reduce_max_int_succ by assumption. rewrite Hmax.
    unfold tf_sequence_mask.
    destruct (Z.ltb_spec (Z.of_nat (width D) + 1) 0) as [Hneg | _]; [lia |].
    unfold M. rewrite map_map.
    replace (Z.to_nat (Z.of_nat (width D) + 1)) with (S (width D)) by lia.
    reflexivity. }
  split; [exact HM |].
  (* the loss *)
  rewrite Hlossdef in Hloss. fetch_some_in Hloss.
  apply bind_ok in Hloss. destruct Hloss as (logits & Hlg & Hloss).
  rewrite Htt, HM in Hloss. simpl in Hloss.
  unfold sequence_loss in Hloss.
  apply bind_ok in Hloss. destruct Hloss as (flat & Hflat & Hloss).
  apply bind_ok in Hloss. destruct Hloss as (weighted & Hw & Hloss).
  injection Hloss as Hv.
  (* shapes *)
  rewrite Hlogits in Hlg. unfold tf_layers_dense3 in Hlg.
  apply bind_ok in Hlg. destruct Hlg as (o & Ho & Hlg). injection Hlg as Hlg'.
  destruct (tf_dynamic_rnn_outputs_shape _ _ _ _ _ _ _ ctx o Hrnn Ho)
    as (x & l & Hx & Hl & Hlx & Hox & Hrows).
  rewrite Hitl in Hl. inversion Hl; subst l. rewrite length_map in Hlx.
  apply embedding_lookup_mat_shape in Hx. destruct Hx as (ids & Hids & Hshape).
  rewrite Hit in Hids. inversion Hids; subst ids.
  assert (HDrect : Forall (fun r => length r = width D) D).
  { apply width_rows. eapply placeholder_mat_rectangular. exact HD. }
  assert (HLD : length L = length D).
  { rewrite Hlx. symmetry. rewrite <- (length_map (cons GO) D).
    eapply Forall2_length. exact Hshape. }
  assert (Hwx : width x = S (width D)).
  { destruct D as [| d D']; [destruct L; [congruence | discriminate] |].
    inversion Hshape as [| ? xr ? ? Hr]; subst. simpl. simpl in Hr. exact Hr. }
  assert (Hlgrows : Forall (fun row => length row = S (width D)) logits).
  { rewrite <- Hlg'. apply Forall_forall. intros row Hrow.
    apply in_map_iff in Hrow. destruct Hrow as (r & <- & Hr).
    rewrite length_map. rewrite Forall_forall in Hrows.
    rewrite (Hrows r Hr). exact Hwx. }
  assert (Htrows : Forall (fun row => length row = S (width D))
                     (map (fun row => row ++ [EOS]) D)).
  { apply Forall_forall. intros row Hrow.
    apply in_map_iff in Hrow. destruct Hrow as (r & <- & Hr).
    rewrite Forall_forall in HDrect. rewrite length_app, (HDrect r Hr).
    change (length [EOS]) with 1%nat. apply Nat.add_1_r. }
  assert (Hcount : length (map (fun row => row ++ [EOS]) D) = length logits).
  { rewrite <- Hlg', !length_map. unfold Mat, Vec in *. lia. }
  destruct (flat_crossent_rows _ _ _
              (Forall2_of_lengths _ _ _ Hcount Htrows Hlgrows) Hflat)
    as (X & HX & Hcat & HXT).
  assert (HXrows : Forall (fun xr => length xr = S (width D)) X).
  { clear -HXT Htrows. induction HXT as [| xr t X T Hxt _ IH]; constructor.
    - inversion Htrows; subst. congruence.
    - inversion Htrows; subst. apply IH. assumption. }
  assert (HMrows : Forall (fun w => length w = S (width D)) M).
  { unfold M. apply Forall_forall. intros w Hw'. apply in_map_iff in Hw'.
    destruct Hw' as (l & <- & _). unfold sequence_mask_row.
    rewrite length_map, length_seq. reflexivity. }
  assert (HXM : Forall2 (fun xr w => length xr = length w) X M).
  { apply (Forall2_of_lengths (S (width D))); try assumption.
    unfold M. rewrite length_map. apply Forall2_length in HXT.
    rewrite length_map in HXT. unfold Mat, Vec, IntMat, IntVec in *. lia. }
  exists logits, X. split; [| split; [exact HX |]].
  { rewrite Hlogits. unfold tf_layers_dense3. rewrite Ho. simpl.
    rewrite Hlg'. reflexivity. }
  split.
  - assert (HXL : length X = length L).
    { apply Forall2_length in HXT. rewrite length_map in HXT.
      unfold Mat, Vec, IntMat, IntVec in *. lia. }
    clear -HXrows HXL. revert L HXL.
    induction HXrows as [| xr X Hxr _ IH]; intros [| l L] HXL;
      simpl in HXL; try discriminate; constructor.
    + split; [exact Hxr |]. rewrite <- Hxr. apply masked_sum_firstn.
    + apply IH. lia.
  - rewrite <- Hv. subst flat. unfold broadcast_mul in Hw.
    rewrite (concat_length_rows _ _ HXM), Nat.eqb_refl in Hw.
    inversion Hw. rewrite Rsum_concat_rows by exact HXM. reflexivity.
Qed.

(** ** Dropout with keep-probability 1 *)

Lemma imap_from_id {A} (f : nat -> A -> A) (l : list A) (s : nat) :
  (forall i x, f i x = x) ->
  map (fun p => f (fst p) (snd p)) (combine (seq s (length l)) l) = l.
Proof.
  intros Hf. revert s. induction l as [| a l IH]; intros s; simpl; [reflexivity |].
  rewrite Hf, IH. reflexivity.
Qed.

Lemma imap_id {A} (f : nat -> A -> A) (l : list A) :
  (forall i x, f i x = x) -> imap f l = l.
Proof. intros Hf. apply imap_from_id. exact Hf. Qed.

(** With keep-probability 1 the mask [floor(1 + u)] is 1 whatever the
    sample [u] in [0, 1): dropout is the identity. *)
Lemma dropout_keep_all (u : nat -> R) (x : Vec) :
  (forall i, (0 <= u i < 1)%R) -> dropout 1 u x = x.
Proof.
  intros Hu. unfold dropout. apply imap_id. intros i xi.
  rewrite (Zfloor_eq 1 (1 + u i)) by (specialize (Hu i); simpl; lra).
  simpl. field.
Qed.

Lemma keep_prob_agree (ctx ctx' : RunCtx) :
  ctx_agree ctx ctx' ->
  placeholder_scalar fd_keep_prob ctx = ok 1%R /\
  placeholder_scalar fd_keep_prob ctx' = ok 1%R.
Proof.
  intros (Hf & _ & Hk & _). unfold placeholder_scalar.
  rewrite <- Hf, Hk. split; reflexivity.
Qed.

Lemma single_cell_call_agree (c : SingleCell) (scope : string) ctx ctx' t x h :
  model_cell c -> ctx_agree ctx ctx' ->
  single_cell_call c scope ctx t x h = single_cell_call c scope ctx' t x h.
Proof.
  intros Hc Hag. revert x h. induction c as [units name | c IH p]; intros x h; simpl.
  - destruct Hag as (_ & Hv & _). rewrite Hv. reflexivity.
  - destruct Hc as [-> Hc]. rewrite (IH Hc).
    destruct (single_cell_call c scope ctx' t x h) as [e | [o h']]; [reflexivity |].
    simpl. destruct (keep_prob_agree _ _ Hag) as [-> ->]. simpl.
    destruct Hag as (_ & _ & _ & Hw & Hw').
    rewrite !imap_id; [reflexivity | |];
      intros b row; apply dropout_keep_all; intros i; [apply Hw' | apply Hw].
Qed.

Lemma multi_cell_call_agree (cells : list SingleCell) scope i ctx ctx' t x hs :
  Forall model_cell cells -> ctx_agree ctx ctx' ->
  multi_cell_call cells scope i ctx t x hs = multi_cell_call cells scope i ctx' t x hs.
Proof.
  intros Hcells Hag. revert i x.
  induction Hcells as [| c cells Hc _ IH]; intros i x; simpl; [reflexivity |].
  destruct (nth_error hs i) as [cur |]; [| reflexivity].
  rewrite (single_cell_call_agree c _ ctx ctx' t x cur Hc Hag).
  destruct (single_cell_call c _ ctx' t x cur) as [e | [o ns]]; [reflexivity |].
  simpl. rewrite IH. reflexivity.
Qed.

Lemma cell_call_agree (cell : RNNCell) scope ctx ctx' :
  model_rnn_cell cell -> ctx_agree ctx ctx' ->
  cell_call cell scope ctx = cell_call cell scope ctx'.
Proof.
  intros Hcell Hag.
  apply functional_extensionality. intros t.
  apply functional_extensionality. intros x.
  apply functional_extensionality. intros s.
  unfold cell_call. destruct cell as [c | cells], s as [h | hs]; try reflexivity.
  - rewrite (single_cell_call_agree c _ ctx ctx' t x h Hcell Hag). reflexivity.
  - rewrite (multi_cell_call_agree cells _ 0 ctx ctx' t x hs Hcell Hag). reflexivity.
Qed.

(** ** Noise-free tensors *)

Lemma noise_free_bind {A B} (t : Tensor A) (k : A -> Tensor B) :
  noise_free t -> (forall a, noise_free (k a)) ->
  noise_free (fun ctx => a <- t ctx ;; k a ctx).
Proof.
  intros Ht Hk ctx ctx' Hag. rewrite (Ht ctx ctx' Hag).
  destruct (t ctx') as [e | a]; [reflexivity |]. simpl. apply Hk. exact Hag.
Qed.

Lemma noise_free_placeholder_mat get : noise_free (placeholder_mat get).
Proof.
  intros ctx ctx' (Hf & _). unfold placeholder_mat. rewrite Hf. reflexivity.
Qed.

Lemma noise_free_placeholder_vec get : noise_free (placeholder_vec get).
Proof.
  intros ctx ctx' (Hf & _). unfold placeholder_vec. rewrite Hf. reflexivity.
Qed.

Lemma noise_free_fetch {A} (t : Tensor A) : noise_free t -> noise_free (fetch (Some t)).
Proof. intros Ht ctx ctx' Hag. apply Ht. exact Hag. Qed.

Lemma noise_free_embedding_lookup_mat name vocab emb (ids : Tensor IntMat) :
  noise_free ids -> noise_free (embedding_lookup_mat name vocab emb ids).
Proof.
  intros Hids ctx ctx' Hag. unfold embedding_lookup_mat.
  rewrite (Hids ctx ctx' Hag). destruct Hag as (_ & -> & _). reflexivity.
Qed.

Lemma noise_free_dense3 name units use_bias (inputs : Tensor Tensor3) :
  noise_free inputs -> noise_free (tf_layers_dense3 name units use_bias inputs).
Proof.
  intros Hin ctx ctx' Hag. unfold tf_layers_dense3.
  rewrite (Hin ctx ctx' Hag). destruct Hag as (_ & -> & _). reflexivity.
Qed.

Lemma noise_free_concat_last3 (a b : Tensor Tensor3) :
  noise_free a -> noise_free b -> noise_free (tf_concat_last3 a b).
Proof.
  intros Ha Hb ctx ctx' Hag. unfold tf_concat_last3.
  rewrite (Ha ctx ctx' Hag), (Hb ctx ctx' Hag). reflexivity.
Qed.

Lemma noise_free_eval_state (s : StateT) :
  noise_free_state s -> noise_free (eval_state s).
Proof.
  intros Hs ctx ctx' Hag. unfold eval_state. destruct s as [h | hs]; simpl in Hs.
  - rewrite (Hs ctx ctx' Hag). reflexivity.
  - assert (Hm : mapM (fun h => h ctx) hs = mapM (fun h => h ctx') hs).
    { induction Hs as [| h hs Hh _ IH]; simpl; [reflexivity |].
      rewrite (Hh ctx ctx' Hag), IH. reflexivity. }
    rewrite Hm. reflexivity.
Qed.

Lemma noise_free_state_tensor {A} (run : Tensor (A * StateV)) :
  noise_free run -> noise_free (state_tensor run).
Proof.
  intros Hrun ctx ctx' Hag. unfold state_tensor. rewrite (Hrun ctx ctx' Hag).
  reflexivity.
Qed.

Lemma noise_free_state_component {A} (run : Tensor (A * StateV)) (i : nat) :
  noise_free run -> noise_free (state_component run i).
Proof.
  intros Hrun ctx ctx' Hag. unfold state_component. rewrite (Hrun ctx ctx' Hag).
  reflexivity.
Qed.

(** The outputs and the final state of [dynamic_rnn] are noise-free when
    its inputs are and its cell is one of the model's. *)
Lemma tf_dynamic_rnn_noise_free cell scope init inputs lens outs st :
  tf_dynamic_rnn cell scope init inputs lens = ok (outs, st) ->
  model_rnn_cell cell ->
  noise_free inputs -> noise_free lens ->
  match init with Some s => noise_free_state s | None => True end ->
  noise_free outs /\ noise_free_state st.
Proof.
  unfold tf_dynamic_rnn. intros H Hcell Hin Hlens Hinit.
  apply bind_ok in H. destruct H as (_ & _ & H).
  set (run := fun ctx : RunCtx =>
         x <- inputs ctx ;;
         lens0 <- lens ctx ;;
         s0 <- match init with
               | Some s => eval_state s ctx
               | None => ok (zero_state cell (length x))
               end ;;
         dynamic_rnn_run (cell_call cell scope ctx) s0 x lens0) in H.
  assert (Hrun : noise_free run).
  { intros ctx ctx' Hag. unfold run.
    rewrite (Hin ctx ctx' Hag), (Hlens ctx ctx' Hag).
    rewrite (cell_call_agree cell scope ctx ctx' Hcell Hag).
    destruct init as [s |]; [| reflexivity].
    rewrite (noise_free_eval_state s Hinit ctx ctx' Hag). reflexivity. }
  injection H as Houts Hst. subst outs st. split.
  - intros ctx ctx' Hag.
    change ((x <- inputs ctx ;; r <- run ctx ;; stack_outputs x (fst r))
            = (x <- inputs ctx' ;; r <- run ctx' ;; stack_outputs x (fst r))).
    rewrite (Hin ctx ctx' Hag), (Hrun ctx ctx' Hag). reflexivity.
  - destruct cell as [c | cells]; simpl.
    + apply noise_free_state_tensor. exact Hrun.
    + apply Forall_forall. intros h Hh. apply in_map_iff in Hh.
      destruct Hh as (i & <- & _). apply noise_free_state_component. exact Hrun.
Qed.

Lemma noise_free_reverse_sequence (x : Tensor Tensor3) (lens : Tensor IntVec) :
  noise_free x -> noise_free lens ->
  noise_free (fun ctx => v <- x ctx ;; l <- lens ctx ;; reverse_sequence l v).
Proof.
  intros Hx Hl ctx ctx' Hag. rewrite (Hx ctx ctx' Hag), (Hl ctx ctx' Hag).
  reflexivity.
Qed.

Lemma tf_bidirectional_dynamic_rnn_noise_free cell_fw cell_bw scope inputs lens r :
  tf_bidirectional_dynamic_rnn cell_fw cell_bw scope inputs lens = ok r ->
  model_cell cell_fw -> model_cell cell_bw ->
  noise_free inputs -> noise_free lens ->
  noise_free (fst (fst r)) /\ noise_free (snd (fst r)) /\
  noise_free_state (fst (snd r)) /\ noise_free_state (snd (snd r)).
Proof.
  unfold tf_bidirectional_dynamic_rnn. intros H Hfw Hbw Hin Hlens.
  apply bind_ok in H. destruct H as ([output_fw state_fw] & Hf & H).
  apply bind_ok in H. destruct H as ([tmp state_bw] & Hb & H).
  injection H as <-. simpl.
  destruct (tf_dynamic_rnn_noise_free _ _ _ _ _ _ _ Hf Hfw Hin Hlens I)
    as [Hof Hsf].
  assert (Hrev : noise_free (fun ctx =>
                    x <- inputs ctx ;; l <- lens ctx ;; reverse_sequence l x))
    by (apply noise_free_reverse_sequence; assumption).
  destruct (tf_dynamic_rnn_noise_free _ _ _ _ _ _ _ Hb Hbw Hrev Hlens I)
    as [Hob Hsb].
  repeat split; try assumption.
  apply noise_free_reverse_sequence; assumption.
Qed.

Lemma build_single_cell_model (cfg : Config) (mode : string) :
  model_cell (build_single_cell cfg (build_placeholders mode)).
Proof.
  unfold build_single_cell, build_placeholders.
  destruct (use_dropout cfg); destruct (String.eqb mode "train"); simpl; auto.
Qed.

Lemma new_MultiRNNCell_model (cfg : Config) (mode : string) (n : list nat) cell :
  new_MultiRNNCell (map (fun _ => build_single_cell cfg (build_placeholders mode)) n)
  = ok cell ->
  model_rnn_cell cell.
Proof.
  unfold new_MultiRNNCell. destruct (map _ n) as [| c cs] eqn:Hmap; [discriminate |].
  intros H. injection H as <-. simpl. rewrite <- Hmap.
  apply Forall_forall. intros c' Hc'. apply in_map_iff in Hc'.
  destruct Hc' as (_ & <- & _). apply build_single_cell_model.
Qed.

Lemma placeholders_noise_free (mode : string) :
  noise_free (encoder_inputs (build_placeholders mode)) /\
  noise_free (encoder_inputs_length (build_placeholders mode)).
Proof.
  unfold build_placeholders. destruct (String.eqb mode "train"); simpl;
    split; (apply noise_free_placeholder_mat || apply noise_free_placeholder_vec).
Qed.

Lemma noise_free_tuple1 (s : StateT) l :
  tuple1 s = ok l -> noise_free_state s -> Forall noise_free l.
Proof.
  destruct s as [h | hs]; simpl; intros H Hs; [| discriminate].
  injection H as <-. constructor; [exact Hs | constructor].
Qed.

Lemma noise_free_as_tuple (s : StateT) l :
  as_tuple s = ok l -> noise_free_state s -> Forall noise_free l.
Proof.
  destruct s as [h | hs]; simpl; intros H Hs; [discriminate |].
  injection H as <-. exact Hs.
Qed.

(** The final state of the encoder is noise-free. *)
Lemma build_encoder_noise_free (cfg : Config) (mode : string) (g : Graph) enc g' :
  build_encoder cfg (build_placeholders mode) g = (inr enc, g') ->
  noise_free_state (encoder_last_state enc).
Proof.
  destruct (placeholders_noise_free mode) as [HE HL].
  pose proof (build_single_cell_model cfg mode) as Hcell.
  set (ph := build_placeholders mode) in *.
  unfold build_encoder. intros H.
  apply bbind_ok in H. destruct H as (emb & g0 & _ & H).
  apply bbind_ok in H. destruct H as (u0 & g1 & _ & H).
  assert (Hdense : noise_free
            (tf_layers_dense3 (scoped "encoder" "inputs_embedded_dense")
               (hidden_units cfg) false
               (embedding_lookup_mat emb (encoder_vocab_size cfg)
                  (embedding_size cfg) (encoder_inputs ph)))).
  { apply noise_free_dense3, noise_free_embedding_lookup_mat. exact HE. }
  destruct (use_bidirectional cfg).
  - apply bbind_ok in H.
    destruct H as ([[fw_outputs bw_outputs] [fw_state bw_state]] & g2 & Hbidi & H).
    apply bidirectional_dynamic_rnn_ok in Hbidi. destruct Hbidi as [Hbidi _].
    destruct (tf_bidirectional_dynamic_rnn_noise_free _ _ _ _ _ _ Hbidi Hcell Hcell
                Hdense HL) as (Hfo & Hbo & Hfs & _).
    simpl in Hfo, Hbo, Hfs.
    apply bbind_ok in H. destruct H as (u1 & g3 & _ & H).
    apply bbind_ok in H. destruct H as (upper & g4 & Hupper & H).
    apply lift_ok in Hupper. destruct Hupper as [Hupper ->]. simpl in H.
    assert (Hbi : noise_free
              (tf_layers_dense3 (scoped "encoder" "dense") (hidden_units cfg) false
                 (tf_concat_last3 fw_outputs bw_outputs))).
    { apply noise_free_dense3, noise_free_concat_last3; assumption. }
    destruct upper as [upper_cell |].
    + apply bbind_ok in H.
      destruct H as ([upper_outputs upper_last_state] & g5 & Hrnn & H).
      apply dynamic_rnn_ok in Hrnn.
      assert (Hmodel : model_rnn_cell upper_cell).
      { destruct (2 <? encoder_depth cfg).
        - apply bind_ok in Hupper. destruct Hupper as (c & Hc & Hsome).
          injection Hsome as <-. unfold build_encoder_cell in Hc.
          eapply new_MultiRNNCell_model. exact Hc.
        - destruct (encoder_depth cfg =? 2); [| discriminate].
          injection Hupper as <-. exact Hcell. }
      destruct (tf_dynamic_rnn_noise_free _ _ _ _ _ _ _ Hrnn Hmodel Hbi HL I)
        as [_ Hus].
      apply bbind_ok in H. destruct H as (fw & g6 & Hfw & H).
      apply lift_ok in Hfw. destruct Hfw as [Hfw ->].
      apply bbind_ok in H. destruct H as (up & g7 & Hup & H).
      apply lift_ok in Hup. destruct Hup as [Hup ->].
      apply bret_ok in H. destruct H as [-> _]. simpl.
      apply Forall_app. split.
      * eapply noise_free_tuple1; eassumption.
      * destruct (encoder_depth cfg =? 2);
          [eapply noise_free_tuple1 | eapply noise_free_as_tuple]; eassumption.
    + apply bbind_ok in H. destruct H as (fw & g6 & Hfw & H).
      apply lift_ok in Hfw. destruct Hfw as [Hfw ->].
      apply bret_ok in H. destruct H as [-> _]. simpl.
      eapply noise_free_tuple1; eassumption.
  - apply bbind_ok in H. destruct H as (cell & g2 & Hcellok & H).
    apply lift_ok in Hcellok. destruct Hcellok as [Hcellok ->].
    apply bbind_ok in H. destruct H as ([outs st] & g3 & Hrnn & H).
    apply dynamic_rnn_ok in Hrnn.
    apply bret_ok in H. destruct H as [-> _]. simpl.
    assert (Hc : model_rnn_cell cell).
    { unfold build_encoder_cell in Hcellok. eapply new_MultiRNNCell_model.
      exact Hcellok. }
    destruct (tf_dynamic_rnn_noise_free _ _ _ _ _ _ _ Hrnn Hc Hdense HL I)
      as [_ Hs].
    exact Hs.
Qed.

Lemma train_placeholders_noise_free :
  let ph := build_placeholders "train" in
  noise_free (fetch (decoder_inputs_train ph)) /\
  noise_free (fetch (decoder_inputs_train_length ph)) /\
  noise_free (fetch (decoder_targets_train ph)) /\
  noise_free (fetch (decoder_targets_train_length ph)).
Proof.
  simpl. repeat split; intros ctx ctx' Hag; unfold fetch; simpl;
    rewrite ?(noise_free_placeholder_mat fd_encoder_inputs ctx ctx' Hag),
            ?(noise_free_placeholder_mat fd_decoder_inputs ctx ctx' Hag),
            ?(noise_free_placeholder_vec fd_decoder_inputs_length ctx ctx' Hag);
    reflexivity.
Qed.

(** The loss of the training graph is noise-free. *)
Lemma train_loss_noise_free (cfg : Config) (g : Graph) m g' :
  build_graph cfg "train" g = (inr m, g') ->
  exists l, loss (decoder m) = Some l /\ noise_free l.
Proof.
  intros H. apply build_graph_ok in H.
  destruct H as (g1 & enc & g2 & dec & g3 & opt & _ & Henc & Hdec & _ & ->).
  simpl. apply build_encoder_noise_free in Henc.
  apply build_decoder_train_inv in Hdec.
  destruct Hdec as (cell & st & Hcell & Hrnn & Hlogits & Hmasks & Hloss).
  destruct train_placeholders_noise_free as (Hit & Hitl & Htt & Httl).
  assert (Hmodel : model_rnn_cell cell).
  { unfold build_decoder_cell in Hcell. eapply new_MultiRNNCell_model. exact Hcell. }
  assert (Hemb : noise_free
            (embedding_lookup_mat (scoped "decoder" "embedding")
               (decoder_vocab_size cfg) (embedding_size cfg)
               (fetch (decoder_inputs_train (build_placeholders "train")))))
    by (apply noise_free_embedding_lookup_mat; exact Hit).
  destruct (tf_dynamic_rnn_noise_free _ _ _ _ _ _ _ Hrnn Hmodel Hemb Hitl Henc)
    as [Houts _].
  assert (Hlg : noise_free (decoder_logits dec)).
  { rewrite Hlogits. apply noise_free_dense3. exact Houts. }
  assert (Hmk : noise_free (fetch (decoder_masks dec))).
  { rewrite Hmasks. intros ctx ctx' Hag. fetch_some. fetch_some.
    rewrite (Hitl ctx ctx' Hag), (Httl ctx ctx' Hag). reflexivity. }
  eexists. split; [exact Hloss |].
  intros ctx ctx' Hag. cbv beta.
  rewrite (Hlg ctx ctx' Hag), (Htt ctx ctx' Hag), (Hmk ctx ctx' Hag). reflexivity.
Qed.

(** C7. [eval] is deterministic and changes nothing: it feeds
    keep-probability 1, so that whatever samples the dropout ops draw the
    loss is the same, and it fetches the loss alone, so that the session
    is returned as it was; a second [eval] on the same batch, run on the
    session the first one left and with other samples, returns the same
    loss. *)
Theorem eval_is_deterministic (cfg : Config) (md : string) (g : Graph)
    (m : Seq2SeqModel) (g' : Graph) (sess sess' : Session) (w1 w2 : Noise)
    (E : IntMat) (El : IntVec) (D : IntMat) (Dl : IntVec) (l : R) :
  Seq2SeqModel_init cfg md g = (inr m, g') ->
  unit_noise w1 -> unit_noise w2 ->
  eval m sess w1 E El D Dl = ok (l, sess') ->
  sess' = sess /\ eval m sess' w2 E El D Dl = ok (l, sess').
Proof.
  intros H Hw1 Hw2 Heval.
  apply Seq2SeqModel_init_ok in H. destruct H as [[Hmd | Hmd] H]; rewrite Hmd in H.
  - destruct (train_loss_noise_free _ _ _ _ H) as (lt & Hl & Hfree).
    unfold eval in *. rewrite Hl in *.
    destruct (attr (decoder_inputs_length (placeholders m))) as [e | dl];
      [discriminate |].
    simpl in *.
    match type of Heval with
    | context [lt ?c] => set (ctx1 := c) in *
    end.
    destruct (lt ctx1) as [e | v] eqn:Hv; [discriminate |].
    simpl in Heval. injection Heval as <- <-. split; [reflexivity |].
    match goal with
    | |- context [lt ?c] => set (ctx2 := c)
    end.
    assert (Hag : ctx_agree ctx1 ctx2).
    { unfold ctx_agree, ctx1, ctx2, run_ctx. simpl. auto. }
    rewrite <- (Hfree ctx1 ctx2 Hag), Hv. reflexivity.
  - exfalso. apply build_graph_ok in H.
    destruct H as (g1 & enc & g2 & dec & g3 & opt & _ & _ & Hdec & _ & ->).
    apply build_decoder_inference in Hdec. destruct Hdec as [Hl _].
    unfold eval in Heval. simpl in Heval. try rewrite Hl in Heval. discriminate.
Qed.

(** ** The greedy loop *)

Section Greedy.
Local Open Scope R_scope.

Lemma argmax_from_max (pre l : list R) (best_i : nat) (best : R) :
  (best_i < length pre)%nat ->
  nth best_i (pre ++ l) 0 = best ->
  nth (argmax_from best_i best (length pre) l) (pre ++ l) 0 = fold_left Rmax l best
  /\ (argmax_from best_i best (length pre) l < length (pre ++ l))%nat.
Proof.
  revert pre best_i best. induction l as [| x l IH]; intros pre best_i best Hi Hb.
  - simpl. split; [exact Hb |]. rewrite app_nil_r. exact Hi.
  - simpl.
    assert (Hpre : pre ++ x :: l = (pre ++ [x]) ++ l)
      by (rewrite <- app_assoc; reflexivity).
    assert (Hlen : S (length pre) = length (pre ++ [x]))
      by (rewrite length_app; simpl; lia).
    destruct (Rlt_dec best x) as [Hlt | Hge].
    + rewrite Hpre, Hlen. replace (Rmax best x) with x
        by (symmetry; apply Rmax_right; lra).
      apply IH.
      * rewrite length_app. simpl. lia.
      * rewrite <- Hpre. rewrite app_nth2 by lia.
        rewrite Nat.sub_diag. reflexivity.
    + rewrite Hpre, Hlen. replace (Rmax best x) with best
        by (symmetry; apply Rmax_left; lra).
      apply IH.
      * rewrite length_app. simpl. lia.
      * rewrite <- Hpre. exact Hb.
Qed.

(** The greatest entry of a row is the entry at its arg-max. *)
Lemma tf_reduce_max_argmax (p : Vec) :
  tf_reduce_max p = (i <- tf_argmax p ;; ok (nth (Z.to_nat i) p 0)).
Proof.
  destruct p as [| x l]; [reflexivity |]. simpl.
  destruct (argmax_from_max [x] l 0 x) as [Hmax _]; [simpl; lia | reflexivity |].
  simpl in Hmax. rewrite Nat2Z.id.
  change (x :: l) with ([x] ++ l). unfold ok. f_equal. symmetry. exact Hmax.
Qed.


Lemma mapM_reduce_max_argmax (probabilities : Mat) :
  mapM tf_reduce_max probabilities
  = (predicts <- mapM tf_argmax probabilities ;;
     ok (map2 (fun p i => nth (Z.to_nat i) p 0) probabilities predicts)).
Proof.
  induction probabilities as [| p ps IH]; [reflexivity |].
  simpl. rewrite tf_reduce_max_argmax, IH.
  destruct (tf_argmax p) as [e | i]; [reflexivity |]. simpl.
  destruct (mapM tf_argmax ps) as [e | ixs]; reflexivity.
Qed.

End Greedy.

Lemma multi_cell_call_length cells scope i ctx t x hs o hs' :
  multi_cell_call cells scope i ctx t x hs = ok (o, hs') ->
  length hs' = length cells.
Proof.
  revert i x o hs'. induction cells as [| c cells IH]; intros i x o hs' H; simpl in H.
  - injection H as _ <-. reflexivity.
  - destruct (nth_error hs i) as [cur |]; [| discriminate].
    apply bind_ok in H. destruct H as ([o1 ns] & _ & H).
    apply bind_ok in H. destruct H as ([o2 nss] & Hrest & H).
    injection H as _ <-. simpl. f_equal. eapply IH. exact Hrest.
Qed.

Lemma mapM_map {A B C} (f : B -> result C) (g : A -> B) (l : list A) :
  mapM f (map g l) = mapM (fun a => f (g a)) l.
Proof.
  induction l as [| a l IH]; simpl; [reflexivity |]. rewrite IH. reflexivity.
Qed.

Lemma mapM_nth_error {A} (hs : list A) (s : nat) (l : list A) :
  mapM (fun i => match nth_error (l ++ hs) i with
                 | Some h => @ok A h
                 | None => raise IndexError
                 end) (seq (length l) (length hs)) = ok hs.
Proof.
  revert l. induction hs as [| h hs IH]; intros l; simpl; [reflexivity |].
  rewrite nth_error_app2 by lia. rewrite Nat.sub_diag. simpl.
  replace (l ++ h :: hs) with ((l ++ [h]) ++ hs) by (rewrite <- app_assoc; reflexivity).
  replace (S (length l)) with (length (l ++ [h])) by (rewrite length_app; simpl; lia).
  rewrite IH. reflexivity.
Qed.

(** Evaluating the state tuple that a cell call returns in the graph. *)
Lemma eval_state_components {A} (run : Tensor (A * StateV)) (n : nat) ctx :
  (0 < n)%nat ->
  (forall a s, run ctx = ok (a, s) -> exists hs, s = STuple hs /\ length hs = n) ->
  eval_state (TTuple (map (state_component run) (seq 0 n))) ctx
  = (r <- run ctx ;; ok (snd r)).
Proof.
  intros Hn Hshape. unfold eval_state. rewrite mapM_map. unfold state_component.
  destruct (run ctx) as [e | [a s]] eqn:Hrun.
  - destruct n as [| n]; [lia |]. reflexivity.
  - destruct (Hshape a s eq_refl) as (hs & -> & <-). simpl.
    pose proof (mapM_nth_error hs 0 []) as Hm. simpl in Hm.
    unfold ok in *. rewrite Hm. reflexivity.
Qed.

Lemma cell_call_multi_shape cells scope ctx t x s o s' :
  cell_call (MultiRNNCell cells) scope ctx t x s = ok (o, s') ->
  exists hs', s' = STuple hs' /\ length hs' = length cells.
Proof.
  unfold cell_call. destruct s as [h | hs]; [discriminate |].
  intros H. apply bind_ok in H. destruct H as ([o1 hs1] & Hcall & H).
  injection H as _ <-. exists hs1. split; [reflexivity |].
  eapply multi_cell_call_length. exact Hcall.
Qed.

Lemma greedy_cell_shape cfg cells batch init k ctx o s :
  greedy_cell cfg (MultiRNNCell cells) batch init k ctx = ok (o, s) ->
  exists hs, s = STuple hs /\ length hs = length cells.
Proof.
  destruct k as [| k]; simpl; intros H.
  - apply bind_ok in H. destruct H as (n & _ & H).
    apply bind_ok in H. destruct H as (x & _ & H).
    apply bind_ok in H. destruct H as (s0 & _ & H).
    eapply cell_call_multi_shape. exact H.
  - apply bind_ok in H. destruct H as (r & _ & H).
    apply bind_ok in H. destruct H as (c & _ & H).
    apply bind_ok in H. destruct H as (x & _ & H).
    eapply cell_call_multi_shape. exact H.
Qed.

(** One iteration of the loop of [build_decoder] is one greedy step. *)
Lemma decoder_loop_body_step (cfg : Config) (cells : list SingleCell)
    (batch : Tensor nat) (init : Tensor StateV) (k : nat) (st st' : LoopState) g g' :
  (0 < length cells)%nat ->
  loop_invariant cfg cells batch init k st ->
  decoder_loop_body cfg (MultiRNNCell cells) (scoped "decoder" "embedding")
                    "decoder" k st g = (inr st', g') ->
  loop_invariant cfg cells batch init (S k) st'.
Proof.
  intros Hn (hs & Hstate & Hpending & Hpred & Hscore & Hlo & Hll & Hlp) H.
  unfold decoder_loop_body in H.
  apply bbind_ok in H. destruct H as ([output state] & g1 & Hcall & H).
  apply lift_ok in Hcall. destruct Hcall as [Hcall ->].
  apply bbind_ok in H. destruct H as (u1 & g2 & _ & H).
  apply bbind_ok in H. destruct H as (u2 & g3 & _ & H).
  apply bret_ok in H. destruct H as [-> _].
  rewrite Hstate in Hcall. unfold rnn_cell_call in Hcall.
  destruct (Nat.ltb (length hs) (length cells)); [discriminate |].
  set (run := fun ctx : RunCtx =>
         x <- ls_input st ctx ;;
         s <- eval_state (TTuple (firstn (length cells) hs)) ctx ;;
         cell_call (MultiRNNCell cells) "decoder" ctx k x s) in *.
  assert (Hrun : run = greedy_cell cfg (MultiRNNCell cells) batch init k).
  { apply functional_extensionality. exact Hpending. }
  change (ok (fun ctx : RunCtx => r <- run ctx ;; ok (fst r),
             TTuple (map (state_component run) (seq 0 (length cells))))
          = inr (output, state)) in Hcall.
  injection Hcall as <- <-.
  exists (map (state_component run) (seq 0 (length cells))).
  cbn [ls_state ls_input ls_predicts ls_scores ls_outputs ls_logits
       ls_probabilities].
  split; [reflexivity |]. split; [| split; [| split]].
  - intros ctx.
    rewrite firstn_all2 by (rewrite length_map, length_seq; lia).
    rewrite (eval_state_components run (length cells) ctx Hn).
    2:{ intros a s Hr. rewrite Hrun in Hr. eapply greedy_cell_shape. exact Hr. }
    unfold embedding_lookup_vec, tf_layers_dense.
    rewrite Hrun. cbn [greedy_cell].
    destruct (greedy_cell cfg (MultiRNNCell cells) batch init k ctx)
      as [e | [o s]]; [reflexivity |].
    simpl. unfold greedy_choice, project_logits, embed_tokens.
    destruct (mapM tf_argmax _) as [e | predicts]; reflexivity.
  - rewrite Hpred, seq_S, map_app. simpl. do 2 f_equal.
    apply functional_extensionality. intros ctx.
    unfold greedy_step, tf_layers_dense. rewrite Hrun.
    destruct (greedy_cell cfg (MultiRNNCell cells) batch init k ctx)
      as [e | [o s]]; [reflexivity |].
    simpl. unfold greedy_choice, project_logits.
    destruct (mapM tf_argmax _) as [e | predicts]; reflexivity.
  - rewrite Hscore, seq_S, map_app. simpl. do 2 f_equal.
    apply functional_extensionality. intros ctx.
    unfold greedy_step, tf_layers_dense. rewrite Hrun.
    destruct (greedy_cell cfg (MultiRNNCell cells) batch init k ctx)
      as [e | [o s]]; [reflexivity |].
    simpl. unfold greedy_choice, project_logits.
    rewrite mapM_reduce_max_argmax.
    destruct (mapM tf_argmax _) as [e | predicts]; reflexivity.
  - rewrite !length_app, Hlo, Hll, Hlp. simpl. repeat split; lia.
Qed.

Lemma for_loop_greedy (cfg : Config) (cells : list SingleCell)
    (batch : Tensor nat) (init : Tensor StateV) (j k : nat) (st st' : LoopState) g g' :
  (0 < length cells)%nat ->
  loop_invariant cfg cells batch init k st ->
  for_loop (decoder_loop_body cfg (MultiRNNCell cells) (scoped "decoder" "embedding")
                              "decoder") (seq k j) st g = (inr st', g') ->
  loop_invariant cfg cells batch init (k + j) st'.
Proof.
  intros Hn. revert k st g. induction j as [| j IH]; intros k st g Hinv H; simpl in H.
  - apply bret_ok in H. destruct H as [-> _]. rewrite Nat.add_0_r. exact Hinv.
  - apply bbind_ok in H. destruct H as (st1 & g1 & Hbody & H).
    replace (k + S j)%nat with (S k + j)%nat by lia.
    eapply IH; [| exact H].
    eapply decoder_loop_body_step; eassumption.
Qed.

Lemma build_decoder_cell_multi (cfg : Config) ph cell :
  build_decoder_cell cfg ph None = ok cell ->
  exists cells, cell = MultiRNNCell cells /\ (0 < length cells)%nat /\
                length cells = Z.to_nat (decoder_depth cfg).
Proof.
  unfold build_decoder_cell, new_MultiRNNCell, depth_or, range.
  destruct (map _ _) as [| c cs] eqn:Hcells; [discriminate |].
  intros H. injection H as <-. eexists. split; [reflexivity |].
  rewrite <- Hcells, length_map, length_seq.
  split; [| reflexivity].
  destruct (Z.to_nat (decoder_depth cfg)); [discriminate | lia].
Qed.

(** Whatever its branch, [build_encoder] leaves a tuple of state tensors. *)
Lemma encoder_last_state_tuple (cfg : Config) ph g enc g' :
  build_encoder cfg ph g = (inr enc, g') ->
  exists hs, encoder_last_state enc = TTuple hs.
Proof.
  unfold build_encoder. intros H.
  apply bbind_ok in H. destruct H as (emb & g1 & _ & H).
  apply bbind_ok in H. destruct H as (u & g2 & _ & H).
  destruct (use_bidirectional cfg).
  - apply bbind_ok in H. destruct H as ([bi_outputs bi_last_state] & g3 & _ & H).
    apply bbind_ok in H. destruct H as (u1 & g4 & _ & H).
    apply bbind_ok in H. destruct H as ([upper_cell |] & g5 & _ & H).
    + apply bbind_ok in H. destruct H as ([uo us] & g6 & _ & H).
      apply bbind_ok in H. destruct H as (fw & g7 & _ & H).
      apply bbind_ok in H. destruct H as (upper & g8 & _ & H).
      apply bret_ok in H. destruct H as [-> _]. simpl. eauto.
    + apply bbind_ok in H. destruct H as (fw & g7 & _ & H).
      apply bret_ok in H. destruct H as [-> _]. simpl. eauto.
  - apply bbind_ok in H. destruct H as (cell & g3 & Hcell & H).
    apply lift_ok in Hcell. destruct Hcell as [Hcell ->].
    apply bbind_ok in H. destruct H as ([eo es] & g4 & Hrnn & H).
    apply bret_ok in H. destruct H as [-> _]. simpl.
    apply dynamic_rnn_ok in Hrnn.
    unfold build_encoder_cell, new_MultiRNNCell in Hcell.
    destruct (map _ _) as [| c cs]; [discriminate |]. injection Hcell as <-.
    unfold tf_dynamic_rnn in Hrnn. simpl in Hrnn. injection Hrnn as _ <-. eauto.
Qed.

(** Before the first iteration: the pending cell call is step 0, on the
    embedded GO tokens and the initial state. *)
Lemma loop_invariant_initial (cfg : Config) (cells : list SingleCell)
    (ph : Placeholders) (hs0 : list (Tensor Mat)) :
  loop_invariant cfg cells (batch_size ph)
    (eval_state (TTuple (firstn (length cells) hs0))) 0
    {| ls_state := TTuple hs0;
       ls_input :=
         embedding_lookup_vec (scoped "decoder" "embedding") (decoder_vocab_size cfg)
           (embedding_size cfg)
           (fun ctx => n <- batch_size ph ctx ;; ok (ones_times n GO));
       ls_last_state := None;
       ls_outputs := [];
       ls_logits := [];
       ls_probabilities := [];
       ls_predicts := [];
       ls_scores := [] |}.
Proof.
  exists hs0.
  cbn [ls_state ls_input ls_predicts ls_scores ls_outputs ls_logits
       ls_probabilities].
  split; [reflexivity |]. split; [| repeat split].
  intros ctx. unfold embedding_lookup_vec. cbn [greedy_cell].
  destruct (batch_size ph ctx) as [e | n]; reflexivity.
Qed.

(** The first iteration reads [state[i]] for every layer of the cell. *)
Lemma for_loop_first_call (cfg : Config) (cells : list SingleCell) emb
    (j : nat) (st st' : LoopState) (hs : list (Tensor Mat)) g g' :
  for_loop (decoder_loop_body cfg (MultiRNNCell cells) emb "decoder")
           (seq 0 (S j)) st g = (inr st', g') ->
  ls_state st = TTuple hs ->
  (length cells <= length hs)%nat.
Proof.
  intros H Hs. simpl in H.
  apply bbind_ok in H. destruct H as (st1 & g1 & Hbody & _).
  unfold decoder_loop_body in Hbody.
  apply bbind_ok in Hbody. destruct Hbody as (r & g2 & Hcall & _).
  apply lift_ok in Hcall. destruct Hcall as [Hcall _].
  rewrite Hs in Hcall. unfold rnn_cell_call in Hcall.
  destruct (Nat.ltb_spec (length hs) (length cells)); [discriminate | assumption].
Qed.

Lemma tf_stack1_ok {A} (values : list (Tensor (list A))) t :
  tf_stack1 values = ok t ->
  values <> [] /\
  t = fun ctx => vs <- mapM (fun v => v ctx) values ;; ok (stack_values vs).
Proof.
  destruct values as [| v vs]; [discriminate |]. simpl. intros H.
  injection H as <-. split; [discriminate | reflexivity].
Qed.

(** The inference branch of [build_decoder], in terms of the greedy steps. *)
Lemma build_decoder_inference_inv (cfg : Config) ph enc g dec g' hs0 :
  build_decoder cfg "inference" ph enc g = (inr dec, g') ->
  encoder_last_state enc = TTuple hs0 ->
  exists cells,
    build_decoder_cell cfg ph None = ok (MultiRNNCell cells) /\
    decoder_cell dec = MultiRNNCell cells /\
    decoder_initial_state dec = encoder_last_state enc /\
    (0 < length cells <= length hs0)%nat /\
    0 < decoder_max_time_steps cfg /\
    let init := eval_state (TTuple (firstn (length cells) hs0)) in
    let step k := greedy_step cfg (MultiRNNCell cells) (batch_size ph) init k in
    decoder_predicts dec
    = Some (fun ctx =>
              vs <- mapM (fun k => r <- step k ctx ;; ok (fst r))
                         (range (decoder_max_time_steps cfg)) ;;
              ok (stack_values vs)) /\
    decoder_scores dec
    = Some (fun ctx =>
              vs <- mapM (fun k => r <- step k ctx ;; ok (snd r))
                         (range (decoder_max_time_steps cfg)) ;;
              ok (stack_values vs)).
Proof.
  intros H Henc. unfold build_decoder in H.
  apply bbind_ok in H. destruct H as (cell & g1 & Hcell & H).
  apply lift_ok in Hcell. destruct Hcell as [Hcell ->].
  apply bbind_ok in H. destruct H as (emb & g2 & Hemb & H).
  apply tf_get_variable_ok in Hemb. subst emb.
  change (String.eqb "inference" "train") with false in H. cbv iota in H.
  apply bbind_ok in H. destruct H as (st & g3 & Hloop & H).
  apply bbind_ok in H. destruct H as (outs & g4 & Houts & H).
  apply bbind_ok in H. destruct H as (logits & g5 & _ & H).
  apply bbind_ok in H. destruct H as (probs & g6 & _ & H).
  apply bbind_ok in H. destruct H as (preds & g7 & Hpreds & H).
  apply bbind_ok in H. destruct H as (scores & g8 & Hscores & H).
  apply bret_ok in H. destruct H as [-> _].
  apply lift_ok in Houts. destruct Houts as [Houts _].
  apply lift_ok in Hpreds. destruct Hpreds as [Hpreds _].
  apply lift_ok in Hscores. destruct Hscores as [Hscores _].
  destruct (build_decoder_cell_multi _ _ _ Hcell) as (cells & -> & Hn & _).
  rewrite Henc in Hloop. unfold range in Hloop.
  pose proof (for_loop_greedy cfg cells (batch_size ph)
                (eval_state (TTuple (firstn (length cells) hs0)))
                (Z.to_nat (decoder_max_time_steps cfg)) 0 _ st g2 g3 Hn
                (loop_invariant_initial cfg cells ph hs0) Hloop)
    as (hs & _ & _ & Hp & Hs & Hlo & _).
  simpl in Hp, Hs, Hlo.
  apply tf_stack1_ok in Houts. destruct Houts as [Hne _].
  assert (HT : (0 < Z.to_nat (decoder_max_time_steps cfg))%nat).
  { destruct (ls_outputs st); [exfalso; apply Hne; reflexivity | simpl in Hlo; lia]. }
  exists cells. cbn [decoder_cell decoder_initial_state decoder_predicts decoder_scores].
  split; [exact Hcell |]. split; [reflexivity |]. split; [reflexivity |].
  split.
  { split; [exact Hn |].
    destruct (Z.to_nat (decoder_max_time_steps cfg)) as [| j] eqn:Hj; [lia |].
    eapply for_loop_first_call; [exact Hloop | reflexivity]. }
  split; [lia |].
  apply tf_stack1_ok in Hpreds. destruct Hpreds as [_ ->].
  apply tf_stack1_ok in Hscores. destruct Hscores as [_ ->].
  unfold range. rewrite Hp, Hs. split; f_equal;
    apply functional_extensionality; intros ctx; rewrite mapM_map; reflexivity.
Qed.

(** C4. The inference decoder is a greedy autoregressive loop.  The
    initial state of the decoder is the final state of the encoder, and
    what [inference] returns is, column by column, what the greedy steps
    [greedy_step 0 .. greedy_step (decoder_max_time_steps - 1)] return:
    step 0 applies the decoder cell once to the embedded GO tokens and
    the initial state (the cell reads one state tensor per layer); step
    k + 1 applies it once to the embedding of the prediction of step k
    and the state that step k left; at every step the output is
    projected to [decoder_vocab_size] logits by the shared projection
    and normalised by softmax, the prediction is the arg-max index and
    the score the probability at that index.  The steps are those of
    [range(decoder_max_time_steps)], at least one, whatever is
    predicted: EOS plays no part in them. *)
Theorem inference_is_greedy_loop (cfg : Config) (md : string) (g : Graph)
    (m : Seq2SeqModel) (g' : Graph) :
  Seq2SeqModel_init cfg md g = (inr m, g') ->
  lower md = "inference"%string ->
  exists cells hs0,
    decoder_cell (decoder m) = MultiRNNCell cells /\
    decoder_initial_state (decoder m) = encoder_last_state (encoder m) /\
    encoder_last_state (encoder m) = TTuple hs0 /\
    (0 < length cells <= length hs0)%nat /\
    0 < decoder_max_time_steps cfg /\
    let init := eval_state (TTuple (firstn (length cells) hs0)) in
    let step := greedy_step cfg (MultiRNNCell cells) (batch_size (placeholders m))
                            init in
    forall sess w encoder_inputs_v encoder_inputs_length_v,
      let ctx :=
        run_ctx sess
          {| fd_encoder_inputs := Some encoder_inputs_v;
             fd_encoder_inputs_length := Some encoder_inputs_length_v;
             fd_decoder_inputs := None;
             fd_decoder_inputs_length := None;
             fd_keep_prob := Some 1%R |} w in
      inference m sess w encoder_inputs_v encoder_inputs_length_v
      = (predicts <- mapM (fun k => r <- step k ctx ;; ok (fst r))
                          (range (decoder_max_time_steps cfg)) ;;
         scores <- mapM (fun k => r <- step k ctx ;; ok (snd r))
                        (range (decoder_max_time_steps cfg)) ;;
         ok ((stack_values predicts, stack_values scores), sess)).
Proof.
  intros Hinit Hmode.
  apply Seq2SeqModel_init_ok in Hinit. destruct Hinit as [_ Hinit].
  rewrite Hmode in Hinit. apply build_graph_ok in Hinit.
  destruct Hinit as (g1 & enc & g2 & dec & g3 & opt & _ & Henc & Hdec & _ & ->).
  destruct (encoder_last_state_tuple _ _ _ _ _ Henc) as (hs0 & Hhs0).
  destruct (build_decoder_inference_inv _ _ _ _ _ _ _ Hdec Hhs0)
    as (cells & _ & Hcell & Hstate & Hlen & HT & Hp & Hs).
  exists cells, hs0. cbn [decoder encoder placeholders].
  split; [exact Hcell |]. split; [exact Hstate |]. split; [exact Hhs0 |].
  split; [exact Hlen |]. split; [exact HT |].
  intros sess w E El. unfold inference. cbn [decoder].
  rewrite Hp, Hs. cbv beta iota zeta delta [attr bind ok].
  destruct (mapM (fun k => match _ with inl e => _ | inr r => inr (fst r) end) _)
    as [e | predicts];
    [reflexivity |].
  destruct (mapM _ _) as [e | scores]; reflexivity.
Qed.

(** ** What inference returns *)

Ltac len_lia := unfold Tensor3, Mat, Vec, IntMat, IntVec in *; lia.

Lemma map2_length {A B C} (f : A -> B -> C) (a : list A) (b : list B) :
  length (map2 f a b) = Nat.min (length a) (length b).
Proof. unfold map2. rewrite length_map, length_combine. reflexivity. Qed.

Lemma imap_length {A B} (f : nat -> A -> B) (l : list A) :
  length (imap f l) = length l.
Proof.
  unfold imap. rewrite length_map, length_combine, length_seq. lia.
Qed.

Lemma map2_Forall {A B C} (P : A -> Prop) (Q : B -> Prop) (R' : C -> Prop)
    (f : A -> B -> C) (a : list A) (b : list B) :
  (forall x y, P x -> Q y -> R' (f x y)) ->
  Forall P a -> Forall Q b -> Forall R' (map2 f a b).
Proof.
  intros Hf Ha. revert b. induction Ha as [| x a Hx _ IH]; intros b Hb.
  - constructor.
  - destruct Hb as [| y b Hy Hb]; [constructor |].
    unfold map2. simpl. constructor; [apply Hf; assumption |]. apply IH. exact Hb.
Qed.

Lemma mapM_total {A B} (P : B -> Prop) (f : A -> result B) (l : list A) :
  Forall (fun a => exists b, f a = ok b /\ P b) l ->
  exists l', mapM f l = ok l' /\ length l' = length l /\ Forall P l'.
Proof.
  induction 1 as [| a l (b & Hb & HP) _ (l' & Hl' & Hlen & HPl)]; simpl.
  - exists []. repeat split. constructor.
  - exists (b :: l'). rewrite Hb, Hl'. simpl. repeat split; [lia |].
    constructor; assumption.
Qed.

Lemma single_cell_call_total (c : SingleCell) scope ctx t (x h : Mat) (n : nat) p :
  model_cell c ->
  placeholder_scalar fd_keep_prob ctx = ok p ->
  length x = n -> length h = n ->
  exists o h', single_cell_call c scope ctx t x h = ok (o, h') /\
               length o = n /\ length h' = n.
Proof.
  intros Hc Hp Hx Hh. induction c as [units name | c IH q]; simpl.
  - eexists _, _. split; [reflexivity |]. rewrite map2_length. lia.
  - destruct Hc as [-> Hc]. destruct (IH Hc) as (o & h' & -> & Ho & Hh').
    simpl. rewrite Hp. simpl. eexists _, _. split; [reflexivity |].
    rewrite imap_length. auto.
Qed.

Lemma multi_cell_call_total (cells : list SingleCell) scope i ctx t (x : Mat)
    (hs : list Mat) (n : nat) p :
  Forall model_cell cells ->
  placeholder_scalar fd_keep_prob ctx = ok p ->
  length x = n -> Forall (fun h : Mat => length h = n) hs ->
  (i + length cells <= length hs)%nat ->
  exists o hs', multi_cell_call cells scope i ctx t x hs = ok (o, hs') /\
                length o = n /\ Forall (fun h : Mat => length h = n) hs' /\
                length hs' = length cells.
Proof.
  intros Hcells Hp. revert i x.
  induction Hcells as [| c cells Hc _ IH]; intros i x Hx Hhs Hlen;
    cbn [multi_cell_call].
  - exists x, []. repeat split; [exact Hx | constructor].
  - simpl in Hlen.
    destruct (nth_error hs i) as [cur |] eqn:Hcur.
    2:{ apply nth_error_None in Hcur. lia. }
    assert (Hcurn : length cur = n).
    { rewrite Forall_forall in Hhs. apply Hhs. eapply nth_error_In. exact Hcur. }
    destruct (single_cell_call_total c (scoped scope ("cell_" ++ string_of_nat i))
                ctx t x cur n p Hc Hp Hx Hcurn) as (o & h' & -> & Ho & Hh').
    cbn [bind ok].
    destruct (IH (S i) o Ho Hhs) as (out & hs' & -> & Hout & Hhs' & Hl); [lia |].
    cbn [bind ok]. eexists _, _. split; [reflexivity |].
    split; [exact Hout |]. split; [constructor; assumption |]. simpl. lia.
Qed.

Lemma cell_call_total (cell : RNNCell) scope ctx t (x : Mat) (s : StateV)
    (n : nat) p :
  model_rnn_cell cell ->
  placeholder_scalar fd_keep_prob ctx = ok p ->
  length x = n -> state_fits cell n s ->
  exists o s', cell_call cell scope ctx t x s = ok (o, s') /\
               length o = n /\ state_fits cell n s'.
Proof.
  intros Hcell Hp Hx Hs.
  destruct cell as [c | cells]; destruct s as [h | hs]; simpl in Hs; try contradiction.
  - destruct (single_cell_call_total c scope ctx t x h n p Hcell Hp Hx Hs)
      as (o & h' & Hcall & Ho & Hh').
    simpl. rewrite Hcall. simpl. eexists _, _. split; [reflexivity |]. auto.
  - destruct Hs as [Hlen Hhs].
    destruct (multi_cell_call_total cells (scoped scope "multi_rnn_cell") 0 ctx t x
                hs n p Hcell Hp Hx Hhs Hlen) as (o & hs' & Hcall & Ho & Hhs' & Hl).
    simpl. rewrite Hcall. simpl. eexists _, _. split; [reflexivity |].
    split; [exact Ho |]. simpl. split; [lia | exact Hhs'].
Qed.

Lemma select_rows_length (finished : list bool) (a b : Mat) (n : nat) :
  length finished = n -> length a = n -> length b = n ->
  length (select_rows finished a b) = n.
Proof.
  intros Hf Ha Hb. unfold select_rows.
  rewrite length_map, !length_combine. lia.
Qed.

Lemma select_state_fits (cell : RNNCell) (n : nat) (finished : list bool)
    (old new : StateV) :
  length finished = n ->
  state_fits cell n old -> state_fits cell n new ->
  state_fits cell n (select_state finished old new).
Proof.
  intros Hf Ho Hn.
  destruct cell as [c | cells]; destruct old as [a | la]; destruct new as [b | lb];
    simpl in *; try contradiction.
  - apply select_rows_length; assumption.
  - destruct Ho as [Hla Ha], Hn as [Hlb Hb]. split.
    + rewrite map2_length. lia.
    + eapply map2_Forall; [| exact Ha | exact Hb].
      intros x y Hx Hy. apply select_rows_length; assumption.
Qed.

Lemma rnn_loop_total (cell : RNNCell) scope ctx (lens : IntVec) (t : nat)
    (xs : list Mat) (s : StateV) (n : nat) p :
  model_rnn_cell cell ->
  placeholder_scalar fd_keep_prob ctx = ok p ->
  length lens = n ->
  Forall (fun x : Mat => length x = n) xs -> state_fits cell n s ->
  exists os sf, rnn_loop (cell_call cell scope ctx) lens t xs s = ok (os, sf) /\
                length os = length xs /\ state_fits cell n sf.
Proof.
  intros Hcell Hp Hlens Hxs. revert t s.
  induction Hxs as [| x xs Hx _ IH]; intros t s Hs; simpl.
  - exists [], s. auto.
  - destruct (cell_call_total cell scope ctx t x s n p Hcell Hp Hx Hs)
      as (o & s' & -> & Ho & Hs').
    simpl.
    destruct (IH (S t) (select_state (map (fun l => l <=? Z.of_nat t) lens) s s'))
      as (os & sf & -> & Hos & Hsf).
    { apply select_state_fits; [rewrite length_map; exact Hlens | |]; assumption. }
    simpl. eexists _, _. split; [reflexivity |]. simpl. auto.
Qed.

Lemma time_major_rows (inputs : Tensor3) :
  Forall (fun x : Mat => length x = length inputs) (time_major inputs).
Proof.
  unfold time_major. apply Forall_forall. intros x Hx.
  apply in_map_iff in Hx. destruct Hx as (t & <- & _). apply length_map.
Qed.

Lemma zero_state_fits (cell : RNNCell) (n : nat) : state_fits cell n (zero_state cell n).
Proof.
  destruct cell as [c | cells]; simpl.
  - apply repeat_length.
  - rewrite length_map. split; [lia |].
    apply Forall_forall. intros h Hh. apply in_map_iff in Hh.
    destruct Hh as (c & <- & _). apply repeat_length.
Qed.

Lemma state_component_rows {A} (run : Tensor (A * StateV)) ctx (a : A)
    (hs : list Mat) (i n : nat) :
  run ctx = ok (a, STuple hs) ->
  (i < length hs)%nat -> Forall (fun h : Mat => length h = n) hs ->
  rows_at ctx n (state_component run i).
Proof.
  intros Hrun Hi Hhs. unfold rows_at, state_component. rewrite Hrun. simpl.
  destruct (nth_error hs i) as [h |] eqn:Hh.
  - exists h. split; [reflexivity |].
    rewrite Forall_forall in Hhs. apply Hhs. eapply nth_error_In. exact Hh.
  - apply nth_error_None in Hh. lia.
Qed.

Lemma tf_dynamic_rnn_zero_state cell scope inputs lens :
  tf_dynamic_rnn cell scope None inputs lens
  = let run : Tensor (Tensor3 * StateV) :=
      fun ctx =>
        x <- inputs ctx ;;
        lens0 <- lens ctx ;;
        dynamic_rnn_run (cell_call cell scope ctx) (zero_state cell (length x))
                        x lens0 in
    ok (fun ctx => x <- inputs ctx ;; r <- run ctx ;; stack_outputs x (fst r),
        match cell with
        | Single _ => TTensor (state_tensor run)
        | MultiRNNCell cells =>
            TTuple (map (state_component run) (seq 0 (length cells)))
        end).
Proof. reflexivity. Qed.

Lemma width_positive {A} (x : list (list A)) (n w : nat) :
  length x = n -> Forall (fun row => length row = w) x ->
  (0 < n)%nat -> (0 < w)%nat -> Nat.eqb (width x) 0 = false.
Proof.
  intros Hn Hw Hn0 Hw0. destruct x as [| r x]; [simpl in Hn; lia |].
  inversion Hw; subst. simpl. apply Nat.eqb_neq. lia.
Qed.

(** [dynamic_rnn] from the zero state runs on any batch with one length
    per example, and keeps the batch size; its outputs evaluate when the
    batch has a time step. *)
Lemma tf_dynamic_rnn_total cell scope inputs lens outs st ctx (n w : nat)
    (l : IntVec) p :
  tf_dynamic_rnn cell scope None inputs lens = ok (outs, st) ->
  model_rnn_cell cell ->
  placeholder_scalar fd_keep_prob ctx = ok p ->
  shape3_at ctx n w inputs ->
  lens ctx = ok l -> length l = n ->
  ((0 < n)%nat -> (0 < w)%nat -> shape3_at ctx n w outs) /\
  state_rows_at ctx n st.
Proof.
  intros H Hcell Hp (x & Hx & Hxn & Hxw) Hl Hln.
  rewrite tf_dynamic_rnn_zero_state in H.
  set (run := fun ctx : RunCtx =>
         x <- inputs ctx ;;
         lens0 <- lens ctx ;;
         dynamic_rnn_run (cell_call cell scope ctx) (zero_state cell (length x))
                         x lens0) in *.
  destruct (rnn_loop_total cell scope ctx l 0 (time_major x)
              (zero_state cell (length x)) (length x) p Hcell Hp)
    as (os & sf & Hloop & Hos & Hsf).
  { lia. }
  { apply time_major_rows. }
  { apply zero_state_fits. }
  assert (Hrun : run ctx = ok (batch_major (length x) os, sf)).
  { unfold run. rewrite Hx, Hl. cbn [bind ok]. unfold dynamic_rnn_run.
    replace (Nat.eqb (length l) (length x)) with true
      by (symmetry; apply Nat.eqb_eq; lia).
    rewrite Hloop. reflexivity. }
  injection H as <- <-. split.
  - intros Hn0 Hw0. exists (batch_major (length x) os). rewrite Hx. cbn [bind ok].
    rewrite Hrun. cbn [bind ok fst]. unfold stack_outputs.
    rewrite (width_positive x n w Hxn Hxw Hn0 Hw0).
    split; [reflexivity |].
    destruct (batch_major_shape (length x) os) as [Hb Hrows].
    split; [lia |].
    destruct x as [| r x]; [constructor |].
    unfold time_major in Hos. rewrite length_map, length_seq in Hos.
    rewrite Hos in Hrows. simpl in Hrows. inversion Hxw; subst.
    exact Hrows.
  - rewrite Hxn in Hsf.
    destruct cell as [c | cells]; destruct sf as [h | hs]; simpl in Hsf;
      try contradiction; simpl.
    + exists h. unfold state_tensor. rewrite Hrun. split; [reflexivity | exact Hsf].
    + destruct Hsf as [Hlen Hhs]. apply Forall_forall. intros t Ht.
      apply in_map_iff in Ht. destruct Ht as (i & <- & Hi). apply in_seq in Hi.
      eapply state_component_rows; [exact Hrun | lia | exact Hhs].
Qed.

Lemma reverse_sequence_total {A} (lens : IntVec) (rows : list (list A)) (w : nat) :
  length lens = length rows ->
  Forall (fun l => 0 <= l <= Z.of_nat w) lens ->
  Forall (fun row => length row = w) rows ->
  exists rs, reverse_sequence lens rows = ok rs /\ length rs = length rows /\
             Forall (fun row => length row = w) rs.
Proof.
  revert rows. induction lens as [| l lens IH]; intros [| r rows] Hlen Hl Hr;
    simpl in Hlen; try discriminate.
  - exists []. repeat split. constructor.
  - inversion Hl as [| ? ? Hl0 Hl']; subst. inversion Hr as [| ? ? Hr0 Hr']; subst.
    destruct (IH rows) as (rs & Hrs & Hn & Hw); [lia | assumption | assumption |].
    simpl. unfold reverse_sequence_row.
    replace ((0 <=? l) && (l <=? Z.of_nat (length r))) with true
      by (symmetry; apply andb_true_iff; split; [apply Z.leb_le | apply Z.leb_le];
          lia).
    cbn [bind ok]. rewrite Hrs. cbn [bind ok].
    eexists. split; [reflexivity |]. simpl. split; [lia |].
    constructor; [| exact Hw].
    rewrite length_app, length_rev, length_firstn, length_skipn. lia.
Qed.

Lemma shape3_dense3 name units use_bias inputs ctx (n w : nat) :
  shape3_at ctx n w inputs ->
  shape3_at ctx n w (tf_layers_dense3 name units use_bias inputs).
Proof.
  intros (x & Hx & Hn & Hw). unfold shape3_at, tf_layers_dense3. rewrite Hx.
  eexists. split; [reflexivity |]. rewrite length_map. split; [exact Hn |].
  apply Forall_map. eapply Forall_impl; [| exact Hw].
  intros row Hrow. simpl. rewrite length_map. exact Hrow.
Qed.


(** The forward and the backward pass of the bidirectional layer. *)
Lemma tf_bidirectional_dynamic_rnn_total cell_fw cell_bw scope inputs lens r ctx
    (n w : nat) (l : IntVec) p :
  tf_bidirectional_dynamic_rnn cell_fw cell_bw scope inputs lens = ok r ->
  model_cell cell_fw -> model_cell cell_bw ->
  placeholder_scalar fd_keep_prob ctx = ok p ->
  shape3_at ctx n w inputs ->
  lens ctx = ok l -> length l = n ->
  Forall (fun len => 0 <= len <= Z.of_nat w) l ->
  ((0 < n)%nat -> (0 < w)%nat ->
   shape3_at ctx n w (fst (fst r)) /\ shape3_at ctx n w (snd (fst r))) /\
  state_rows_at ctx n (fst (snd r)).
Proof.
  unfold tf_bidirectional_dynamic_rnn. intros H Hfw Hbw Hp Hin Hl Hln Hrange.
  apply bind_ok in H. destruct H as ([output_fw state_fw] & Hf & H).
  apply bind_ok in H. destruct H as ([tmp state_bw] & Hb & H).
  injection H as <-. cbn [fst snd].
  destruct (tf_dynamic_rnn_total _ _ _ _ _ _ ctx n w l p Hf Hfw Hp Hin Hl Hln)
    as [Hof Hsf].
  split; [| exact Hsf]. intros Hn0 Hw0. specialize (Hof Hn0 Hw0).
  assert (Hrev : shape3_at ctx n w
                   (fun ctx => x <- inputs ctx ;; lens0 <- lens ctx ;;
                               reverse_sequence lens0 x)).
  { destruct Hin as (x & Hx & Hxn & Hxw). unfold shape3_at. rewrite Hx, Hl.
    cbn [bind ok].
    destruct (reverse_sequence_total l x w) as (rs & -> & Hrn & Hrw);
      [len_lia | assumption | assumption |].
    exists rs. split; [reflexivity |]. split; [len_lia | exact Hrw]. }
  destruct (tf_dynamic_rnn_total _ _ _ _ _ _ ctx n w l p Hb Hbw Hp Hrev Hl Hln)
    as [Hob _].
  destruct (Hob Hn0 Hw0) as (o & Ho & Hon & How).
  split; [exact Hof |].
  unfold shape3_at. rewrite Ho, Hl. cbn [bind ok].
  destruct (reverse_sequence_total l o w) as (rs & -> & Hrn & Hrw);
    [len_lia | assumption | assumption |].
  exists rs. split; [reflexivity |]. split; [len_lia | exact Hrw].
Qed.

Lemma valid_encoder_batch_spec (cfg : Config) (E : IntMat) (El : IntVec) :
  valid_encoder_batch cfg E El = true ->
  rectangular E = true /\
  forallb (forallb in_i32) E = true /\
  Forall (Forall (fun id => 0 <= id < encoder_vocab_size cfg)) E /\
  length El = length E /\
  forallb in_i32 El = true /\
  (use_bidirectional cfg = true ->
   Forall (fun l => 0 <= l <= Z.of_nat (width E)) El).
Proof.
  unfold valid_encoder_batch. intros H.
  apply andb_true_iff in H. destruct H as [H Hbi].
  apply andb_true_iff in H. destruct H as [H Hi32].
  apply andb_true_iff in H. destruct H as [H Hlen].
  apply andb_true_iff in H. destruct H as [Hrect Hids].
  split; [exact Hrect |].
  rewrite forallb_forall in Hids.
  split; [| split; [| split; [| split]]].
  - apply forallb_forall. intros row Hrow. apply forallb_forall. intros id Hid.
    specialize (Hids row Hrow). rewrite forallb_forall in Hids.
    specialize (Hids id Hid).
    apply andb_true_iff in Hids. destruct Hids as [Hids _].
    apply andb_true_iff in Hids. destruct Hids as [Hids _]. exact Hids.
  - apply Forall_forall. intros row Hrow. apply Forall_forall. intros id Hid.
    specialize (Hids row Hrow). rewrite forallb_forall in Hids.
    specialize (Hids id Hid).
    apply andb_true_iff in Hids. destruct Hids as [Hids Hhi].
    apply andb_true_iff in Hids. destruct Hids as [_ Hlo].
    apply Z.leb_le in Hlo. apply Z.ltb_lt in Hhi. lia.
  - apply Nat.eqb_eq. exact Hlen.
  - exact Hi32.
  - intros Hb. rewrite Hb in Hbi. simpl in Hbi. rewrite forallb_forall in Hbi.
    apply Forall_forall. intros l Hl. specialize (Hbi l Hl).
    apply andb_true_iff in Hbi. destruct Hbi as [Hlo Hhi].
    apply Z.leb_le in Hlo. apply Z.leb_le in Hhi. lia.
Qed.

Lemma embedding_lookup_mat_total name vocab emb (ids : Tensor IntMat) ctx
    (E : IntMat) :
  ids ctx = ok E -> rectangular E = true ->
  Forall (Forall (fun id => 0 <= id < vocab)) E ->
  shape3_at ctx (length E) (width E) (embedding_lookup_mat name vocab emb ids).
Proof.
  intros Hids Hrect Hrange. unfold shape3_at, embedding_lookup_mat. rewrite Hids.
  cbn [bind ok]. apply width_rows in Hrect.
  destruct (mapM_total (fun row : Mat => length row = width E)
              (mapM (embedding_row (vars ctx) name vocab emb)) E)
    as (x & Hx & Hlen & Hrows).
  - rewrite Forall_forall in *. intros row Hrow.
    destruct (mapM_total (fun _ : Vec => True)
                (embedding_row (vars ctx) name vocab emb) row)
      as (r & Hr & Hrl & _).
    + apply Forall_forall. intros id Hid.
      pose proof (Hrange row Hrow) as Hr. rewrite Forall_forall in Hr.
      specialize (Hr id Hid). unfold embedding_row.
      replace ((0 <=? id) && (id <? vocab)) with true
        by (symmetry; apply andb_true_iff; split;
            [apply Z.leb_le | apply Z.ltb_lt]; lia).
      eexists. split; [reflexivity | exact I].
    + exists r. split; [exact Hr |]. rewrite Hrl. apply Hrect. exact Hrow.
  - exists x. auto.
Qed.





Section Softmax.
Local Open Scope R_scope.

Lemma Rsum_nonneg (l : Vec) : Forall (fun x => 0 <= x) l -> 0 <= Rsum l.
Proof.
  induction 1 as [| x l Hx _ IH]; simpl; [lra |]. lra.
Qed.

Lemma Rsum_ge_member (l : Vec) (x : R) :
  Forall (fun y => 0 <= y) l -> In x l -> x <= Rsum l.
Proof.
  induction 1 as [| y l Hy Hl IH]; simpl; [tauto |].
  pose proof (Rsum_nonneg l Hl) as Hs.
  intros [-> | Hin]; [lra |]. specialize (IH Hin). lra.
Qed.

Lemma softmax_length (logits : Vec) : length (softmax logits) = length logits.
Proof. unfold softmax. apply length_map. Qed.

(** Every probability of a softmax lies in [0, 1]. *)
Lemma softmax_bounds (logits : Vec) : Forall (fun p => 0 <= p <= 1) (softmax logits).
Proof.
  unfold softmax. apply Forall_forall. intros p Hp.
  apply in_map_iff in Hp. destruct Hp as (x & <- & Hx).
  assert (Hpos : Forall (fun y => 0 <= y) (map exp logits)).
  { apply Forall_forall. intros y Hy. apply in_map_iff in Hy.
    destruct Hy as (z & <- & _). left. apply exp_pos. }
  assert (Hle : exp x <= Rsum (map exp logits)).
  { apply Rsum_ge_member; [exact Hpos |]. apply in_map. exact Hx. }
  pose proof (exp_pos x) as Hex.
  set (s := Rsum (map exp logits)) in *.
  assert (Hs : 0 < s) by lra.
  pose proof (Rinv_0_lt_compat s Hs) as Hinv.
  unfold Rdiv. split.
  - apply Rmult_le_pos; lra.
  - replace 1 with (s * / s) by (apply Rinv_r; lra).
    apply Rmult_le_compat_r; lra.
Qed.

Lemma nth_bounds (p : Vec) (i : nat) :
  Forall (fun s => 0 <= s <= 1) p -> 0 <= nth i p 0 <= 1.
Proof.
  intros Hp. destruct (Nat.lt_ge_cases i (length p)) as [Hi | Hi].
  - rewrite Forall_forall in Hp. apply Hp. apply nth_In. exact Hi.
  - rewrite nth_overflow by exact Hi. lra.
Qed.

End Softmax.


Lemma embed_tokens_total (cfg : Config) ctx (tokens : IntVec) :
  Forall (fun p => 0 <= p < decoder_vocab_size cfg) tokens ->
  exists x, embed_tokens cfg ctx tokens = ok x /\ length x = length tokens.
Proof.
  intros Htokens. unfold embed_tokens.
  destruct (mapM_total (fun _ : Vec => True)
              (embedding_row (vars ctx) "decoder/embedding" (decoder_vocab_size cfg)
                             (embedding_size cfg)) tokens) as (x & Hx & Hlen & _).
  - eapply Forall_impl; [| exact Htokens]. intros id Hid. cbv beta in Hid.
    unfold embedding_row.
    replace ((0 <=? id) && (id <? decoder_vocab_size cfg)) with true
      by (symmetry; apply andb_true_iff; split;
          [apply Z.leb_le | apply Z.ltb_lt]; lia).
    eexists. split; [reflexivity | exact I].
  - exists x. auto.
Qed.



Lemma firstn_Forall {A} (P : A -> Prop) (k : nat) (l : list A) :
  Forall P l -> Forall P (firstn k l).
Proof.
  intros H. revert k. induction H as [| a l Ha _ IH]; intros [| k]; simpl;
    constructor; auto.
Qed.



Lemma batch_size_valid (mode : string) ctx (E : IntMat) (El : IntVec) cfg :
  fd_encoder_inputs (feed ctx) = Some E ->
  valid_encoder_batch cfg E El = true ->
  batch_size (build_placeholders mode) ctx = ok (length E).
Proof.
  intros HfE Hvalid.
  destruct (valid_encoder_batch_spec cfg E El Hvalid) as (Hrect & Hi32 & _).
  unfold build_placeholders. destruct (String.eqb mode "train"); simpl;
    rewrite (placeholder_mat_fed fd_encoder_inputs ctx E HfE Hrect Hi32);
    reflexivity.
Qed.


(** ** One model per graph *)

Section Adds.

Variable P : string -> Prop.

Lemma adds_ok {A} (c : Build A) g r g' :
  adds P c -> c g = (r, g') ->
  exists added, g' = g ++ added /\ Forall (fun v : string * bool => P (fst v)) added.
Proof. intros Hc H. destruct (Hc g) as (d & Hd & HP). rewrite H in Hd. eauto. Qed.

Lemma adds_nothing {A} (c : Build A) : (forall g, snd (c g) = g) -> adds P c.
Proof.
  intros H g. exists []. rewrite H, app_nil_r. split; [reflexivity | constructor].
Qed.

Lemma adds_bret {A} (a : A) : adds P (bret a).
Proof. apply adds_nothing. reflexivity. Qed.

Lemma adds_lift {A} (r : result A) : adds P (lift r).
Proof. apply adds_nothing. reflexivity. Qed.

Lemma adds_get_graph : adds P get_graph.
Proof. apply adds_nothing. reflexivity. Qed.

Lemma adds_bbind {A B} (c : Build A) (k : A -> Build B) :
  adds P c -> (forall a, adds P (k a)) -> adds P (bbind c k).
Proof.
  intros Hc Hk g. unfold bbind. destruct (Hc g) as (d & Hd & HP).
  destruct (c g) as [[e | a] g1]; simpl in Hd; subst g1.
  - exists d. split; [reflexivity | exact HP].
  - destruct (Hk a (g ++ d)) as (d' & Hd' & HP'). exists (d ++ d').
    rewrite Hd'. split; [apply eq_sym, app_assoc |].
    apply Forall_app. split; assumption.
Qed.

Lemma adds_tf_Variable name trainable : P name -> adds P (tf_Variable name trainable).
Proof. intros HP g. eexists. split; [reflexivity |]. repeat constructor. exact HP. Qed.

Lemma adds_tf_get_variable name : P name -> adds P (tf_get_variable name).
Proof.
  intros HP g. unfold tf_get_variable. destruct (has_variable g name).
  - exists []. simpl. rewrite app_nil_r. split; [reflexivity | constructor].
  - eexists. split; [reflexivity |]. repeat constructor. exact HP.
Qed.

Lemma adds_names (names : list string) :
  Forall P names ->
  Forall (fun v : string * bool => P (fst v)) (map (fun n => (n, true)) names).
Proof.
  intros H. apply Forall_map. eapply Forall_impl; [| exact H]. intros n Hn. exact Hn.
Qed.

Lemma adds_layer_variables names auto_reuse :
  Forall P names -> adds P (layer_variables names auto_reuse).
Proof.
  intros HP g. unfold layer_variables.
  destruct (existsb (has_variable g) names); [destruct auto_reuse |];
    try (exists []; simpl; rewrite app_nil_r; split; [reflexivity | constructor]).
  eexists. split; [reflexivity |]. apply adds_names. exact HP.
Qed.

Lemma adds_cell_variables names : Forall P names -> adds P (cell_variables names).
Proof.
  intros HP g. eexists. split; [reflexivity |]. apply adds_names.
  rewrite Forall_forall in *. intros n Hn. apply filter_In in Hn. apply HP, Hn.
Qed.

Lemma adds_for_loop {S} (body : nat -> S -> Build S) (iterations : list nat) st :
  (forall t s, adds P (body t s)) -> adds P (for_loop body iterations st).
Proof.
  intros Hbody. revert st. induction iterations as [| t rest IH]; intros st; simpl.
  - apply adds_bret.
  - apply adds_bbind; [apply Hbody | exact IH].
Qed.

Lemma adds_dynamic_rnn cell scope init inputs lens :
  Forall P (rnn_variable_names cell scope) ->
  adds P (dynamic_rnn cell scope init inputs lens).
Proof.
  intros HP. unfold dynamic_rnn.
  apply adds_bbind; [apply adds_lift | intros r].
  apply adds_bbind; [apply adds_cell_variables; exact HP | intros u].
  apply adds_bret.
Qed.

Lemma adds_bidirectional_dynamic_rnn cell_fw cell_bw scope inputs lens :
  Forall P (rnn_variable_names (Single cell_fw) (scoped scope "fw")) ->
  Forall P (rnn_variable_names (Single cell_bw) (scoped scope "bw")) ->
  adds P (bidirectional_dynamic_rnn cell_fw cell_bw scope inputs lens).
Proof.
  intros Hfw Hbw. unfold bidirectional_dynamic_rnn.
  apply adds_bbind; [apply adds_lift | intros r].
  apply adds_bbind; [apply adds_cell_variables; exact Hfw | intros u].
  apply adds_bbind; [apply adds_cell_variables; exact Hbw | intros u'].
  apply adds_bret.
Qed.

End Adds.

Lemma grows_ok {A} (c : Build A) g r g' :
  grows c -> c g = (r, g') -> exists added, g' = g ++ added.
Proof. intros Hc H. destruct (adds_ok _ _ _ _ _ Hc H) as (d & Hd & _). eauto. Qed.

Lemma adds_adam_slots names : grows (adam_slots names).
Proof.
  intros g. eexists. split; [reflexivity |]. apply Forall_forall. intros; exact I.
Qed.

(** Going through a construction stage by stage; what is left are the
    conditions on the names. *)
Ltac adds_step :=
  first [ apply adds_bret | apply adds_lift | apply adds_get_graph
        | apply adds_tf_Variable | apply adds_tf_get_variable
        | apply adds_layer_variables | apply adds_cell_variables
        | apply adds_adam_slots
        | apply adds_dynamic_rnn | apply adds_bidirectional_dynamic_rnn
        | apply adds_for_loop; intros
        | apply adds_bbind; [| intros]
        | match goal with
          | |- adds _ (match ?x with _ => _ end) => destruct x
          | |- adds _ (if ?b then _ else _) => destruct b
          end ].

Ltac adds_tac := cbv zeta; repeat (adds_step; cbv zeta).

Ltac grows_tac :=
  unfold grows; adds_tac; try exact I; try (apply Forall_forall; intros; exact I).

Lemma grows_build_decoder (cfg : Config) mode ph enc :
  grows (build_decoder cfg mode ph enc).
Proof. unfold build_decoder, decoder_loop_body. grows_tac. Qed.

Lemma grows_build_optimizer (cfg : Config) mode dec :
  grows (build_optimizer cfg mode dec).
Proof. unfold build_optimizer. grows_tac. Qed.

Lemma has_variable_app (g added : Graph) name :
  has_variable (g ++ added) name = has_variable g name || has_variable added name.
Proof. unfold has_variable. apply existsb_app. Qed.

(** A graph in which [build_encoder] has run holds the encoder's
    embedding. *)
Lemma build_encoder_embedding (cfg : Config) ph g enc g' :
  build_encoder cfg ph g = (inr enc, g') ->
  has_variable g' "encoder/embedding" = true.
Proof.
  unfold build_encoder. intros H.
  apply bbind_ok in H. destruct H as (emb & g1 & Hemb & H).
  assert (Hg1 : has_variable g1 "encoder/embedding" = true).
  { unfold tf_get_variable in Hemb.
    change (scoped "encoder" "embedding") with "encoder/embedding"%string in Hemb.
    destruct (has_variable g "encoder/embedding"); [discriminate |].
    injection Hemb as _ <-. rewrite has_variable_app. simpl.
    apply orb_true_r. }
  match type of H with
  | ?c g1 = _ => assert (Hc : grows c)
  end.
  { grows_tac. }
  destruct (grows_ok _ _ _ _ Hc H) as (added & ->).
  rewrite has_variable_app, Hg1. reflexivity.
Qed.

Lemma build_encoder_twice (cfg : Config) ph g :
  has_variable g "encoder/embedding" = true ->
  build_encoder cfg ph g = (inl ValueError, g).
Proof.
  intros H. unfold build_encoder. apply bbind_raise.
  unfold tf_get_variable.
  change (scoped "encoder" "embedding") with "encoder/embedding"%string.
  rewrite H. reflexivity.
Qed.

(** X1. A second model cannot be constructed in the graph of a first one:
    whatever its configuration, its constructor raises the ValueError of
    [tf.get_variable] on a name that exists (after the AssertionError of
    a bad mode). *)
Theorem one_model_per_graph (cfg : Config) (md : string) (g : Graph)
    (m : Seq2SeqModel) (g' : Graph) (cfg2 : Config) (md2 : string) :
  Seq2SeqModel_init cfg md g = (inr m, g') ->
  fst (Seq2SeqModel_init cfg2 md2 g')
  = inl (if mode_in_list (lower md2) then ValueError else AssertionError).
Proof.
  intros H. apply Seq2SeqModel_init_ok in H. destruct H as [_ H].
  apply build_graph_ok in H.
  destruct H as (g1 & enc & g2 & dec & g3 & opt & _ & Henc & Hdec & Hopt & _).
  apply build_encoder_embedding in Henc.
  destruct (grows_ok _ _ _ _ (grows_build_decoder _ _ _ _) Hdec) as (d1 & ->).
  destruct (grows_ok _ _ _ _ (grows_build_optimizer _ _ _) Hopt) as (d2 & ->).
  unfold Seq2SeqModel_init.
  destruct (mode_in_list (lower md2)); [| reflexivity].
  rewrite build_graph_stages.
  rewrite (bbind_raise _ _ _ ValueError
             (((g2 ++ d1) ++ d2) ++ [("global_step"%string, false);
                                     ("global_epoch_step"%string, false)]));
    [reflexivity |].
  apply build_encoder_twice. rewrite !has_variable_app, Henc. reflexivity.
Qed.

(** ** The depths a model can have *)

(** The final state of the encoder has [encoder_depth] tensors; a
    bidirectional encoder of depth 1 or less has one. *)
Lemma encoder_last_state_size (cfg : Config) ph g enc g' :
  build_encoder cfg ph g = (inr enc, g') ->
  exists hs, encoder_last_state enc = TTuple hs /\
             Z.of_nat (length hs) = Z.max 1 (encoder_depth cfg) /\
             (use_bidirectional cfg = false -> 1 <= encoder_depth cfg).
Proof.
  unfold build_encoder. intros H.
  apply bbind_ok in H. destruct H as (emb & g1 & _ & H).
  apply bbind_ok in H. destruct H as (u & g2 & _ & H).
  destruct (use_bidirectional cfg).
  - apply bbind_ok in H.
    destruct H as ([[fw_outputs bw_outputs] [fw_state bw_state]] & g3 & Hbidi & H).
    apply bidirectional_dynamic_rnn_ok in Hbidi.
    destruct Hbidi as (_ & fw & bw & Hst). simpl in Hst.
    injection Hst as -> ->.
    apply bbind_ok in H. destruct H as (u1 & g4 & _ & H).
    apply bbind_ok in H. destruct H as (upper & g5 & Hupper & H).
    apply lift_ok in Hupper. destruct Hupper as [Hupper ->]. simpl in H.
    destruct (2 <? encoder_depth cfg) eqn:Hgt.
    + apply Z.ltb_lt in Hgt.
      apply bind_ok in Hupper. destruct Hupper as (cell & Hcell & Hsome).
      injection Hsome as <-.
      destruct (build_encoder_cell_ok _ _ _ _ Hcell) as (cells & -> & Hlen); [lia |].
      apply bbind_ok in H. destruct H as ([uo us] & g6 & Hrnn & H).
      apply dynamic_rnn_ok in Hrnn. rewrite tf_dynamic_rnn_zero_state in Hrnn.
      cbv zeta in Hrnn. injection Hrnn as _ <-.
      apply bbind_ok in H. destruct H as (fw' & g7 & Hfw & H).
      apply lift_ok in Hfw. destruct Hfw as [Hfw ->]. injection Hfw as <-.
      apply bbind_ok in H. destruct H as (up & g8 & Hup & H).
      apply lift_ok in Hup. destruct Hup as [Hup ->].
      replace (encoder_depth cfg =? 2) with false in Hup
        by (symmetry; apply Z.eqb_neq; lia).
      injection Hup as <-.
      apply bret_ok in H. destruct H as [-> _]. simpl.
      eexists. split; [reflexivity |]. split; [| discriminate].
      simpl length. rewrite length_map, length_seq, Hlen. lia.
    + apply Z.ltb_ge in Hgt. destruct (encoder_depth cfg =? 2) eqn:Heq.
      * apply Z.eqb_eq in Heq. injection Hupper as <-.
        apply bbind_ok in H. destruct H as ([uo us] & g6 & Hrnn & H).
        apply dynamic_rnn_ok in Hrnn. rewrite tf_dynamic_rnn_zero_state in Hrnn.
        cbv zeta in Hrnn. injection Hrnn as _ <-.
        apply bbind_ok in H. destruct H as (fw' & g7 & Hfw & H).
        apply lift_ok in Hfw. destruct Hfw as [Hfw ->]. injection Hfw as <-.
        apply bbind_ok in H. destruct H as (up & g8 & Hup & H).
        apply lift_ok in Hup. destruct Hup as [Hup ->]. injection Hup as <-.
        apply bret_ok in H. destruct H as [-> _]. simpl.
        eexists. split; [reflexivity |]. split; [simpl; lia | discriminate].
      * apply Z.eqb_neq in Heq. injection Hupper as <-.
        apply bbind_ok in H. destruct H as (fw' & g7 & Hfw & H).
        apply lift_ok in Hfw. destruct Hfw as [Hfw ->]. injection Hfw as <-.
        apply bret_ok in H. destruct H as [-> _]. simpl.
        eexists. split; [reflexivity |]. split; [simpl; lia | discriminate].
  - apply bbind_ok in H. destruct H as (cell & g3 & Hcell & H).
    apply lift_ok in Hcell. destruct Hcell as [Hcell ->].
    apply bbind_ok in H. destruct H as ([eo es] & g4 & Hrnn & H).
    apply bret_ok in H. destruct H as [-> _]. cbn [encoder_last_state].
    apply dynamic_rnn_ok in Hrnn.
    unfold build_encoder_cell, new_MultiRNNCell, depth_or, range in Hcell.
    destruct (map _ _) as [| c cs] eqn:Hcells; [discriminate |].
    injection Hcell as <-.
    assert (Hlen : length (c :: cs) = Z.to_nat (encoder_depth cfg))
      by (rewrite <- Hcells, length_map, length_seq; reflexivity).
    assert (Hpos : (0 < length (c :: cs))%nat) by (simpl; lia).
    remember (c :: cs) as cells eqn:Hcs. clear Hcs Hcells.
    rewrite tf_dynamic_rnn_zero_state in Hrnn. cbv zeta in Hrnn.
    injection Hrnn as _ <-.
    eexists. split; [reflexivity |].
    rewrite length_map, length_seq, Hlen. lia.
Qed.

(** X2. A model exists only if its decoder has at least one layer and its
    unidirectional encoder too; a train-mode model only if the decoder
    has exactly as many layers as the final state of the encoder has
    tensors (the initial state of [dynamic_rnn] must have the structure
    of the cell's state); an inference-mode model only if it has no
    more (the cell reads the state tensors of its own layers). *)
Theorem depths_must_agree (cfg : Config) (md : string) (g : Graph)
    (m : Seq2SeqModel) (g' : Graph) :
  Seq2SeqModel_init cfg md g = (inr m, g') ->
  1 <= decoder_depth cfg /\
  (use_bidirectional cfg = false -> 1 <= encoder_depth cfg) /\
  if String.eqb (lower md) "train"
  then decoder_depth cfg = Z.max 1 (encoder_depth cfg)
  else decoder_depth cfg <= Z.max 1 (encoder_depth cfg).
Proof.
  intros H. apply Seq2SeqModel_init_ok in H. destruct H as [Hmode H].
  apply build_graph_ok in H.
  destruct H as (g1 & enc & g2 & dec & g3 & opt & _ & Henc & Hdec & _ & _).
  destruct (encoder_last_state_size _ _ _ _ _ Henc) as (hs & Hhs & Hsize & Huni).
  destruct Hmode as [Hmode | Hmode]; rewrite Hmode in *; simpl String.eqb; cbv iota.
  - destruct (build_decoder_train_inv _ _ _ _ _ Hdec)
      as (cell & st & Hcell & Hrnn & _).
    destruct (build_decoder_cell_multi _ _ _ Hcell) as (cells & -> & Hpos & Hlen).
    unfold tf_dynamic_rnn in Hrnn. apply bind_ok in Hrnn.
    destruct Hrnn as (u & Hcheck & _). rewrite Hhs in Hcheck.
    unfold check_state_structure in Hcheck.
    destruct (Nat.ltb_spec (length hs) (length cells)); [discriminate |].
    destruct (Nat.ltb_spec (length cells) (length hs)); [discriminate |].
    split; [lia |]. split; [exact Huni | lia].
  - destruct (build_decoder_inference_inv _ _ _ _ _ _ _ Hdec Hhs)
      as (cells & Hcell & _ & _ & Hle & _).
    destruct (build_decoder_cell_multi _ _ _ Hcell) as (cells' & Heq & Hpos & Hlen).
    injection Heq as ->.
    split; [lia |]. split; [exact Huni | lia].
Qed.

(** ** One training step *)

(** X3. A successful [train] call advances [global_step] by one (an int32
    sum) and leaves [global_epoch_step] alone; the loss it returns is
    the loss before the update: with a dropout rate of 0 it is the loss
    that [eval] returns for the same batch on the session as it was,
    whatever the dropout samples. *)
Theorem train_step (cfg : Config) (md : string) (g : Graph) (m : Seq2SeqModel)
    (g' : Graph) (sess sess' : Session) (w : Noise)
    (E : IntMat) (El : IntVec) (D : IntMat) (Dl : IntVec) (l : R) :
  Seq2SeqModel_init cfg md g = (inr m, g') ->
  train m sess w E El D Dl = ok (l, sess') ->
  sess_global_step sess' = add_i32 (sess_global_step sess) 1 /\
  sess_global_epoch_step sess' = sess_global_epoch_step sess /\
  (dropout_rate cfg = 0%R -> unit_noise w ->
   forall w', unit_noise w' -> eval m sess w' E El D Dl = ok (l, sess)).
Proof.
  intros H Htrain.
  apply Seq2SeqModel_init_ok in H. destruct H as [[Hmd | Hmd] H]; rewrite Hmd in H.
  - destruct (train_loss_noise_free _ _ _ _ H) as (lt & Hl & Hfree).
    apply build_graph_ok in H.
    destruct H as (g1 & enc & g2 & dec & g3 & opt & _ & _ & _ & Hopt & ->).
    apply build_optimizer_train in Hopt.
    destruct Hopt as (l0 & _ & _ & _ & _ & Hop).
    cbn [decoder] in Hl.
    unfold train, eval in *. cbn [decoder optimization placeholders config] in *.
    rewrite Hl, Hop in *.
    destruct (attr (decoder_inputs_length (build_placeholders "train")))
      as [e | dl]; [discriminate |].
    cbn [bind attr ok] in *.
    match type of Htrain with
    | context [lt ?c] => set (ctx1 := c) in *
    end.
    destruct (lt ctx1) as [e | v] eqn:Hv; [discriminate |].
    cbn [bind ok] in Htrain.
    destruct (fetch (clip_gradients opt) ctx1) as [e | gs]; [discriminate |].
    cbn [bind ok] in Htrain. injection Htrain as <- <-.
    split; [reflexivity |]. split; [reflexivity |].
    intros Hrate Hw w' Hw'.
    match goal with
    | |- context [lt ?c] => set (ctx2 := c)
    end.
    assert (Hag : ctx_agree ctx1 ctx2).
    { unfold ctx_agree, ctx1, ctx2, run_ctx. cbn [feed vars noise fd_keep_prob].
      rewrite Hrate, Rminus_0_r. auto. }
    rewrite <- (Hfree ctx1 ctx2 Hag), Hv. reflexivity.
  - exfalso. apply build_graph_ok in H.
    destruct H as (g1 & enc & g2 & dec & g3 & opt & _ & _ & Hdec & _ & ->).
    apply build_decoder_inference in Hdec. destruct Hdec as [Hl _].
    unfold train in Htrain. simpl in Htrain. try rewrite Hl in Htrain.
    discriminate.
Qed.

(** ** Batches that do not match *)

Lemma decoder_inputs_train_mismatch ctx (E D : IntMat) :
  fd_encoder_inputs (feed ctx) = Some E ->
  fd_decoder_inputs (feed ctx) = Some D ->
  rectangular E && forallb (forallb in_i32) E = true ->
  rectangular D && forallb (forallb in_i32) D = true ->
  length E <> length D ->
  fetch (decoder_inputs_train (build_placeholders "train")) ctx
  = inl InvalidArgumentError.
Proof.
  intros HE HD HvE HvD Hne.
  apply andb_prop in HvE. destruct HvE as [HrE HiE].
  apply andb_prop in HvD. destruct HvD as [HrD HiD].
  unfold build_placeholders, fetch. simpl.
  rewrite (placeholder_mat_fed fd_encoder_inputs ctx E HE HrE HiE).
  rewrite (placeholder_mat_fed fd_decoder_inputs ctx D HD HrD HiD).
  simpl. unfold tf_concat_last, ones_times_col.
  rewrite repeat_length.
  replace (Nat.eqb (length E) (length D)) with false
    by (symmetry; apply Nat.eqb_neq; exact Hne).
  reflexivity.
Qed.

(** The loss of a train-mode model evaluates the training input of the
    decoder first. *)
Lemma train_loss_inputs (cfg : Config) (g : Graph) m g' ctx e :
  build_graph cfg "train" g = (inr m, g') ->
  fetch (decoder_inputs_train (build_placeholders "train")) ctx = inl e ->
  fetch (loss (decoder m)) ctx = inl e.
Proof.
  intros H Hin. apply build_graph_ok in H.
  destruct H as (g1 & enc & g2 & dec & g3 & opt & _ & _ & Hdec & _ & ->).
  destruct (build_decoder_train_inv _ _ _ _ _ Hdec)
    as (cell & st & _ & Hrnn & Hlogits & _ & Hloss).
  cbn [decoder]. rewrite Hloss. unfold fetch at 1. cbn [attr bind ok].
  rewrite Hlogits. unfold tf_layers_dense3.
  unfold tf_dynamic_rnn in Hrnn. apply bind_ok in Hrnn.
  destruct Hrnn as (u & _ & Hrnn). injection Hrnn as Houts _.
  rewrite <- Houts. unfold embedding_lookup_mat. cbv beta.
  match goal with
  | |- context [fetch (Some ?t) ctx] =>
      change (fetch (Some t) ctx)
        with (fetch (decoder_inputs_train (build_placeholders "train")) ctx)
  end.
  rewrite Hin. reflexivity.
Qed.

(** X4. The GO column of the training input has one row per encoder example:
    when a well-formed decoder batch has another number of examples than
    the encoder batch, [train] and [eval] raise InvalidArgumentError (and
    [train] updates nothing). *)
Theorem batch_sizes_must_agree (cfg : Config) (md : string) (g : Graph)
    (m : Seq2SeqModel) (g' : Graph) (sess : Session) (w : Noise)
    (E : IntMat) (El : IntVec) (D : IntMat) (Dl : IntVec) :
  Seq2SeqModel_init cfg md g = (inr m, g') ->
  lower md = "train"%string ->
  rectangular E && forallb (forallb in_i32) E = true ->
  rectangular D && forallb (forallb in_i32) D = true ->
  length E <> length D ->
  train m sess w E El D Dl = inl InvalidArgumentError /\
  eval m sess w E El D Dl = inl InvalidArgumentError.
Proof.
  intros H Hmd HvE HvD Hne.
  apply Seq2SeqModel_init_ok in H. destruct H as [_ H]. rewrite Hmd in H.
  assert (Hloss : forall ctx,
             fd_encoder_inputs (feed ctx) = Some E ->
             fd_decoder_inputs (feed ctx) = Some D ->
             fetch (loss (decoder m)) ctx = inl InvalidArgumentError).
  { intros ctx HE HD. eapply train_loss_inputs; [exact H |].
    eapply decoder_inputs_train_mismatch; eassumption. }
  apply build_graph_ok in H.
  destruct H as (g1 & enc & g2 & dec & g3 & opt & _ & _ & _ & Hopt & ->).
  apply build_optimizer_train in Hopt.
  destruct Hopt as (l0 & Hl0 & _ & _ & _ & Hop).
  cbn [decoder] in Hloss.
  unfold train, eval. cbn [decoder optimization placeholders config].
  split.
  - match goal with
    | |- context [run_ctx sess ?f w] =>
        specialize (Hloss (run_ctx sess f w) eq_refl eq_refl)
    end.
    rewrite Hl0, Hop in *. unfold fetch in Hloss. cbn [attr bind ok] in *.
    rewrite Hloss. reflexivity.
  - match goal with
    | |- context [run_ctx sess ?f w] =>
        specialize (Hloss (run_ctx sess f w) eq_refl eq_refl)
    end.
    rewrite Hl0 in *. unfold fetch in Hloss. cbn [attr bind ok] in *.
    rewrite Hloss. reflexivity.
Qed.

(** ** The target that closes an example *)

Lemma sequence_mask_row_length (maxlen : nat) (len : Z) :
  length (sequence_mask_row maxlen len) = maxlen.
Proof. unfold sequence_mask_row. rewrite length_map, length_seq. reflexivity. Qed.

(** The weight of a position, inside the mask or past its end. *)
Lemma sequence_mask_row_weight (maxlen : nat) (len : Z) (j : nat) :
  len <= Z.of_nat maxlen ->
  nth j (sequence_mask_row maxlen len) 0%R
  = (if Z.of_nat j <? len then 1 else 0)%R.
Proof.
  intros Hlen. destruct (Nat.lt_ge_cases j maxlen) as [Hj | Hj].
  - apply sequence_mask_row_nth. exact Hj.
  - rewrite nth_overflow by (rewrite sequence_mask_row_length; exact Hj).
    destruct (Z.ltb_spec (Z.of_nat j) len); [lia | reflexivity].
Qed.

(** X5. In training, the EOS column stands behind the padding.  For an
    example of fed length [l] in a fed row [d]: the target at position
    [length d] is EOS, and it has weight 1 only if [l] reaches the end of
    the row, weight 0 otherwise; a shorter example has, at its last
    weighted position [l], the token that was fed there (the padding)
    as its target. *)
Theorem eos_target_weight (cfg : Config) (md : string) (g : Graph)
    (m : Seq2SeqModel) (g' : Graph) (ctx : RunCtx) (E D : IntMat) (L : IntVec)
    (b : nat) (d : list Z) (l : Z) :
  Seq2SeqModel_init cfg md g = (inr m, g') ->
  lower md = "train"%string ->
  encoder_inputs (placeholders m) ctx = ok E ->
  decoder_inputs (placeholders m) ctx = ok D ->
  fetch (decoder_inputs_length (placeholders m)) ctx = ok L ->
  length E = length D ->
  Forall (fun l => 0 <= l < max_i32) L ->
  nth_error D b = Some d -> nth_error L b = Some l ->
  exists T M t weights,
    fetch (decoder_targets_train (placeholders m)) ctx = ok T /\
    fetch (decoder_masks (decoder m)) ctx = ok M /\
    nth_error T b = Some t /\ nth_error M b = Some weights /\
    nth (length d) t 0 = EOS /\
    nth (length d) weights 0%R = (if Z.of_nat (length d) <=? l then 1 else 0)%R /\
    (l < Z.of_nat (length d) ->
     nth (Z.to_nat l) t 0 = nth (Z.to_nat l) d 0 /\
     nth (Z.to_nat l) weights 0%R = 1%R).
Proof.
  intros H Hmd HE HD HL HED Hrange Hd Hl.
  apply Seq2SeqModel_init_ok in H. destruct H as [_ H].
  rewrite Hmd in H. apply build_graph_ok in H.
  destruct H as (g1 & enc & g2 & dec & g3 & opt & _ & _ & Hdec & _ & ->).
  simpl in *.
  apply build_decoder_train_inv in Hdec.
  destruct Hdec as (cell & st & _ & _ & _ & Hmasks & _).
  assert (Hlt : Forall (fun l => l < max_i32) L).
  { eapply Forall_impl; [| exact Hrange]. intros; simpl in *; lia. }
  destruct (train_placeholders_eval ctx E D L HE HD HL HED Hlt)
    as (_ & Htt & Hitl & Httl).
  set (lengths := map (fun l => l + 1) L) in *.
  set (maxlen := tf_reduce_max_int lengths).
  assert (Hmax : l + 1 <= maxlen).
  { apply tf_reduce_max_int_ge. unfold lengths. apply in_map_iff.
    exists l. split; [reflexivity |]. eapply nth_error_In. exact Hl. }
  assert (Hl0 : 0 <= l).
  { rewrite Forall_forall in Hrange. apply (Hrange l).
    eapply nth_error_In. exact Hl. }
  exists (map (fun row => row ++ [EOS]) D),
         (map (sequence_mask_row (Z.to_nat maxlen)) lengths),
         (d ++ [EOS]), (sequence_mask_row (Z.to_nat maxlen) (l + 1)).
  split; [exact Htt |]. split.
  { rewrite Hmasks. fetch_some. rewrite Hitl, Httl. simpl.
    unfold tf_sequence_mask. fold maxlen.
    destruct (Z.ltb_spec maxlen 0) as [Hneg | _]; [lia | reflexivity]. }
  split; [apply (map_nth_error (fun row => row ++ [EOS])); exact Hd |].
  split.
  { unfold lengths. rewrite map_map.
    apply (map_nth_error (fun x => sequence_mask_row (Z.to_nat maxlen) (x + 1))).
    exact Hl. }
  split.
  { rewrite app_nth2 by lia. rewrite Nat.sub_diag. reflexivity. }
  split.
  { rewrite sequence_mask_row_weight by lia.
    destruct (Z.ltb_spec (Z.of_nat (length d)) (l + 1));
      destruct (Z.leb_spec (Z.of_nat (length d)) l); try reflexivity; lia. }
  intros Hshort. split.
  - apply app_nth1. lia.
  - rewrite sequence_mask_row_weight by lia.
    destruct (Z.ltb_spec (Z.of_nat (Z.to_nat l)) (l + 1)); [reflexivity | lia].
Qed.

(** ** Inference and the dropout samples *)

Lemma greedy_cell_agree (cfg : Config) (cells : list SingleCell)
    (batch : Tensor nat) (init : Tensor StateV) (k : nat) ctx ctx' :
  Forall model_cell cells -> noise_free batch -> noise_free init ->
  ctx_agree ctx ctx' ->
  greedy_cell cfg (MultiRNNCell cells) batch init k ctx
  = greedy_cell cfg (MultiRNNCell cells) batch init k ctx'.
Proof.
  intros Hcells Hbatch Hinit Hag.
  pose proof (cell_call_agree (MultiRNNCell cells) "decoder" ctx ctx' Hcells Hag)
    as Hcall.
  assert (Hvars : vars ctx = vars ctx') by (destruct Hag as (_ & Hv & _); exact Hv).
  induction k as [| k IH]; cbn [greedy_cell].
  - rewrite (Hbatch ctx ctx' Hag), (Hinit ctx ctx' Hag), Hcall.
    unfold embed_tokens. rewrite Hvars. reflexivity.
  - rewrite IH, Hcall. unfold greedy_choice, project_logits, embed_tokens.
    rewrite Hvars. reflexivity.
Qed.

Lemma greedy_step_agree (cfg : Config) (cells : list SingleCell)
    (batch : Tensor nat) (init : Tensor StateV) (k : nat) ctx ctx' :
  Forall model_cell cells -> noise_free batch -> noise_free init ->
  ctx_agree ctx ctx' ->
  greedy_step cfg (MultiRNNCell cells) batch init k ctx
  = greedy_step cfg (MultiRNNCell cells) batch init k ctx'.
Proof.
  intros Hcells Hbatch Hinit Hag. unfold greedy_step.
  rewrite (greedy_cell_agree cfg cells batch init k ctx ctx') by assumption.
  unfold greedy_choice, project_logits.
  destruct Hag as (_ & -> & _). reflexivity.
Qed.

(** X6. [inference] feeds keep-probability 1: what it returns, predictions,
    scores or an exception, does not depend on the samples that the
    dropout ops of the graph draw. *)
Theorem inference_ignores_dropout (cfg : Config) (md : string) (g : Graph)
    (m : Seq2SeqModel) (g' : Graph) (sess : Session) (w1 w2 : Noise)
    (E : IntMat) (El : IntVec) :
  Seq2SeqModel_init cfg md g = (inr m, g') ->
  unit_noise w1 -> unit_noise w2 ->
  inference m sess w1 E El = inference m sess w2 E El.
Proof.
  intros H Hw1 Hw2.
  apply Seq2SeqModel_init_ok in H. destruct H as [[Hmd | Hmd] H]; rewrite Hmd in H;
    apply build_graph_ok in H;
    destruct H as (g1 & enc & g2 & dec & g3 & opt & _ & Henc & Hdec & _ & ->).
  - apply build_decoder_train in Hdec. destruct Hdec as (Hp & _).
    unfold inference. cbn [decoder]. rewrite Hp. reflexivity.
  - destruct (encoder_last_state_tuple _ _ _ _ _ Henc) as (hs0 & Hhs0).
    pose proof (build_encoder_noise_free _ _ _ _ _ Henc) as Hfree.
    rewrite Hhs0 in Hfree. simpl in Hfree.
    destruct (build_decoder_inference_inv _ _ _ _ _ _ _ Hdec Hhs0)
      as (cells & Hcellok & _ & _ & _ & _ & Hp & Hs).
    assert (Hmodel : Forall model_cell cells).
    { unfold build_decoder_cell in Hcellok.
      apply (new_MultiRNNCell_model _ _ _ _ Hcellok). }
    assert (Hbatch : noise_free (batch_size (build_placeholders "inference"))).
    { intros ctx ctx' Hag. simpl.
      rewrite (noise_free_placeholder_mat fd_encoder_inputs ctx ctx' Hag).
      reflexivity. }
    assert (Hinit : noise_free
                      (eval_state (TTuple (firstn (length cells) hs0)))).
    { apply noise_free_eval_state. simpl. apply firstn_Forall. exact Hfree. }
    unfold inference. cbn [decoder]. rewrite Hp, Hs. cbn [attr bind ok].
    match goal with
    | |- context [run_ctx sess ?f w1] =>
        set (ctx1 := run_ctx sess f w1); set (ctx2 := run_ctx sess f w2)
    end.
    assert (Hag : ctx_agree ctx1 ctx2).
    { unfold ctx_agree, ctx1, ctx2, run_ctx. simpl. auto. }
    assert (Hstep : forall k,
               greedy_step cfg (MultiRNNCell cells)
                 (batch_size (build_placeholders "inference"))
                 (eval_state (TTuple (firstn (length cells) hs0))) k ctx1
               = greedy_step cfg (MultiRNNCell cells)
                   (batch_size (build_placeholders "inference"))
                   (eval_state (TTuple (firstn (length cells) hs0))) k ctx2).
    { intros k. apply greedy_step_agree; assumption. }
    replace (fun k : nat =>
               r <- greedy_step cfg (MultiRNNCell cells)
                      (batch_size (build_placeholders "inference"))
                      (eval_state (TTuple (firstn (length cells) hs0))) k ctx1 ;;
               ok (fst r))
      with (fun k : nat =>
               r <- greedy_step cfg (MultiRNNCell cells)
                      (batch_size (build_placeholders "inference"))
                      (eval_state (TTuple (firstn (length cells) hs0))) k ctx2 ;;
               ok (fst r))
      by (apply functional_extensionality; intros k; rewrite Hstep; reflexivity).
    replace (fun k : nat =>
               r <- greedy_step cfg (MultiRNNCell cells)
                      (batch_size (build_placeholders "inference"))
                      (eval_state (TTuple (firstn (length cells) hs0))) k ctx1 ;;
               ok (snd r))
      with (fun k : nat =>
               r <- greedy_step cfg (MultiRNNCell cells)
                      (batch_size (build_placeholders "inference"))
                      (eval_state (TTuple (firstn (length cells) hs0))) k ctx2 ;;
               ok (snd r))
      by (apply functional_extensionality; intros k; rewrite Hstep; reflexivity).
    reflexivity.
Qed.

(** ** The variables of the two modes *)

(** The encoder is built from the placeholders that both modes have. *)
Lemma build_encoder_either_mode (cfg : Config) :
  build_encoder cfg (build_placeholders "train")
  = build_encoder cfg (build_placeholders "inference").
Proof. reflexivity. Qed.

Lemma build_decoder_cell_either_mode (cfg : Config) :
  build_decoder_cell cfg (build_placeholders "train") None
  = build_decoder_cell cfg (build_placeholders "inference") None.
Proof. reflexivity. Qed.

Lemma tf_get_variable_graph (name : string) g a g' :
  tf_get_variable name g = (inr a, g') -> g' = g ++ [(name, true)].
Proof.
  unfold tf_get_variable. destruct (has_variable g name); intros H;
    inversion H; reflexivity.
Qed.

Lemma has_variable_added (names : list string) (n : string) :
  In n names -> has_variable (map (fun n => (n, true)) names) n = true.
Proof.
  intros Hn. unfold has_variable. apply existsb_exists.
  exists (n, true). split; [apply in_map_iff; eauto | apply String.eqb_refl].
Qed.

(** Once a cell has been called, its variables exist. *)
Lemma cell_variables_has (names : list string) g (n : string) :
  In n names -> has_variable (snd (cell_variables names g)) n = true.
Proof.
  intros Hn. unfold cell_variables. cbn [snd]. rewrite has_variable_app.
  destruct (has_variable g n) eqn:Hg; [reflexivity |]. simpl.
  apply has_variable_added. apply filter_In. split; [exact Hn |].
  rewrite Hg. reflexivity.
Qed.

(** Calling it again creates nothing. *)
Lemma cell_variables_fixed (names : list string) g :
  Forall (fun n => has_variable g n = true) names ->
  cell_variables names g = (ok tt, g).
Proof.
  intros H. unfold cell_variables.
  replace (filter (fun n => negb (has_variable g n)) names) with (@nil string).
  - simpl. rewrite app_nil_r. reflexivity.
  - induction H as [| n names Hn _ IH]; simpl; [reflexivity |].
    rewrite Hn. simpl. exact IH.
Qed.

Lemma layer_variables_fresh (names : list string) g u g' :
  layer_variables names false g = (inr u, g') ->
  existsb (has_variable g) names = false /\
  g' = g ++ map (fun n => (n, true)) names.
Proof.
  unfold layer_variables. destruct (existsb (has_variable g) names);
    intros H; inversion H. auto.
Qed.

Lemma dynamic_rnn_graph cell scope init inputs lens g r g' :
  dynamic_rnn cell scope init inputs lens g = (inr r, g') ->
  g' = snd (cell_variables (rnn_variable_names cell scope) g).
Proof.
  unfold dynamic_rnn. intros H.
  apply bbind_ok in H. destruct H as (r0 & g1 & Hr & H).
  apply lift_ok in Hr. destruct Hr as [_ ->].
  apply bbind_ok in H. destruct H as (u & g2 & Hcv & H).
  apply bret_ok in H. destruct H as [_ ->].
  apply (f_equal snd) in Hcv. symmetry. exact Hcv.
Qed.

Lemma decoder_loop_body_graph (cfg : Config) cell emb t st g st' g' :
  decoder_loop_body cfg cell emb "decoder" t st g = (inr st', g') ->
  g' = snd (layer_variables
              (dense_variable_names (scoped "decoder" "decoder_logits") true) true
              (snd (cell_variables (rnn_variable_names cell "decoder") g))).
Proof.
  unfold decoder_loop_body. intros H.
  apply bbind_ok in H. destruct H as ([output state] & g1 & Hr & H).
  apply lift_ok in Hr. destruct Hr as [_ ->].
  apply bbind_ok in H. destruct H as (u & g2 & Hcv & H).
  apply bbind_ok in H. destruct H as (u' & g3 & Hlv & H).
  apply bret_ok in H. destruct H as [_ ->].
  apply (f_equal snd) in Hcv. cbn [snd] in Hcv. subst g2.
  apply (f_equal snd) in Hlv. symmetry. exact Hlv.
Qed.

(** After its first iteration the inference loop creates no variable. *)
Lemma for_loop_graph_fixed (cfg : Config) cell emb (its : list nat) st g st' g' :
  Forall (fun n => has_variable g n = true) (rnn_variable_names cell "decoder") ->
  existsb (has_variable g)
          (dense_variable_names (scoped "decoder" "decoder_logits") true) = true ->
  for_loop (decoder_loop_body cfg cell emb "decoder") its st g = (inr st', g') ->
  g' = g.
Proof.
  intros Hcell Hdense. revert st.
  induction its as [| t its IH]; intros st H; simpl in H.
  - apply bret_ok in H. destruct H as [_ ->]. reflexivity.
  - apply bbind_ok in H. destruct H as (st1 & g1 & Hbody & H).
    apply decoder_loop_body_graph in Hbody.
    rewrite (cell_variables_fixed _ _ Hcell) in Hbody. cbn [snd] in Hbody.
    unfold layer_variables in Hbody. rewrite Hdense in Hbody. cbn [snd] in Hbody.
    subst g1. eapply IH. exact H.
Qed.

(** From the same graph, the decoder of the two modes creates the same
    variables. *)
Lemma build_decoder_graphs (cfg : Config) enc g dec1 g1 dec2 g2 :
  build_decoder cfg "train" (build_placeholders "train") enc g = (inr dec1, g1) ->
  build_decoder cfg "inference" (build_placeholders "inference") enc g
  = (inr dec2, g2) ->
  g1 = g2.
Proof.
  intros H1 H2. unfold build_decoder in H1, H2.
  apply bbind_ok in H1. destruct H1 as (cell & ga & Hcell & H1).
  apply lift_ok in Hcell. destruct Hcell as [Hcell ->].
  apply bbind_ok in H2. destruct H2 as (cell2 & ga & Hcell2 & H2).
  apply lift_ok in Hcell2. destruct Hcell2 as [Hcell2 ->].
  rewrite <- build_decoder_cell_either_mode, Hcell in Hcell2.
  injection Hcell2 as <-.
  apply bbind_ok in H1. destruct H1 as (emb & ga & Hemb & H1).
  pose proof (tf_get_variable_ok _ _ _ _ Hemb) as ->.
  apply tf_get_variable_graph in Hemb.
  apply bbind_ok in H2. destruct H2 as (emb2 & ga2 & Hemb2 & H2).
  pose proof (tf_get_variable_ok _ _ _ _ Hemb2) as ->.
  apply tf_get_variable_graph in Hemb2. subst ga ga2.
  set (ga := g ++ [(scoped "decoder" "embedding", true)]) in *.
  change (String.eqb "train" "train") with true in H1.
  change (String.eqb "inference" "train") with false in H2.
  cbv iota in H1, H2.
  (* the train decoder *)
  apply bbind_ok in H1. destruct H1 as (it & gx & Hit & H1).
  apply lift_ok in Hit. destruct Hit as [_ ->].
  apply bbind_ok in H1. destruct H1 as (itl & gx & Hitl & H1).
  apply lift_ok in Hitl. destruct Hitl as [_ ->].
  apply bbind_ok in H1. destruct H1 as ([outs st] & gb & Hrnn & H1).
  apply dynamic_rnn_graph in Hrnn.
  apply bbind_ok in H1. destruct H1 as (u & gc & Hlv & H1).
  apply layer_variables_fresh in Hlv. destruct Hlv as [Hfresh Hgc].
  apply bbind_ok in H1. destruct H1 as (ttl & gx & Httl & H1).
  apply lift_ok in Httl. destruct Httl as [_ ->].
  apply bbind_ok in H1. destruct H1 as (tt' & gx & Htt & H1).
  apply lift_ok in Htt. destruct Htt as [_ ->].
  apply bret_ok in H1. destruct H1 as [_ ->].
  (* the inference decoder *)
  apply bbind_ok in H2. destruct H2 as (st2 & gl & Hloop & H2).
  apply bbind_ok in H2. destruct H2 as (o & gx & Ho & H2).
  apply lift_ok in Ho. destruct Ho as [Ho ->].
  apply bbind_ok in H2. destruct H2 as (o1 & gx & Ho1 & H2).
  apply lift_ok in Ho1. destruct Ho1 as [_ ->].
  apply bbind_ok in H2. destruct H2 as (o2 & gx & Ho2 & H2).
  apply lift_ok in Ho2. destruct Ho2 as [_ ->].
  apply bbind_ok in H2. destruct H2 as (o3 & gx & Ho3 & H2).
  apply lift_ok in Ho3. destruct Ho3 as [_ ->].
  apply bbind_ok in H2. destruct H2 as (o4 & gx & Ho4 & H2).
  apply lift_ok in Ho4. destruct Ho4 as [_ ->].
  apply bret_ok in H2. destruct H2 as [_ ->].
  unfold range in Hloop.
  destruct (Z.to_nat (decoder_max_time_steps cfg)) as [| n].
  - simpl in Hloop. apply bret_ok in Hloop. destruct Hloop as [-> _].
    discriminate Ho.
  - simpl in Hloop. apply bbind_ok in Hloop.
    destruct Hloop as (st1 & g1 & Hbody & Hloop).
    apply decoder_loop_body_graph in Hbody. rewrite <- Hrnn in Hbody.
    unfold layer_variables in Hbody. rewrite Hfresh in Hbody. cbn [snd] in Hbody.
    rewrite <- Hgc in Hbody. subst g1.
    symmetry. eapply for_loop_graph_fixed; [| | exact Hloop].
    + apply Forall_forall. intros name Hname. rewrite Hgc, has_variable_app.
      rewrite Hrnn, (cell_variables_has _ _ _ Hname). reflexivity.
    + rewrite Hgc. simpl. rewrite has_variable_app.
      replace (has_variable
                 (map (fun n0 => (n0, true))
                      (dense_variable_names (scoped "decoder" "decoder_logits") true))
                 (scoped (scoped "decoder" "decoder_logits") "kernel"))
        with true by (symmetry; apply has_variable_added; left; reflexivity).
      rewrite orb_true_r. reflexivity.
Qed.

Lemma trainable_variables_slots (g slots : Graph) :
  Forall (fun v : string * bool => snd v = false) slots ->
  trainable_variables (g ++ slots) = trainable_variables g.
Proof.
  intros Hfalse. unfold trainable_variables. rewrite filter_app.
  replace (filter snd slots) with (@nil (string * bool)).
  - rewrite app_nil_r. reflexivity.
  - symmetry. induction Hfalse as [| v vs Hv _ IH]; simpl; [reflexivity |].
    rewrite Hv. exact IH.
Qed.

(** X7. A train-mode and an inference-mode model of one configuration,
    built from the same graph, have the same variables in the same
    order, up to the slots of the optimizer, which are not trainable;
    the inference loop creates the variables of the cell and of the
    projection once, not once per step.  What the optimizer trains are
    the trainable variables of the inference graph. *)
Theorem variables_of_both_modes (cfg : Config) (md1 md2 : string) (g : Graph)
    (m1 m2 : Seq2SeqModel) (g1 g2 : Graph) :
  Seq2SeqModel_init cfg md1 g = (inr m1, g1) ->
  Seq2SeqModel_init cfg md2 g = (inr m2, g2) ->
  lower md1 = "train"%string -> lower md2 = "inference"%string ->
  (exists slots, g1 = g2 ++ slots /\ Forall (fun v => snd v = false) slots) /\
  trainable_variables g1 = trainable_variables g2 /\
  trainable_verbs (optimization m1) = Some (trainable_variables g2).
Proof.
  intros H1 H2 Hmd1 Hmd2.
  apply Seq2SeqModel_init_ok in H1. destruct H1 as [_ H1]. rewrite Hmd1 in H1.
  apply Seq2SeqModel_init_ok in H2. destruct H2 as [_ H2]. rewrite Hmd2 in H2.
  apply build_graph_ok in H1.
  destruct H1 as (ga & enc & gb & dec & gc & opt & -> & Henc & Hdec & Hopt & ->).
  apply build_graph_ok in H2.
  destruct H2 as (ga' & enc' & gb' & dec' & gc' & opt' & -> & Henc' & Hdec' & Hopt'
                  & ->).
  rewrite <- build_encoder_either_mode, Henc in Henc'.
  injection Henc' as <- <-.
  pose proof (build_decoder_graphs _ _ _ _ _ _ _ Hdec Hdec') as <-.
  unfold build_optimizer in Hopt'. simpl in Hopt'.
  apply bret_ok in Hopt'. destruct Hopt' as [_ ->].
  pose proof (build_optimizer_train _ _ _ _ _ Hopt) as (l & _ & Hverbs & _).
  unfold build_optimizer in Hopt.
  change (String.eqb "train" "train") with true in Hopt. cbv iota in Hopt.
  apply bbind_ok in Hopt. destruct Hopt as (g0 & gx & Hg0 & Hopt).
  inversion Hg0; subst g0 gx; clear Hg0.
  apply bbind_ok in Hopt. destruct Hopt as (l0 & gx & Hl0 & Hopt).
  apply lift_ok in Hl0. destruct Hl0 as [_ ->].
  apply bbind_ok in Hopt. destruct Hopt as (o & gx & Ho & Hopt).
  apply lift_ok in Ho. destruct Ho as [_ ->].
  apply bbind_ok in Hopt. destruct Hopt as (u & gd & Hslots & Hopt).
  apply bret_ok in Hopt. destruct Hopt as [_ ->].
  unfold adam_slots in Hslots. injection Hslots as _ <-.
  set (slots := [("beta1_power"%string, false); ("beta2_power"%string, false)]
                ++ flat_map (fun n => [(scoped n "Adam", false);
                                       (scoped n "Adam_1", false)])
                            (trainable_variables gc)).
  assert (Hfalse : Forall (fun v : string * bool => snd v = false) slots).
  { unfold slots. apply Forall_app. split; [repeat constructor |].
    apply Forall_forall. intros v Hv. apply in_flat_map in Hv.
    destruct Hv as (n & _ & [<- | [<- | []]]); reflexivity. }
  split; [exists slots; split; [reflexivity | exact Hfalse] |].
  split; [| exact Hverbs].
  apply (trainable_variables_slots gc slots Hfalse).
Qed.

(** ** The configurations that build *)

Lemma prefix_append (p s t : string) :
  String.prefix p s = true -> String.prefix p (s ++ t) = true.
Proof.
  revert s. induction p as [| a p IH]; intros s H;
    [destruct (s ++ t)%string; reflexivity |].
  destruct s as [| b s]; simpl in *; [discriminate |].
  destruct (ascii_dec a b); [apply IH; exact H | discriminate].
Qed.

Lemma prefix_scoped (p scope x : string) :
  String.prefix p scope = true -> String.prefix p (scoped scope x) = true.
Proof. intros H. unfold scoped. apply prefix_append. exact H. Qed.

Lemma imap_Forall {A B} (Q : B -> Prop) (f : nat -> A -> B) (l : list A) :
  (forall i a, Q (f i a)) -> Forall Q (imap f l).
Proof.
  intros H. unfold imap. apply Forall_forall. intros b Hb.
  apply in_map_iff in Hb. destruct Hb as ([i a] & <- & _). apply H.
Qed.

(** The variables of a cell are named under the scope of its call. *)
Lemma rnn_variable_names_prefix (p : string) (cell : RNNCell) (scope : string) :
  String.prefix p scope = true ->
  Forall (fun n => String.prefix p n = true) (rnn_variable_names cell scope).
Proof.
  intros H. destruct cell as [c | cells]; simpl.
  - repeat constructor. apply prefix_scoped. exact H.
  - apply imap_Forall. intros i c. repeat apply prefix_scoped. exact H.
Qed.

Lemma prefix_refl (s : string) : String.prefix s s = true.
Proof.
  induction s as [| a s IH]; [reflexivity |]. simpl.
  destruct (ascii_dec a a); [exact IH | congruence].
Qed.

Lemma multi_rnn_cell_names_prefix (cells : list SingleCell) (scope : string) :
  Forall (fun n => String.prefix (scoped scope "multi_rnn_cell") n = true)
         (rnn_variable_names (MultiRNNCell cells) scope).
Proof.
  simpl. apply imap_Forall. intros i c. do 2 apply prefix_scoped.
  apply prefix_refl.
Qed.

Lemma dense_variable_names_prefix (p name : string) (use_bias : bool) :
  String.prefix p name = true ->
  Forall (fun n => String.prefix p n = true) (dense_variable_names name use_bias).
Proof.
  intros H. unfold dense_variable_names.
  destruct use_bias; repeat constructor; apply prefix_scoped; exact H.
Qed.

(** The encoder names its variables under its scope. *)
Lemma build_encoder_names (cfg : Config) ph :
  adds (fun n => String.prefix "encoder" n = true) (build_encoder cfg ph).
Proof.
  unfold build_encoder. adds_tac;
    first [ reflexivity
          | apply rnn_variable_names_prefix; reflexivity
          | apply dense_variable_names_prefix; reflexivity ].
Qed.

Lemma has_variable_other_prefix (p : string) (added : Graph) (n : string) :
  Forall (fun v : string * bool => String.prefix p (fst v) = true) added ->
  String.prefix p n = false ->
  has_variable added n = false.
Proof.
  intros Hadded Hn. unfold has_variable.
  destruct (existsb _ added) eqn:Hex; [| reflexivity].
  apply existsb_exists in Hex. destruct Hex as (v & Hv & Heq).
  apply String.eqb_eq in Heq. rewrite Forall_forall in Hadded.
  specialize (Hadded v Hv). rewrite Heq, Hn in Hadded. discriminate.
Qed.

Lemma fresh_graph_has (g : Graph) (n : string) :
  fresh_graph g = true ->
  String.prefix "encoder" n = true \/ String.prefix "decoder" n = true ->
  has_variable g n = false.
Proof.
  intros Hfresh Hn. unfold has_variable.
  destruct (existsb _ g) eqn:Hex; [| reflexivity].
  apply existsb_exists in Hex. destruct Hex as (v & Hv & Heq).
  apply String.eqb_eq in Heq. unfold fresh_graph in Hfresh.
  rewrite forallb_forall in Hfresh. specialize (Hfresh v Hv).
  rewrite Heq in Hfresh. destruct Hn as [Hn | Hn]; rewrite Hn in Hfresh;
    [| rewrite andb_false_r in Hfresh]; discriminate.
Qed.

Lemma bbind_total {A B} (c : Build A) (k : A -> Build B) g a g1 :
  c g = (inr a, g1) ->
  (exists b g', k a g1 = (inr b, g')) ->
  exists b g', bbind c k g = (inr b, g').
Proof. intros Hc (b & g' & Hk). exists b, g'. unfold bbind. rewrite Hc. exact Hk. Qed.

Lemma build_encoder_cell_succeeds (cfg : Config) ph (depth : option Z) :
  1 <= depth_or depth (encoder_depth cfg) ->
  exists cells, build_encoder_cell cfg ph depth = ok (MultiRNNCell cells).
Proof.
  intros H. unfold build_encoder_cell, new_MultiRNNCell, range.
  destruct (Z.to_nat (depth_or depth (encoder_depth cfg))) as [| n] eqn:Hn; [lia |].
  simpl. eexists. reflexivity.
Qed.

Lemma dynamic_rnn_succeeds cell scope inputs lens g :
  exists outs st g',
    dynamic_rnn cell scope None inputs lens g = (inr (outs, st), g') /\
    match cell with
    | Single _ => exists h, st = TTensor h
    | MultiRNNCell _ => exists hs, st = TTuple hs
    end.
Proof.
  unfold dynamic_rnn. rewrite tf_dynamic_rnn_zero_state. cbv zeta.
  eexists _, _, _. split; [reflexivity |]. destruct cell; eexists; reflexivity.
Qed.

Lemma bidirectional_dynamic_rnn_succeeds cell_fw cell_bw scope inputs lens g :
  exists outs fw bw g',
    bidirectional_dynamic_rnn cell_fw cell_bw scope inputs lens g
    = (inr (outs, (TTensor fw, TTensor bw)), g').
Proof.
  unfold bidirectional_dynamic_rnn, tf_bidirectional_dynamic_rnn.
  rewrite !tf_dynamic_rnn_zero_state. cbv zeta. eexists _, _, _, _. reflexivity.
Qed.

(** In a graph without its first two variables, the encoder is built
    whenever its unidirectional stack has a layer. *)
Lemma build_encoder_succeeds (cfg : Config) ph g :
  has_variable g "encoder/embedding" = false ->
  has_variable g "encoder/inputs_embedded_dense/kernel" = false ->
  (use_bidirectional cfg = false -> 1 <= encoder_depth cfg) ->
  exists enc g', build_encoder cfg ph g = (inr enc, g').
Proof.
  intros Hemb Hdense Hdepth. unfold build_encoder.
  eapply bbind_total.
  { unfold tf_get_variable.
    change (scoped "encoder" "embedding") with "encoder/embedding"%string.
    rewrite Hemb. reflexivity. }
  eapply bbind_total.
  { unfold layer_variables, dense_variable_names.
    change (scoped (scoped "encoder" "inputs_embedded_dense") "kernel")
      with "encoder/inputs_embedded_dense/kernel"%string.
    cbn [existsb]. rewrite has_variable_app, Hdense. reflexivity. }
  destruct (use_bidirectional cfg).
  - match goal with
    | |- context [bidirectional_dynamic_rnn ?f ?b ?s ?i ?l] =>
        destruct (bidirectional_dynamic_rnn_succeeds f b s i l
                    ((g ++ [("encoder/embedding"%string, true)])
                       ++ map (fun n => (n, true))
                            ["encoder/inputs_embedded_dense/kernel"%string]))
          as (outs & fw & bw & g1 & Hbi)
    end.
    eapply bbind_total; [exact Hbi |]. cbv beta iota.
    eapply bbind_total; [reflexivity |].
    destruct (2 <? encoder_depth cfg) eqn:Hgt.
    + apply Z.ltb_lt in Hgt.
      destruct (build_encoder_cell_succeeds cfg ph (Some (encoder_depth cfg - 1)))
        as (cells & Hcells).
      { unfold depth_or. destruct (Z.eqb_spec (encoder_depth cfg - 1) 0); lia. }
      eapply bbind_total; [unfold lift; rewrite Hcells; reflexivity |].
      cbv beta iota.
      match goal with
      | |- context [dynamic_rnn ?c ?s None ?i ?l] =>
          destruct (dynamic_rnn_succeeds c s i l
                      (snd (cell_variables
                              (dense_variable_names (scoped "encoder" "dense") false)
                              g1)))
            as (uo & us & g2 & Hrnn & hs & ->)
      end.
      eapply bbind_total; [exact Hrnn |]. cbv beta iota.
      eapply bbind_total; [reflexivity |].
      replace (encoder_depth cfg =? 2) with false
        by (symmetry; apply Z.eqb_neq; lia).
      eapply bbind_total; [reflexivity |].
      eexists _, _. reflexivity.
    + destruct (encoder_depth cfg =? 2) eqn:Heq.
      * eapply bbind_total; [reflexivity |]. cbv beta iota.
        match goal with
        | |- context [dynamic_rnn ?c ?s None ?i ?l] =>
            destruct (dynamic_rnn_succeeds c s i l
                        (snd (cell_variables
                                (dense_variable_names (scoped "encoder" "dense")
                                                      false) g1)))
              as (uo & us & g2 & Hrnn & h & ->)
        end.
        eapply bbind_total; [exact Hrnn |]. cbv beta iota.
        eapply bbind_total; [reflexivity |].
        eapply bbind_total; [reflexivity |].
        eexists _, _. reflexivity.
      * eapply bbind_total; [reflexivity |]. cbv beta iota.
        eapply bbind_total; [reflexivity |].
        eexists _, _. reflexivity.
  - destruct (build_encoder_cell_succeeds cfg ph None) as (cells & Hcells).
    { simpl. apply Hdepth. reflexivity. }
    eapply bbind_total; [unfold lift; rewrite Hcells; reflexivity |].
    match goal with
    | |- context [dynamic_rnn ?c ?s None ?i ?l] =>
        destruct (dynamic_rnn_succeeds c s i l
                    ((g ++ [("encoder/embedding"%string, true)])
                       ++ map (fun n => (n, true))
                            ["encoder/inputs_embedded_dense/kernel"%string]))
          as (uo & us & g2 & Hrnn & _)
    end.
    eapply bbind_total; [exact Hrnn |]. cbv beta iota.
    eexists _, _. reflexivity.
Qed.

Lemma build_decoder_cell_succeeds (cfg : Config) ph :
  1 <= decoder_depth cfg ->
  exists cells, build_decoder_cell cfg ph None = ok (MultiRNNCell cells) /\
                length cells = Z.to_nat (decoder_depth cfg).
Proof.
  intros H. unfold build_decoder_cell, new_MultiRNNCell, range, depth_or.
  destruct (Z.to_nat (decoder_depth cfg)) as [| n] eqn:Hn; [lia |].
  simpl. eexists. split; [reflexivity |]. simpl. rewrite length_map, length_seq.
  reflexivity.
Qed.

Lemma has_variable_cell_names (p : string) (names : list string)
    (f : string -> bool) (n : string) :
  Forall (fun x => String.prefix p x = true) names ->
  String.prefix p n = false ->
  has_variable (map (fun x => (x, true)) (filter f names)) n = false.
Proof.
  intros Hnames Hn. apply (has_variable_other_prefix p); [| exact Hn].
  apply Forall_map. apply Forall_forall. intros x Hx. apply filter_In in Hx.
  rewrite Forall_forall in Hnames. apply Hnames, Hx.
Qed.

Lemma dynamic_rnn_step cell scope init inputs lens g r :
  tf_dynamic_rnn cell scope init inputs lens = ok r ->
  dynamic_rnn cell scope init inputs lens g
  = (inr r, snd (cell_variables (rnn_variable_names cell scope) g)).
Proof. intros H. unfold dynamic_rnn, bbind, lift. rewrite H. reflexivity. Qed.

(** The training decoder is built on an encoder state of its depth. *)
Lemma build_decoder_train_succeeds (cfg : Config) enc g hs :
  encoder_last_state enc = TTuple hs ->
  length hs = Z.to_nat (decoder_depth cfg) ->
  1 <= decoder_depth cfg ->
  (forall n, String.prefix "decoder" n = true -> has_variable g n = false) ->
  exists dec g',
    build_decoder cfg "train" (build_placeholders "train") enc g = (inr dec, g').
Proof.
  intros Hhs Hlen Hdepth Hfresh. unfold build_decoder.
  destruct (build_decoder_cell_succeeds cfg (build_placeholders "train") Hdepth)
    as (cells & Hcells & Hclen).
  eapply bbind_total; [unfold lift; rewrite Hcells; reflexivity |].
  eapply bbind_total.
  { unfold tf_get_variable. rewrite Hfresh by reflexivity. reflexivity. }
  change (String.eqb "train" "train") with true. cbv iota.
  eapply bbind_total; [reflexivity |].
  eapply bbind_total; [reflexivity |].
  eapply bbind_total.
  { apply dynamic_rnn_step. unfold tf_dynamic_rnn. rewrite Hhs.
    unfold check_state_structure.
    replace (Nat.ltb (length hs) (length cells)) with false
      by (symmetry; apply Nat.ltb_ge; lia).
    replace (Nat.ltb (length cells) (length hs)) with false
      by (symmetry; apply Nat.ltb_ge; lia).
    reflexivity. }
  cbv beta iota.
  eapply bbind_total.
  { unfold layer_variables.
    match goal with
    | |- (if ?b then _ else _) = _ => replace b with false; [reflexivity |]
    end.
    symmetry. unfold dense_variable_names. cbn [existsb snd cell_variables].
    rewrite !has_variable_app.
    rewrite !Hfresh by reflexivity.
    rewrite !(has_variable_cell_names "decoder/multi_rnn_cell")
      by first [ apply (multi_rnn_cell_names_prefix cells "decoder")
               | reflexivity ].
    reflexivity. }
  eapply bbind_total; [reflexivity |].
  eapply bbind_total; [reflexivity |].
  eexists _, _. reflexivity.
Qed.

(** One iteration of the inference loop goes through on a state tuple
    with a tensor for every layer, and leaves one of the cell's depth. *)
Lemma decoder_loop_body_succeeds (cfg : Config) cells emb t st g hs :
  ls_state st = TTuple hs -> (length cells <= length hs)%nat ->
  exists st' g' hs',
    decoder_loop_body cfg (MultiRNNCell cells) emb "decoder" t st g = (inr st', g') /\
    ls_state st' = TTuple hs' /\ length hs' = length cells /\
    ls_outputs st' <> [] /\ ls_logits st' <> [] /\ ls_probabilities st' <> [] /\
    ls_predicts st' <> [] /\ ls_scores st' <> [].
Proof.
  intros Hhs Hlen. unfold decoder_loop_body, rnn_cell_call. rewrite Hhs.
  replace (Nat.ltb (length hs) (length cells)) with false
    by (symmetry; apply Nat.ltb_ge; lia).
  unfold layer_variables, bbind, lift, cell_variables. cbn [ok fst snd].
  match goal with
  | |- context [if ?b then _ else _] => destruct b
  end; cbn [bret ok]; eexists _, _, _;
    (split; [reflexivity |]); cbn [ls_state ls_outputs ls_logits ls_probabilities
                                   ls_predicts ls_scores];
    (split; [reflexivity |]); (split; [rewrite length_map, length_seq; reflexivity |]);
    repeat split; apply not_eq_sym, app_cons_not_nil.
Qed.

Lemma for_loop_succeeds (cfg : Config) cells emb (its : list nat) st g hs :
  ls_state st = TTuple hs -> (length cells <= length hs)%nat ->
  its <> [] ->
  exists st' g',
    for_loop (decoder_loop_body cfg (MultiRNNCell cells) emb "decoder") its st g
    = (inr st', g') /\
    ls_outputs st' <> [] /\ ls_logits st' <> [] /\ ls_probabilities st' <> [] /\
    ls_predicts st' <> [] /\ ls_scores st' <> [].
Proof.
  revert st g hs. induction its as [| t its IH]; intros st g hs Hhs Hlen Hne;
    [contradiction |].
  destruct (decoder_loop_body_succeeds cfg cells emb t st g hs Hhs Hlen)
    as (st1 & g1 & hs1 & Hbody & Hhs1 & Hlen1 & Hlists).
  cbn [for_loop]. unfold bbind at 1. rewrite Hbody.
  destruct its as [| t' its'].
  - exists st1, g1. split; [reflexivity | exact Hlists].
  - apply (IH st1 g1 hs1 Hhs1); [lia | discriminate].
Qed.

Lemma tf_stack1_succeeds {A} (values : list (Tensor (list A))) :
  values <> [] -> exists t, tf_stack1 values = ok t.
Proof. destruct values; [contradiction |]. intros _. eexists. reflexivity. Qed.

(** The inference decoder is built on an encoder state of its depth or
    more, for at least one step. *)
Lemma build_decoder_inference_succeeds (cfg : Config) enc g hs :
  encoder_last_state enc = TTuple hs ->
  (Z.to_nat (decoder_depth cfg) <= length hs)%nat ->
  1 <= decoder_depth cfg ->
  1 <= decoder_max_time_steps cfg ->
  has_variable g "decoder/embedding" = false ->
  exists dec g',
    build_decoder cfg "inference" (build_placeholders "inference") enc g
    = (inr dec, g').
Proof.
  intros Hhs Hlen Hdepth Hsteps Hfresh. unfold build_decoder.
  destruct (build_decoder_cell_succeeds cfg (build_placeholders "inference") Hdepth)
    as (cells & Hcells & Hclen).
  eapply bbind_total; [unfold lift; rewrite Hcells; reflexivity |].
  eapply bbind_total.
  { unfold tf_get_variable.
    change (scoped "decoder" "embedding") with "decoder/embedding"%string.
    rewrite Hfresh. reflexivity. }
  change (String.eqb "inference" "train") with false. cbv iota zeta.
  match goal with
  | |- context [for_loop ?body ?its ?st] =>
      destruct (for_loop_succeeds cfg cells "decoder/embedding" its st
                  (g ++ [("decoder/embedding"%string, true)]) hs)
        as (st' & g' & Hloop & Ho & Hl & Hp & Hpr & Hs)
  end.
  { rewrite Hhs. reflexivity. }
  { lia. }
  { unfold range. destruct (Z.to_nat (decoder_max_time_steps cfg)) eqn:HT;
      [lia | discriminate]. }
  eapply bbind_total; [exact Hloop |].
  destruct (tf_stack1_succeeds _ Ho) as (t1 & H1).
  destruct (tf_stack1_succeeds _ Hl) as (t2 & H2).
  destruct (tf_stack1_succeeds _ Hp) as (t3 & H3).
  destruct (tf_stack1_succeeds _ Hpr) as (t4 & H4).
  destruct (tf_stack1_succeeds _ Hs) as (t5 & H5).
  eapply bbind_total; [unfold lift; rewrite H1; reflexivity |].
  eapply bbind_total; [unfold lift; rewrite H2; reflexivity |].
  eapply bbind_total; [unfold lift; rewrite H3; reflexivity |].
  eapply bbind_total; [unfold lift; rewrite H4; reflexivity |].
  eapply bbind_total; [unfold lift; rewrite H5; reflexivity |].
  eexists _, _. reflexivity.
Qed.

Lemma decoder_name_not_encoder (n : string) :
  String.prefix "decoder" n = true ->
  String.prefix "encoder" n = false /\ String.prefix "g" n = false.
Proof.
  destruct n as [| a n]; [discriminate |]. intros H.
  assert (Ha : a = "d"%char).
  { unfold String.prefix in H.
    destruct (ascii_dec "d" a) as [<- | Hne]; [reflexivity | discriminate H]. }
  subst a. split; reflexivity.
Qed.

Lemma build_optimizer_succeeds (cfg : Config) (mode : string) dec g l :
  loss dec = Some l ->
  lower (optimizer_type cfg) = "adam"%string ->
  exists opt g', build_optimizer cfg mode dec g = (inr opt, g').
Proof.
  intros Hl Hadam. unfold build_optimizer.
  destruct (String.eqb mode "train"); [| eexists _, _; reflexivity].
  rewrite Hl, Hadam. eexists _, _. reflexivity.
Qed.

(** X8. In a graph in which no model has been built, and for positive
    sizes, the constructor builds a model from every configuration
    that [buildable] admits: a decoder of one layer or more, a
    unidirectional encoder of one layer or more, and either mode
    'train' with as many decoder layers as the encoder state has tensors
    and the Adam optimizer, or mode 'inference' with no more decoder
    layers than that and at least one decoding step. *)
Theorem constructor_succeeds (cfg : Config) (md : string) (g : Graph) :
  fresh_graph g = true ->
  positive_sizes cfg = true ->
  buildable cfg (lower md) = true ->
  is_ok (fst (Seq2SeqModel_init cfg md g)) = true.
Proof.
  intros Hfresh _ Hbuild. unfold buildable in Hbuild.
  apply andb_true_iff in Hbuild. destruct Hbuild as [Hbuild Hmode].
  apply andb_true_iff in Hbuild. destruct Hbuild as [Hdec Henc].
  apply Z.leb_le in Hdec.
  assert (Huni : use_bidirectional cfg = false -> 1 <= encoder_depth cfg).
  { intros Hb. rewrite Hb in Henc. apply Z.leb_le. exact Henc. }
  set (g0 := g ++ [("global_step"%string, false);
                   ("global_epoch_step"%string, false)]).
  assert (Hg0 : forall n,
             String.prefix "encoder" n = true \/ String.prefix "decoder" n = true ->
             String.prefix "g" n = false ->
             has_variable g0 n = false).
  { intros n Hn Hg. unfold g0. rewrite has_variable_app.
    rewrite (fresh_graph_has g n Hfresh Hn).
    rewrite (has_variable_other_prefix "g" _ n); [reflexivity | | exact Hg].
    repeat constructor. }
  destruct (build_encoder_succeeds cfg (build_placeholders (lower md)) g0)
    as (enc & ge & Hbenc).
  { apply Hg0; [left |]; reflexivity. }
  { apply Hg0; [left |]; reflexivity. }
  { exact Huni. }
  destruct (encoder_last_state_size _ _ _ _ _ Hbenc) as (hs & Hhs & Hsize & _).
  destruct (adds_ok _ _ _ _ _ (build_encoder_names cfg _) Hbenc)
    as (added & -> & Hadded).
  assert (Hge : forall n, String.prefix "decoder" n = true ->
                          has_variable (g0 ++ added) n = false).
  { intros n Hn. destruct (decoder_name_not_encoder n Hn) as [Hne Hng].
    rewrite has_variable_app, (Hg0 n (or_intror Hn) Hng).
    rewrite (has_variable_other_prefix "encoder" added n Hadded Hne).
    reflexivity. }
  assert (Hgraph : forall dec gd opt gf,
             build_decoder cfg (lower md) (build_placeholders (lower md)) enc
                           (g0 ++ added) = (inr dec, gd) ->
             build_optimizer cfg (lower md) dec gd = (inr opt, gf) ->
             is_ok (fst (build_graph cfg (lower md) g)) = true).
  { intros dec gd opt gf Hbdec Hbopt. rewrite build_graph_stages. fold g0.
    unfold bbind at 1. rewrite Hbenc, Hbdec, Hbopt.
    unfold build_graph, init_config, tf_Variable.
    unfold bbind at 1 2 3. cbn [bret ok fst snd]. rewrite <- app_assoc.
    cbn [app]. fold g0. unfold bbind. rewrite Hbenc, Hbdec, Hbopt. reflexivity. }
  unfold Seq2SeqModel_init.
  destruct (String.eqb (lower md) "train") eqn:Htrain.
  - apply String.eqb_eq in Htrain. rewrite Htrain in *.
    apply andb_true_iff in Hmode. destruct Hmode as [Hdepth Hadam].
    apply Z.eqb_eq in Hdepth. apply String.eqb_eq in Hadam.
    change (mode_in_list "train") with true. cbv iota.
    destruct (build_decoder_train_succeeds cfg enc (g0 ++ added) hs Hhs)
      as (dec & gd & Hbdec); [lia | exact Hdec | exact Hge |].
    destruct (build_decoder_train_inv _ _ _ _ _ Hbdec)
      as (cell & st & _ & _ & _ & _ & Hloss).
    destruct (build_optimizer_succeeds cfg "train" dec gd _ Hloss Hadam)
      as (opt & gf & Hbopt).
    exact (Hgraph dec gd opt gf Hbdec Hbopt).
  - apply andb_true_iff in Hmode. destruct Hmode as [Hmode Hsteps].
    apply andb_true_iff in Hmode. destruct Hmode as [Hinf Hdepth].
    apply String.eqb_eq in Hinf. rewrite Hinf in *.
    apply Z.leb_le in Hdepth. apply Z.leb_le in Hsteps.
    change (mode_in_list "inference") with true. cbv iota.
    destruct (build_decoder_inference_succeeds cfg enc (g0 ++ added) hs Hhs)
      as (dec & gd & Hbdec);
      [lia | exact Hdec | exact Hsteps | apply Hge; reflexivity |].
    exact (Hgraph dec gd _ gd Hbdec eq_refl).
Qed.

(** ** Padding *)

Lemma nth_error_combine {A B} (a : list A) (b : list B) (i : nat) :
  nth_error (combine a b) i
  = match nth_error a i, nth_error b i with
    | Some x, Some y => Some (x, y)
    | _, _ => None
    end.
Proof.
  revert b i. induction a as [| x a IH]; intros [| y b] [| i]; simpl;
    try reflexivity.
  - destruct (nth_error a i); reflexivity.
  - apply IH.
Qed.

Lemma nth_error_map2 {A B C} (f : A -> B -> C) (a : list A) (b : list B) (i : nat) :
  nth_error (map2 f a b) i
  = match nth_error a i, nth_error b i with
    | Some x, Some y => Some (f x y)
    | _, _ => None
    end.
Proof.
  unfold map2. rewrite nth_error_map, nth_error_combine.
  destruct (nth_error a i), (nth_error b i); reflexivity.
Qed.

Lemma nth_error_seq_from (start n i : nat) :
  nth_error (seq start n) i = if Nat.ltb i n then Some (start + i)%nat else None.
Proof.
  revert start i. induction n as [| n IH]; intros start [| i]; simpl;
    try reflexivity.
  - f_equal. lia.
  - rewrite IH. change (Nat.ltb (S i) (S n)) with (Nat.ltb i n).
    destruct (Nat.ltb i n); [f_equal; lia | reflexivity].
Qed.

Lemma nth_error_imap {A B} (f : nat -> A -> B) (l : list A) (i : nat) :
  nth_error (imap f l) i = option_map (f i) (nth_error l i).
Proof.
  unfold imap. rewrite nth_error_map, nth_error_combine, nth_error_seq_from.
  destruct (nth_error l i) as [a |] eqn:Ha.
  - assert (Hi : (i < length l)%nat) by (apply nth_error_Some; congruence).
    apply Nat.ltb_lt in Hi. rewrite Hi. reflexivity.
  - destruct (Nat.ltb i (length l)); reflexivity.
Qed.

Lemma rows_agree_refl (fin : list bool) (a : Mat) : rows_agree fin a a.
Proof. split; reflexivity. Qed.

Lemma rows_agree_map2 (fin : list bool) (f : Vec -> Vec -> Vec) (x x' h : Mat) :
  rows_agree fin x x' -> rows_agree fin (map2 f x h) (map2 f x' h).
Proof.
  intros [Hlen Hrows]. split.
  - rewrite !map2_length, Hlen. reflexivity.
  - intros i Hi. rewrite !nth_error_map2, (Hrows i Hi). reflexivity.
Qed.

Lemma rows_agree_imap (fin : list bool) (f : nat -> Vec -> Vec) (o o' : Mat) :
  rows_agree fin o o' -> rows_agree fin (imap f o) (imap f o').
Proof.
  intros [Hlen Hrows]. split.
  - rewrite !imap_length. exact Hlen.
  - intros i Hi. rewrite !nth_error_imap, (Hrows i Hi). reflexivity.
Qed.

(** A cell works row by row: on inputs that agree on the unfinished rows
    its outputs and its new states do, or it raises the same. *)
Lemma single_cell_call_rows (fin : list bool) (c : SingleCell) scope ctx t
    (x x' h : Mat) :
  rows_agree fin x x' ->
  agree_or_raise (fun p p' => rows_agree fin (fst p) (fst p') /\
                              rows_agree fin (snd p) (snd p'))
                 (single_cell_call c scope ctx t x h)
                 (single_cell_call c scope ctx t x' h).
Proof.
  intros Hx. induction c as [units name | c IH q]; cbn [single_cell_call].
  - simpl. split; apply rows_agree_map2; exact Hx.
  - destruct (single_cell_call c scope ctx t x h) as [e | [o h1]],
             (single_cell_call c scope ctx t x' h) as [e' | [o' h1']];
      simpl in IH; try contradiction; cbn [bind].
    + exact IH.
    + destruct IH as [Ho Hh]. destruct (q ctx) as [e | p]; simpl; [reflexivity |].
      split; [apply rows_agree_imap; exact Ho | exact Hh].
Qed.

Lemma multi_cell_call_rows (fin : list bool) (cells : list SingleCell) scope i ctx t
    (x x' : Mat) (hs : list Mat) :
  rows_agree fin x x' ->
  agree_or_raise (fun p p' => rows_agree fin (fst p) (fst p') /\
                              Forall2 (rows_agree fin) (snd p) (snd p'))
                 (multi_cell_call cells scope i ctx t x hs)
                 (multi_cell_call cells scope i ctx t x' hs).
Proof.
  revert i x x'. induction cells as [| c cells IH]; intros i x x' Hx;
    cbn [multi_cell_call].
  - simpl. split; [exact Hx | constructor].
  - destruct (nth_error hs i) as [cur |]; [| reflexivity].
    pose proof (single_cell_call_rows fin c
                  (scoped scope ("cell_" ++ string_of_nat i)) ctx t x x' cur Hx)
      as Hc.
    destruct (single_cell_call c _ ctx t x cur) as [e | [o h1]],
             (single_cell_call c _ ctx t x' cur) as [e' | [o' h1']];
      simpl in Hc; try contradiction; cbn [bind].
    + exact Hc.
    + destruct Hc as [Ho Hh]. specialize (IH (S i) o o' Ho).
      destruct (multi_cell_call cells scope (S i) ctx t o hs) as [e | [out hs1]],
               (multi_cell_call cells scope (S i) ctx t o' hs) as [e' | [out' hs1']];
        simpl in IH; try contradiction; simpl.
      * exact IH.
      * destruct IH as [Hout Hhs]. split; [exact Hout |]. constructor; assumption.
Qed.

Lemma cell_call_rows (fin : list bool) (cell : RNNCell) scope ctx t
    (x x' : Mat) (s : StateV) :
  rows_agree fin x x' ->
  agree_or_raise (fun p p' => state_agree fin (snd p) (snd p') /\
                              same_kind s (snd p))
                 (cell_call cell scope ctx t x s)
                 (cell_call cell scope ctx t x' s).
Proof.
  intros Hx. unfold cell_call.
  destruct cell as [c | cells], s as [h | hs]; try reflexivity.
  - pose proof (single_cell_call_rows fin c scope ctx t x x' h Hx) as Hc.
    destruct (single_cell_call c scope ctx t x h) as [e | [o h1]],
             (single_cell_call c scope ctx t x' h) as [e' | [o' h1']];
      simpl in Hc; try contradiction; simpl; [exact Hc |].
    split; [apply Hc | exact I].
  - pose proof (multi_cell_call_rows fin cells (scoped scope "multi_rnn_cell") 0
                  ctx t x x' hs Hx) as Hc.
    destruct (multi_cell_call cells _ 0 ctx t x hs) as [e | [o hs1]],
             (multi_cell_call cells _ 0 ctx t x' hs) as [e' | [o' hs1']];
      simpl in Hc; try contradiction; simpl; [exact Hc |].
    split; [apply Hc | exact I].
Qed.

(** Past the length of a row the old state is kept, whatever the cell
    made of the row. *)
Lemma select_rows_agree (fin : list bool) (a b b' : Mat) :
  rows_agree fin b b' -> select_rows fin a b = select_rows fin a b'.
Proof.
  intros [Hlen Hrows]. apply nth_error_ext. intros i. unfold select_rows.
  rewrite !nth_error_map, !nth_error_combine.
  destruct (nth_error fin i) as [f |] eqn:Hf; [| reflexivity].
  destruct (nth_error a i) as [ai |]; [| destruct (nth_error b i), (nth_error b' i);
                                          reflexivity].
  destruct f.
  - destruct (nth_error b i) as [bi |] eqn:Hb, (nth_error b' i) as [bi' |] eqn:Hb';
      try reflexivity; exfalso.
    + apply nth_error_None in Hb'.
      assert (i < length b)%nat by (apply nth_error_Some; congruence). lia.
    + apply nth_error_None in Hb.
      assert (i < length b')%nat by (apply nth_error_Some; congruence). lia.
  - rewrite (Hrows i); [reflexivity |].
    rewrite (nth_error_nth _ _ _ Hf). reflexivity.
Qed.

Lemma select_state_agree (fin : list bool) (old new new' : StateV) :
  same_kind old new -> state_agree fin new new' ->
  select_state fin old new = select_state fin old new'.
Proof.
  destruct old as [a | la], new as [b | lb], new' as [b' | lb']; simpl;
    try contradiction; intros _ H.
  - f_equal. apply select_rows_agree. exact H.
  - f_equal. revert la. induction H as [| y y' lb lb' Hy _ IH]; intros [| x la];
      try reflexivity.
    unfold map2 in *. simpl. rewrite (select_rows_agree fin x y y' Hy).
    f_equal. apply IH.
Qed.

(** The final state of the loop over time does not depend on what the
    inputs hold past the lengths. *)
Lemma rnn_loop_padding (cell : RNNCell) scope ctx (lens : IntVec) (t : nat)
    (xs xs' : list Mat) (s : StateV) :
  inputs_agree lens t xs xs' ->
  (r <- rnn_loop (cell_call cell scope ctx) lens t xs s ;; ok (snd r))
  = (r <- rnn_loop (cell_call cell scope ctx) lens t xs' s ;; ok (snd r)).
Proof.
  revert t xs' s. induction xs as [| x xs IH]; intros t [| x' xs'] s H;
    simpl in H; try contradiction; [reflexivity |].
  destruct H as [Hx Hrest]. cbn [rnn_loop].
  pose proof (cell_call_rows _ cell scope ctx t x x' s Hx) as Hc.
  destruct (cell_call cell scope ctx t x s) as [e | [o s1]],
           (cell_call cell scope ctx t x' s) as [e' | [o' s1']];
    simpl in Hc; try contradiction; cbn [bind].
  - rewrite Hc. reflexivity.
  - destruct Hc as [Hs Hkind].
    rewrite <- (select_state_agree _ s s1 s1' Hkind Hs).
    specialize (IH (S t) xs'
                  (select_state (map (fun l => l <=? Z.of_nat t) lens) s s1) Hrest).
    destruct (rnn_loop _ lens (S t) xs _) as [e | [os sf]],
             (rnn_loop _ lens (S t) xs' _) as [e' | [os' sf']];
      simpl in IH |- *; congruence.
Qed.

Lemma mapM_ok_map {A B} (f : A -> result B) (g : A -> B) (l : list A) :
  Forall (fun a => f a = ok (g a)) l -> mapM f l = ok (map g l).
Proof.
  induction 1 as [| a l Ha _ IH]; simpl; [reflexivity |].
  rewrite Ha, IH. reflexivity.
Qed.

Lemma mapM_ext_in {A B} (f f' : A -> result B) (l : list A) :
  Forall (fun a => f a = f' a) l -> mapM f l = mapM f' l.
Proof.
  induction 1 as [| a l Ha _ IH]; simpl; [reflexivity |].
  rewrite Ha, IH. reflexivity.
Qed.

Lemma nth_of_nth_error {A} (l l' : list A) (k : nat) (d : A) :
  nth_error l k = nth_error l' k -> nth k l d = nth k l' d.
Proof.
  intros H. destruct (nth_error l k) as [a |] eqn:Ha.
  - rewrite (nth_error_nth _ _ _ Ha). symmetry in H.
    rewrite (nth_error_nth _ _ _ H). reflexivity.
  - symmetry in H. apply nth_error_None in Ha, H.
    rewrite !nth_overflow by assumption. reflexivity.
Qed.

Lemma inputs_agree_seq (lens : IntVec) (F F' : nat -> Mat) (n t : nat) :
  (forall k, (t <= k < t + n)%nat ->
             rows_agree (map (fun l => l <=? Z.of_nat k) lens) (F k) (F' k)) ->
  inputs_agree lens t (map F (seq t n)) (map F' (seq t n)).
Proof.
  revert t. induction n as [| n IH]; intros t H; simpl; [exact I |].
  split; [apply H; lia |]. apply IH. intros k Hk. apply H. lia.
Qed.

(** What [same_up_to_lengths] tells of the examples. *)
Lemma same_up_to_lengths_spec (lens : IntVec) (E E' : IntMat) :
  same_up_to_lengths lens E E' = true ->
  length E = length E' /\
  forall b l row row',
    nth_error lens b = Some l -> nth_error E b = Some row ->
    nth_error E' b = Some row' ->
    length row = length row' /\
    firstn (Z.to_nat l) row = firstn (Z.to_nat l) row'.
Proof.
  unfold same_up_to_lengths. intros H. apply andb_true_iff in H.
  destruct H as [Hlen Hall]. apply Nat.eqb_eq in Hlen. split; [exact Hlen |].
  intros b l row row' Hl Hrow Hrow'. rewrite forallb_forall in Hall.
  specialize (Hall (l, (row, row'))). simpl in Hall.
  assert (Hin : In (l, (row, row')) (combine lens (combine E E'))).
  { apply (nth_error_In _ b). rewrite !nth_error_combine, Hl, Hrow, Hrow'.
    reflexivity. }
  specialize (Hall Hin). apply andb_true_iff in Hall. destruct Hall as [Hn Hf].
  apply Nat.eqb_eq in Hn. split; [exact Hn |].
  unfold list_Z_eqb in Hf. destruct (list_eq_dec Z.eq_dec _ _); [assumption |].
  discriminate.
Qed.

(** The embedded and projected encoder inputs of a valid batch. *)
Lemma encoder_inputs_valid (cfg : Config) (mode : string) name ctx
    (E : IntMat) (El : IntVec) :
  fd_encoder_inputs (feed ctx) = Some E ->
  valid_encoder_batch cfg E El = true ->
  tf_layers_dense3 name (hidden_units cfg) false
    (embedding_lookup_mat "encoder/embedding" (encoder_vocab_size cfg)
       (embedding_size cfg) (encoder_inputs (build_placeholders mode))) ctx
  = ok (map (map (fun id =>
                    dense_vec (vars ctx) name (hidden_units cfg) false
                      (map (fun k => vars ctx "encoder/embedding"%string (Z.to_nat id) k)
                           (seq 0 (Z.to_nat (embedding_size cfg))))))
            E).
Proof.
  intros HfE Hvalid.
  destruct (valid_encoder_batch_spec cfg E El Hvalid) as (Hrect & Hi32 & Hids & _).
  assert (HE : encoder_inputs (build_placeholders mode) ctx = ok E).
  { unfold build_placeholders. destruct (String.eqb mode "train"); simpl;
      apply placeholder_mat_fed; assumption. }
  unfold tf_layers_dense3, embedding_lookup_mat. rewrite HE. cbn [bind ok].
  rewrite (mapM_ok_map _
             (map (fun id => map (fun k => vars ctx "encoder/embedding"%string (Z.to_nat id) k)
                                 (seq 0 (Z.to_nat (embedding_size cfg)))))).
  - cbn [bind ok]. rewrite map_map. f_equal. apply map_ext. intros row.
    apply map_map.
  - eapply Forall_impl; [| exact Hids]. intros row Hrow.
    apply mapM_ok_map. eapply Forall_impl; [| exact Hrow]. intros id Hid.
    simpl in Hid. unfold embedding_row.
    replace ((0 <=? id) && (id <? encoder_vocab_size cfg)) with true
      by (symmetry; apply andb_true_iff; split;
          [apply Z.leb_le | apply Z.ltb_lt]; lia).
    reflexivity.
Qed.

Lemma width_map {A B} (f : list A -> list B) (m : list (list A)) :
  (forall r, length (f r) = length r) -> width (map f m) = width m.
Proof. intros H. destruct m as [| r m]; [reflexivity | apply H]. Qed.

Lemma nth_error_firstn_lt {A} (n k : nat) (l : list A) :
  (k < n)%nat -> nth_error (firstn n l) k = nth_error l k.
Proof.
  revert k l. induction n as [| n IH]; intros k l Hk; [lia |].
  destruct l as [| a l]; [destruct k; reflexivity |].
  destruct k as [| k]; [reflexivity |]. simpl. apply IH. lia.
Qed.

(** Time step by time step, the inputs of two batches that are the same
    up to the lengths agree on the rows that have not finished. *)
Lemma time_major_agree (lens : IntVec) (E E' : IntMat) (f : Z -> Vec) :
  length lens = length E ->
  same_up_to_lengths lens E E' = true ->
  inputs_agree lens 0 (time_major (map (map f) E)) (time_major (map (map f) E')).
Proof.
  intros HlenL Hsame.
  destruct (same_up_to_lengths_spec _ _ _ Hsame) as [Hlen Hrows].
  unfold time_major.
  assert (Hw : width (map (map f) E') = width (map (map f) E)).
  { rewrite !width_map by (intros; apply length_map).
    destruct E as [| r E], E' as [| r' E']; try discriminate; [reflexivity |].
    destruct lens as [| l lens]; [discriminate |].
    symmetry. apply (Hrows 0%nat l r r'); reflexivity. }
  rewrite Hw. apply inputs_agree_seq. intros k _. split.
  - rewrite !length_map. exact Hlen.
  - intros i Hi. rewrite !nth_error_map.
    destruct (nth_error lens i) as [l |] eqn:Hl.
    2:{ apply nth_error_None in Hl. rewrite nth_overflow in Hi
          by (rewrite length_map; exact Hl). discriminate. }
    assert (Hk : Z.of_nat k < l).
    { rewrite (nth_error_nth (map (fun l0 => l0 <=? Z.of_nat k) lens) i true
                 (x := l <=? Z.of_nat k)) in Hi
        by (rewrite nth_error_map, Hl; reflexivity).
      apply Z.leb_gt. exact Hi. }
    destruct (nth_error E i) as [row |] eqn:Hrow,
             (nth_error E' i) as [row' |] eqn:Hrow'; simpl.
    + f_equal. apply nth_of_nth_error. rewrite !nth_error_map. f_equal.
      destruct (Hrows i l row row' Hl Hrow Hrow') as [_ Hfirst].
      rewrite <- (nth_error_firstn_lt (Z.to_nat l) k row) by lia.
      rewrite <- (nth_error_firstn_lt (Z.to_nat l) k row') by lia.
      rewrite Hfirst. reflexivity.
    + exfalso. apply nth_error_None in Hrow'.
      assert (i < length E)%nat by (apply nth_error_Some; congruence). lia.
    + exfalso. apply nth_error_None in Hrow.
      assert (i < length E')%nat by (apply nth_error_Some; congruence). lia.
    + reflexivity.
Qed.

(** The final state of [dynamic_rnn] from the zero state, on two batches
    that agree up to the lengths. *)
Lemma dynamic_rnn_run_padding (cell : RNNCell) scope ctx (lens : IntVec)
    (E E' : IntMat) (f : Z -> Vec) :
  length lens = length E ->
  same_up_to_lengths lens E E' = true ->
  (r <- dynamic_rnn_run (cell_call cell scope ctx)
          (zero_state cell (length (map (map f) E))) (map (map f) E) lens ;;
   ok (snd r))
  = (r <- dynamic_rnn_run (cell_call cell scope ctx)
            (zero_state cell (length (map (map f) E'))) (map (map f) E') lens ;;
     ok (snd r)).
Proof.
  intros HlenL Hsame.
  pose proof (time_major_agree lens E E' f HlenL Hsame) as Hagree.
  destruct (same_up_to_lengths_spec _ _ _ Hsame) as [Hlen _].
  unfold dynamic_rnn_run. rewrite !length_map, <- Hlen.
  destruct (Nat.eqb (length lens) (length E)); [| reflexivity].
  pose proof (rnn_loop_padding cell scope ctx lens 0 _ _
                (zero_state cell (length E)) Hagree) as Hloop.
  destruct (rnn_loop _ lens 0 (time_major (map (map f) E)) _) as [e | [os sf]],
           (rnn_loop _ lens 0 (time_major (map (map f) E')) _) as [e' | [os' sf']];
    simpl in Hloop |- *; congruence.
Qed.

(** A cell reads the variables, the dropout samples and the
    keep-probability of a run, nothing else of it. *)
Lemma single_cell_call_same (c : SingleCell) scope ctx ctx' t x h :
  model_cell c ->
  vars ctx = vars ctx' -> noise ctx = noise ctx' ->
  fd_keep_prob (feed ctx) = fd_keep_prob (feed ctx') ->
  single_cell_call c scope ctx t x h = single_cell_call c scope ctx' t x h.
Proof.
  intros Hc Hv Hn Hk. revert x h. induction c as [units name | c IH p];
    intros x h; simpl.
  - rewrite Hv. reflexivity.
  - destruct Hc as [-> Hc]. rewrite (IH Hc). unfold placeholder_scalar.
    rewrite Hk, Hn. reflexivity.
Qed.

Lemma cell_call_same (cell : RNNCell) scope ctx ctx' :
  model_rnn_cell cell ->
  vars ctx = vars ctx' -> noise ctx = noise ctx' ->
  fd_keep_prob (feed ctx) = fd_keep_prob (feed ctx') ->
  cell_call cell scope ctx = cell_call cell scope ctx'.
Proof.
  intros Hcell Hv Hn Hk.
  apply functional_extensionality. intros t.
  apply functional_extensionality. intros x.
  apply functional_extensionality. intros s.
  unfold cell_call. destruct cell as [c | cells], s as [h | hs]; try reflexivity.
  - rewrite (single_cell_call_same c _ ctx ctx' t x h Hcell Hv Hn Hk). reflexivity.
  - f_equal. generalize 0%nat as i. revert x.
    induction Hcell as [| c cells Hc _ IH]; intros x i; simpl; [reflexivity |].
    destruct (nth_error hs i) as [cur |]; [| reflexivity].
    rewrite (single_cell_call_same c _ ctx ctx' t x cur Hc Hv Hn Hk).
    destruct (single_cell_call c _ ctx' t x cur) as [e | [o ns]]; [reflexivity |].
    simpl. rewrite IH. reflexivity.
Qed.

Lemma state_component_of_state {A} (run : Tensor (A * StateV)) (i : nat) ctx ctx' :
  (r <- run ctx ;; ok (snd r)) = (r <- run ctx' ;; ok (snd r)) ->
  state_component run i ctx = state_component run i ctx'.
Proof.
  unfold state_component.
  destruct (run ctx) as [e | [a s]], (run ctx') as [e' | [a' s']]; simpl;
    intros H; inversion H; reflexivity.
Qed.

Lemma state_tensor_of_state {A} (run : Tensor (A * StateV)) ctx ctx' :
  (r <- run ctx ;; ok (snd r)) = (r <- run ctx' ;; ok (snd r)) ->
  state_tensor run ctx = state_tensor run ctx'.
Proof.
  unfold state_tensor.
  destruct (run ctx) as [e | [a s]], (run ctx') as [e' | [a' s']]; simpl;
    intros H; inversion H; reflexivity.
Qed.

(** The final state of [dynamic_rnn] from the zero state is the same in
    two runs whose input batches are the same up to the lengths. *)
Lemma tf_dynamic_rnn_state_padding cell scope inputs lens outs st ctx ctx'
    (E E' : IntMat) (El : IntVec) (f : Z -> Vec) :
  tf_dynamic_rnn cell scope None inputs lens = ok (outs, st) ->
  model_rnn_cell cell ->
  vars ctx = vars ctx' -> noise ctx = noise ctx' ->
  fd_keep_prob (feed ctx) = fd_keep_prob (feed ctx') ->
  inputs ctx = ok (map (map f) E) -> inputs ctx' = ok (map (map f) E') ->
  lens ctx = ok El -> lens ctx' = ok El ->
  length El = length E ->
  same_up_to_lengths El E E' = true ->
  match st with
  | TTensor h => h ctx = h ctx'
  | TTuple hs => Forall (fun h : Tensor Mat => h ctx = h ctx') hs
  end.
Proof.
  intros H Hcell Hv Hn Hk Hx Hx' Hl Hl' Hlen Hsame.
  rewrite tf_dynamic_rnn_zero_state in H.
  set (run := fun ctx : RunCtx =>
         x <- inputs ctx ;;
         lens0 <- lens ctx ;;
         dynamic_rnn_run (cell_call cell scope ctx) (zero_state cell (length x))
                         x lens0) in *.
  assert (Hsnd : (r <- run ctx ;; ok (snd r)) = (r <- run ctx' ;; ok (snd r))).
  { unfold run. rewrite Hx, Hx', Hl, Hl'. cbn [bind ok].
    rewrite <- (cell_call_same cell scope ctx ctx' Hcell Hv Hn Hk).
    apply dynamic_rnn_run_padding; assumption. }
  cbv zeta in H. injection H as _ <-.
  destruct cell as [c | cells].
  - apply state_tensor_of_state. exact Hsnd.
  - apply Forall_forall. intros h Hh. apply in_map_iff in Hh.
    destruct Hh as (i & <- & _). apply state_component_of_state. exact Hsnd.
Qed.

(** The final state of the encoder does not depend on what the batch
    holds past the lengths: for the unidirectional encoder, and for the
    bidirectional encoder of depth 1, whose state is that of the forward
    cell. *)
Lemma build_encoder_padding (cfg : Config) (mode : string) (g : Graph) enc g'
    ctx ctx' (E E' : IntMat) (El : IntVec) :
  build_encoder cfg (build_placeholders mode) g = (inr enc, g') ->
  (use_bidirectional cfg = true -> encoder_depth cfg <= 1) ->
  fd_encoder_inputs (feed ctx) = Some E ->
  fd_encoder_inputs (feed ctx') = Some E' ->
  fd_encoder_inputs_length (feed ctx) = Some El ->
  fd_encoder_inputs_length (feed ctx') = Some El ->
  fd_keep_prob (feed ctx) = fd_keep_prob (feed ctx') ->
  vars ctx = vars ctx' -> noise ctx = noise ctx' ->
  valid_encoder_batch cfg E El = true ->
  valid_encoder_batch cfg E' El = true ->
  same_up_to_lengths El E E' = true ->
  exists hs, encoder_last_state enc = TTuple hs /\
             Forall (fun h : Tensor Mat => h ctx = h ctx') hs.
Proof.
  intros H Hbi HfE HfE' HfL HfL' Hk Hv Hn Hvalid Hvalid' Hsame.
  destruct (valid_encoder_batch_spec cfg E El Hvalid)
    as (_ & _ & _ & Hlen & HLi32 & _).
  pose proof (build_single_cell_model cfg mode) as Hcell.
  pose proof (encoder_inputs_valid cfg mode (scoped "encoder" "inputs_embedded_dense")
                ctx E El HfE Hvalid) as Hx.
  pose proof (encoder_inputs_valid cfg mode (scoped "encoder" "inputs_embedded_dense")
                ctx' E' El HfE' Hvalid') as Hx'.
  rewrite <- Hv in Hx'.
  assert (HL : encoder_inputs_length (build_placeholders mode) ctx = ok El).
  { unfold build_placeholders. destruct (String.eqb mode "train"); simpl;
      apply placeholder_vec_fed; assumption. }
  assert (HL' : encoder_inputs_length (build_placeholders mode) ctx' = ok El).
  { unfold build_placeholders. destruct (String.eqb mode "train"); simpl;
      apply placeholder_vec_fed; assumption. }
  set (ph := build_placeholders mode) in *.
  unfold build_encoder in H.
  apply bbind_ok in H. destruct H as (emb & g1 & Hemb & H).
  apply tf_get_variable_ok in Hemb. subst emb.
  apply bbind_ok in H. destruct H as (u & g2 & _ & H).
  destruct (use_bidirectional cfg).
  - specialize (Hbi eq_refl).
    apply bbind_ok in H.
    destruct H as ([[fw_outputs bw_outputs] [fw_state bw_state]] & g3 & Hbidi & H).
    apply bidirectional_dynamic_rnn_ok in Hbidi. destruct Hbidi as [Hbidi _].
    unfold tf_bidirectional_dynamic_rnn in Hbidi.
    apply bind_ok in Hbidi. destruct Hbidi as ([ofw sfw] & Hfw & Hbidi).
    apply bind_ok in Hbidi. destruct Hbidi as ([tmp sbw] & _ & Hbidi).
    injection Hbidi as _ _ <- _.
    pose proof (tf_dynamic_rnn_state_padding _ _ _ _ _ _ ctx ctx' E E' El _
                  Hfw Hcell Hv Hn Hk Hx Hx' HL HL' Hlen Hsame) as Hstate.
    apply bbind_ok in H. destruct H as (u1 & g4 & _ & H).
    apply bbind_ok in H. destruct H as (upper & g5 & Hupper & H).
    apply lift_ok in Hupper. destruct Hupper as [Hupper ->].
    replace (2 <? encoder_depth cfg) with false in Hupper
      by (symmetry; apply Z.ltb_ge; lia).
    replace (encoder_depth cfg =? 2) with false in Hupper
      by (symmetry; apply Z.eqb_neq; lia).
    injection Hupper as <-.
    apply bbind_ok in H. destruct H as (fw & g6 & Hfwt & H).
    apply lift_ok in Hfwt. destruct Hfwt as [Hfwt ->]. cbn [fst] in Hfwt.
    apply bret_ok in H. destruct H as [-> _]. cbn [encoder_last_state].
    exists fw. split; [reflexivity |].
    destruct sfw as [h | hs]; simpl in Hfwt; [| discriminate].
    injection Hfwt as <-. constructor; [exact Hstate | constructor].
  - apply bbind_ok in H. destruct H as (cell & g3 & Hcellok & H).
    apply lift_ok in Hcellok. destruct Hcellok as [Hcellok ->].
    apply bbind_ok in H. destruct H as ([outs st] & g4 & Hrnn & H).
    apply dynamic_rnn_ok in Hrnn.
    apply bret_ok in H. destruct H as [-> _]. cbn [encoder_last_state].
    assert (Hc : model_rnn_cell cell).
    { unfold build_encoder_cell in Hcellok. eapply new_MultiRNNCell_model.
      exact Hcellok. }
    pose proof (tf_dynamic_rnn_state_padding _ _ _ _ _ _ ctx ctx' E E' El _
                  Hrnn Hc Hv Hn Hk Hx Hx' HL HL' Hlen Hsame) as Hstate.
    unfold build_encoder_cell, new_MultiRNNCell in Hcellok.
    destruct (map _ _) as [| c cs]; [discriminate |]. injection Hcellok as Hcell'.
    subst cell. rewrite tf_dynamic_rnn_zero_state in Hrnn. cbv zeta in Hrnn.
    destruct st as [h | hs]; [discriminate |].
    exists hs. split; [reflexivity | exact Hstate].
Qed.

(** The greedy loop reads a run through the batch size, the initial
    state, the variables and the cell. *)
Lemma greedy_cell_same (cfg : Config) (cells : list SingleCell)
    (batch : Tensor nat) (init : Tensor StateV) (k : nat) ctx ctx' :
  Forall model_cell cells ->
  batch ctx = batch ctx' -> init ctx = init ctx' ->
  vars ctx = vars ctx' -> noise ctx = noise ctx' ->
  fd_keep_prob (feed ctx) = fd_keep_prob (feed ctx') ->
  greedy_cell cfg (MultiRNNCell cells) batch init k ctx
  = greedy_cell cfg (MultiRNNCell cells) batch init k ctx'.
Proof.
  intros Hcells Hbatch Hinit Hv Hn Hk.
  pose proof (cell_call_same (MultiRNNCell cells) "decoder" ctx ctx' Hcells Hv Hn Hk)
    as Hcall.
  induction k as [| k IH]; cbn [greedy_cell].
  - rewrite Hbatch, Hinit, Hcall. unfold embed_tokens. rewrite Hv. reflexivity.
  - rewrite IH, Hcall. unfold greedy_choice, project_logits, embed_tokens.
    rewrite Hv. reflexivity.
Qed.

(** X9. What is fed past the length of an example in the encoder batch is
    padding: two valid batches with the same lengths that hold the same
    tokens before each example's length give the same result of
    [inference], predictions, scores or exception.  This holds for the
    unidirectional encoder and for the bidirectional encoder of depth 1,
    whose final state is the one of the forward cell. *)
Theorem padding_is_ignored (cfg : Config) (md : string) (g : Graph)
    (m : Seq2SeqModel) (g' : Graph) (sess : Session) (w : Noise)
    (E E' : IntMat) (El : IntVec) :
  Seq2SeqModel_init cfg md g = (inr m, g') ->
  (use_bidirectional cfg = true -> encoder_depth cfg <= 1) ->
  valid_encoder_batch cfg E El = true ->
  valid_encoder_batch cfg E' El = true ->
  same_up_to_lengths El E E' = true ->
  inference m sess w E El = inference m sess w E' El.
Proof.
  intros H Hbi Hvalid Hvalid' Hsame.
  apply Seq2SeqModel_init_ok in H. destruct H as [[Hmd | Hmd] H]; rewrite Hmd in H;
    apply build_graph_ok in H;
    destruct H as (g1 & enc & g2 & dec & g3 & opt & _ & Henc & Hdec & _ & ->).
  - apply build_decoder_train in Hdec. destruct Hdec as (Hp & _).
    unfold inference. cbn [decoder]. rewrite Hp. reflexivity.
  - unfold inference. cbn [decoder].
    match goal with
    | |- context [run_ctx sess ?f w] =>
        match f with
        | context [Some E] => set (ctx1 := run_ctx sess f w)
        end
    end.
    match goal with
    | |- context [run_ctx sess ?f w] =>
        match f with
        | context [Some E'] => set (ctx2 := run_ctx sess f w)
        end
    end.
    destruct (build_encoder_padding cfg "inference" g1 enc g2 ctx1 ctx2 E E' El
                Henc Hbi eq_refl eq_refl eq_refl eq_refl eq_refl eq_refl eq_refl
                Hvalid Hvalid' Hsame) as (hs0 & Hhs0 & Hstate).
    destruct (build_decoder_inference_inv _ _ _ _ _ _ _ Hdec Hhs0)
      as (cells & Hcellok & _ & _ & _ & _ & Hp & Hs).
    assert (Hmodel : Forall model_cell cells).
    { unfold build_decoder_cell in Hcellok.
      apply (new_MultiRNNCell_model _ _ _ _ Hcellok). }
    assert (Hbatch : batch_size (build_placeholders "inference") ctx1
                     = batch_size (build_placeholders "inference") ctx2).
    { rewrite (batch_size_valid "inference" ctx1 E El cfg eq_refl Hvalid).
      rewrite (batch_size_valid "inference" ctx2 E' El cfg eq_refl Hvalid').
      destruct (valid_encoder_batch_spec cfg E El Hvalid) as (_ & _ & _ & Hl & _).
      destruct (valid_encoder_batch_spec cfg E' El Hvalid') as (_ & _ & _ & Hl' & _).
      f_equal. congruence. }
    assert (Hinit : eval_state (TTuple (firstn (length cells) hs0)) ctx1
                    = eval_state (TTuple (firstn (length cells) hs0)) ctx2).
    { unfold eval_state.
      pose proof (mapM_ext_in (fun h : Tensor Mat => h ctx1) (fun h => h ctx2)
                    (firstn (length cells) hs0)
                    (firstn_Forall _ _ _ Hstate)) as Hm.
      unfold Tensor, Mat, Vec in *. rewrite Hm. reflexivity. }
    assert (Hstep : forall k,
               greedy_step cfg (MultiRNNCell cells)
                 (batch_size (build_placeholders "inference"))
                 (eval_state (TTuple (firstn (length cells) hs0))) k ctx1
               = greedy_step cfg (MultiRNNCell cells)
                   (batch_size (build_placeholders "inference"))
                   (eval_state (TTuple (firstn (length cells) hs0))) k ctx2).
    { intros k. unfold greedy_step.
      rewrite (greedy_cell_same cfg cells _ _ k ctx1 ctx2 Hmodel Hbatch Hinit
                 eq_refl eq_refl eq_refl).
      reflexivity. }
    rewrite Hp, Hs. cbn [attr bind ok].
    replace (fun k : nat =>
               r <- greedy_step cfg (MultiRNNCell cells)
                      (batch_size (build_placeholders "inference"))
                      (eval_state (TTuple (firstn (length cells) hs0))) k ctx1 ;;
               ok (fst r))
      with (fun k : nat =>
               r <- greedy_step cfg (MultiRNNCell cells)
                      (batch_size (build_placeholders "inference"))
                      (eval_state (TTuple (firstn (length cells) hs0))) k ctx2 ;;
               ok (fst r))
      by (apply functional_extensionality; intros k; rewrite Hstep; reflexivity).
    replace (fun k : nat =>
               r <- greedy_step cfg (MultiRNNCell cells)
                      (batch_size (build_placeholders "inference"))
                      (eval_state (TTuple (firstn (length cells) hs0))) k ctx1 ;;
               ok (snd r))
      with (fun k : nat =>
               r <- greedy_step cfg (MultiRNNCell cells)
                      (batch_size (build_placeholders "inference"))
                      (eval_state (TTuple (firstn (length cells) hs0))) k ctx2 ;;
               ok (snd r))
      by (apply functional_extensionality; intros k; rewrite Hstep; reflexivity).
    reflexivity.
Qed.

(** ** The loss and the padding of the encoder batch *)

(** The decoder placeholders of the training graph read the encoder
    batch for its size only. *)
Lemma train_placeholders_padding (cfg : Config) ctx ctx' (E E' : IntMat)
    (El : IntVec) :
  fd_encoder_inputs (feed ctx) = Some E ->
  fd_encoder_inputs (feed ctx') = Some E' ->
  fd_decoder_inputs (feed ctx) = fd_decoder_inputs (feed ctx') ->
  fd_decoder_inputs_length (feed ctx) = fd_decoder_inputs_length (feed ctx') ->
  valid_encoder_batch cfg E El = true ->
  valid_encoder_batch cfg E' El = true ->
  let ph := build_placeholders "train" in
  fetch (decoder_inputs_train ph) ctx = fetch (decoder_inputs_train ph) ctx' /\
  fetch (decoder_inputs_train_length ph) ctx
  = fetch (decoder_inputs_train_length ph) ctx' /\
  fetch (decoder_targets_train ph) ctx = fetch (decoder_targets_train ph) ctx' /\
  fetch (decoder_targets_train_length ph) ctx
  = fetch (decoder_targets_train_length ph) ctx'.
Proof.
  intros HfE HfE' HD HDl Hvalid Hvalid'.
  destruct (valid_encoder_batch_spec cfg E El Hvalid) as (Hr & Hi & _ & Hl & _).
  destruct (valid_encoder_batch_spec cfg E' El Hvalid') as (Hr' & Hi' & _ & Hl' & _).
  assert (Hlen : length E = length E') by congruence.
  simpl. unfold fetch. cbn [attr bind ok].
  rewrite (placeholder_mat_fed fd_encoder_inputs ctx E HfE Hr Hi).
  rewrite (placeholder_mat_fed fd_encoder_inputs ctx' E' HfE' Hr' Hi').
  cbn [bind ok]. unfold placeholder_mat, placeholder_vec.
  rewrite HD, HDl, Hlen. repeat split; reflexivity.
Qed.

Ltac refold_fetch t c :=
  match goal with
  | |- context [fetch (Some ?u) c] => change (fetch (Some u) c) with (fetch t c)
  end.

(** The loss of the training graph on two runs that differ in the
    padding of the encoder batch only. *)
Lemma train_loss_padding (cfg : Config) (g : Graph) m g' ctx ctx'
    (E E' : IntMat) (El : IntVec) :
  build_graph cfg "train" g = (inr m, g') ->
  (use_bidirectional cfg = true -> encoder_depth cfg <= 1) ->
  fd_encoder_inputs (feed ctx) = Some E ->
  fd_encoder_inputs (feed ctx') = Some E' ->
  fd_encoder_inputs_length (feed ctx) = Some El ->
  fd_encoder_inputs_length (feed ctx') = Some El ->
  fd_decoder_inputs (feed ctx) = fd_decoder_inputs (feed ctx') ->
  fd_decoder_inputs_length (feed ctx) = fd_decoder_inputs_length (feed ctx') ->
  fd_keep_prob (feed ctx) = fd_keep_prob (feed ctx') ->
  vars ctx = vars ctx' -> noise ctx = noise ctx' ->
  valid_encoder_batch cfg E El = true ->
  valid_encoder_batch cfg E' El = true ->
  same_up_to_lengths El E E' = true ->
  fetch (loss (decoder m)) ctx = fetch (loss (decoder m)) ctx'.
Proof.
  intros H Hbi HfE HfE' HfL HfL' HD HDl Hk Hv Hn Hvalid Hvalid' Hsame.
  apply build_graph_ok in H.
  destruct H as (g1 & enc & g2 & dec & g3 & opt & _ & Henc & Hdec & _ & ->).
  cbn [decoder].
  destruct (build_encoder_padding cfg "train" g1 enc g2 ctx ctx' E E' El
              Henc Hbi HfE HfE' HfL HfL' Hk Hv Hn Hvalid Hvalid' Hsame)
    as (hs & Hhs & Hstate).
  destruct (train_placeholders_padding cfg ctx ctx' E E' El HfE HfE' HD HDl
              Hvalid Hvalid') as (Hit & Hitl & Htt & Httl).
  apply build_decoder_train_inv in Hdec.
  destruct Hdec as (cell & st & Hcell & Hrnn & Hlogits & Hmasks & Hloss).
  assert (Hmodel : model_rnn_cell cell).
  { unfold build_decoder_cell in Hcell. eapply new_MultiRNNCell_model. exact Hcell. }
  assert (Hs0 : eval_state (encoder_last_state enc) ctx
                = eval_state (encoder_last_state enc) ctx').
  { rewrite Hhs. unfold eval_state.
    pose proof (mapM_ext_in (fun h : Tensor Mat => h ctx) (fun h => h ctx') hs
                  Hstate) as Hm.
    unfold Tensor, Mat, Vec in *. rewrite Hm. reflexivity. }
  unfold tf_dynamic_rnn in Hrnn. apply bind_ok in Hrnn.
  destruct Hrnn as (u & _ & Hrnn). cbv zeta in Hrnn. injection Hrnn as Houts _.
  assert (Hout : decoder_outputs dec ctx = decoder_outputs dec ctx').
  { rewrite <- Houts. cbv beta. unfold embedding_lookup_mat.
    refold_fetch (decoder_inputs_train (build_placeholders "train")) ctx.
    refold_fetch (decoder_inputs_train (build_placeholders "train")) ctx'.
    refold_fetch (decoder_inputs_train_length (build_placeholders "train")) ctx.
    refold_fetch (decoder_inputs_train_length (build_placeholders "train")) ctx'.
    rewrite Hit, Hitl, Hs0, Hv.
    rewrite (cell_call_same cell "decoder" ctx ctx' Hmodel Hv Hn Hk).
    reflexivity. }
  assert (Hmk : fetch (decoder_masks dec) ctx = fetch (decoder_masks dec) ctx').
  { rewrite Hmasks. do 2 fetch_some. rewrite Hitl, Httl. reflexivity. }
  rewrite Hloss. do 2 fetch_some. rewrite Hlogits. unfold tf_layers_dense3.
  rewrite Hout, Hv, Htt, Hmk. reflexivity.
Qed.

(** X10. The padding of the encoder batch does not reach training either:
    two valid batches with the same lengths that hold the same tokens
    before each example's length give the same result of [eval], and the
    same result of [train], loss, updated session or exception, on every
    decoder batch.  This holds for the unidirectional encoder and for
    the bidirectional encoder of depth 1. *)
Theorem training_ignores_encoder_padding (cfg : Config) (md : string) (g : Graph)
    (m : Seq2SeqModel) (g' : Graph) (sess : Session) (w : Noise)
    (E E' : IntMat) (El : IntVec) (D : IntMat) (Dl : IntVec) :
  Seq2SeqModel_init cfg md g = (inr m, g') ->
  (use_bidirectional cfg = true -> encoder_depth cfg <= 1) ->
  valid_encoder_batch cfg E El = true ->
  valid_encoder_batch cfg E' El = true ->
  same_up_to_lengths El E E' = true ->
  eval m sess w E El D Dl = eval m sess w E' El D Dl /\
  train m sess w E El D Dl = train m sess w E' El D Dl.
Proof.
  intros H Hbi Hvalid Hvalid' Hsame.
  apply Seq2SeqModel_init_ok in H. destruct H as [[Hmd | Hmd] H]; rewrite Hmd in H.
  - pose proof (fun ctx ctx' HfE HfE' HfL HfL' HD HDl Hk Hv Hn =>
                  train_loss_padding cfg g m g' ctx ctx' E E' El H Hbi
                    HfE HfE' HfL HfL' HD HDl Hk Hv Hn Hvalid Hvalid' Hsame)
      as Hpad.
    apply build_graph_ok in H.
    destruct H as (g1 & enc & g2 & dec & g3 & opt & _ & _ & _ & Hopt & ->).
    apply build_optimizer_train in Hopt.
    destruct Hopt as (lt & Hl & _ & Hgr & Hclip & Hop).
    cbn [decoder] in Hpad. rewrite Hl in Hpad.
    assert (Hsame_loss : forall ctx ctx',
               fd_encoder_inputs (feed ctx) = Some E ->
               fd_encoder_inputs (feed ctx') = Some E' ->
               fd_encoder_inputs_length (feed ctx) = Some El ->
               fd_encoder_inputs_length (feed ctx') = Some El ->
               fd_decoder_inputs (feed ctx) = fd_decoder_inputs (feed ctx') ->
               fd_decoder_inputs_length (feed ctx)
               = fd_decoder_inputs_length (feed ctx') ->
               fd_keep_prob (feed ctx) = fd_keep_prob (feed ctx') ->
               vars ctx = vars ctx' -> noise ctx = noise ctx' ->
               lt ctx = lt ctx').
    { intros ctx ctx' HfE HfE' HfL HfL' HD HDl Hk Hv Hn.
      exact (Hpad ctx ctx' HfE HfE' HfL HfL' HD HDl Hk Hv Hn). }
    clear Hpad.
    unfold train, eval. cbn [decoder optimization placeholders config].
    rewrite Hl, Hop.
    destruct (attr (decoder_inputs_length (build_placeholders "train")))
      as [e | dl]; [split; reflexivity |].
    cbn [bind attr ok]. split.
    + rewrite (Hsame_loss
                 (run_ctx sess
                    {| fd_encoder_inputs := Some E;
                       fd_encoder_inputs_length := Some El;
                       fd_decoder_inputs := Some D;
                       fd_decoder_inputs_length := Some Dl;
                       fd_keep_prob := Some 1%R |} w)
                 (run_ctx sess
                    {| fd_encoder_inputs := Some E';
                       fd_encoder_inputs_length := Some El;
                       fd_decoder_inputs := Some D;
                       fd_decoder_inputs_length := Some Dl;
                       fd_keep_prob := Some 1%R |} w)
                 eq_refl eq_refl eq_refl eq_refl eq_refl eq_refl eq_refl eq_refl
                 eq_refl).
      reflexivity.
    + set (ctx1 := run_ctx sess
                     {| fd_encoder_inputs := Some E;
                        fd_encoder_inputs_length := Some El;
                        fd_decoder_inputs := Some D;
                        fd_decoder_inputs_length := Some Dl;
                        fd_keep_prob := Some (1 - dropout_rate cfg)%R |} w).
      set (ctx2 := run_ctx sess
                     {| fd_encoder_inputs := Some E';
                        fd_encoder_inputs_length := Some El;
                        fd_decoder_inputs := Some D;
                        fd_decoder_inputs_length := Some Dl;
                        fd_keep_prob := Some (1 - dropout_rate cfg)%R |} w).
      assert (Hloss : lt ctx1 = lt ctx2).
      { apply Hsame_loss; reflexivity. }
      assert (Hgrad : (fun vs => lt (with_vars ctx1 vs))
                      = (fun vs => lt (with_vars ctx2 vs))).
      { apply functional_extensionality. intros vs.
        apply Hsame_loss; reflexivity. }
      assert (Hg : fetch (clip_gradients opt) ctx1 = fetch (clip_gradients opt) ctx2).
      { rewrite Hclip. do 2 fetch_some. rewrite Hgr. do 2 fetch_some.
        rewrite Hloss, Hgrad. reflexivity. }
      rewrite Hloss, Hg. reflexivity.
  - apply build_graph_ok in H.
    destruct H as (g1 & enc & g2 & dec & g3 & opt & _ & _ & _ & _ & ->).
    unfold train, eval. cbn [placeholders]. split; reflexivity.
Qed.

(** ** How low a score can be *)

Section Scores.
Local Open Scope R_scope.

Lemma Rsum_map_div {A} (f : A -> R) (s : R) (l : list A) :
  Rsum (map (fun x => f x / s) l) = Rsum (map f l) / s.
Proof.
  induction l as [| a l IH]; simpl; [unfold Rdiv; ring |].
  rewrite IH. unfold Rdiv. ring.
Qed.

(** The probabilities of a softmax sum to 1. *)
Lemma Rsum_softmax (logits : Vec) : logits <> [] -> Rsum (softmax logits) = 1.
Proof.
  intros Hne. unfold softmax. rewrite (Rsum_map_div exp).
  assert (Hpos : 0 < Rsum (map exp logits)).
  { destruct logits as [| x l]; [contradiction |]. simpl.
    pose proof (exp_pos x) as Hx.
    assert (Hl : 0 <= Rsum (map exp l)).
    { apply Rsum_nonneg. apply Forall_forall. intros y Hy.
      apply in_map_iff in Hy. destruct Hy as (z & <- & _). left. apply exp_pos. }
    lra. }
  unfold Rdiv. apply Rinv_r. lra.
Qed.

Lemma fold_left_Rmax_ge (l : list R) (x : R) :
  x <= fold_left Rmax l x /\ Forall (fun y => y <= fold_left Rmax l x) l.
Proof.
  revert x. induction l as [| y l IH]; intros x; simpl.
  - split; [lra | constructor].
  - destruct (IH (Rmax x y)) as [Hm Hl].
    pose proof (Rmax_l x y) as Hx. pose proof (Rmax_r x y) as Hy.
    split; [lra |]. constructor; [lra | exact Hl].
Qed.

Lemma Rsum_le_max (l : list R) (M : R) :
  Forall (fun y => y <= M) l -> Rsum l <= INR (length l) * M.
Proof.
  induction 1 as [| y l Hy _ IH].
  - simpl. lra.
  - change (Rsum (y :: l)) with (y + Rsum l).
    change (length (y :: l)) with (S (length l)). rewrite S_INR. lra.
Qed.

(** The greatest of [n] probabilities that sum to 1 is at least 1/n. *)
Lemma tf_reduce_max_uniform (p : Vec) (s : R) :
  Rsum p = 1 -> tf_reduce_max p = ok s -> / INR (length p) <= s.
Proof.
  intros Hsum Hmax. destruct p as [| x l]; [discriminate |].
  simpl in Hmax. injection Hmax as <-.
  destruct (fold_left_Rmax_ge l x) as [Hx Hl].
  assert (Hall : Forall (fun y => y <= fold_left Rmax l x) (x :: l))
    by (constructor; assumption).
  pose proof (Rsum_le_max (x :: l) (fold_left Rmax l x) Hall) as Hle.
  rewrite Hsum in Hle.
  assert (Hn : 0 < INR (length (x :: l))) by (apply lt_0_INR; simpl; lia).
  set (n := INR (length (x :: l))) in *. set (M := fold_left Rmax l x) in *.
  apply Rmult_le_reg_l with (r := n); [exact Hn |].
  rewrite Rinv_r by lra. exact Hle.
Qed.

Lemma map2_mapM_Forall {A B C} (Q : C -> Prop) (f : A -> result B)
    (h : A -> B -> C) (l : list A) (vs : list B) :
  (forall a v, In a l -> f a = ok v -> Q (h a v)) ->
  mapM f l = ok vs -> Forall Q (map2 h l vs).
Proof.
  revert vs. induction l as [| a l IH]; intros vs HQ H; simpl in H.
  - injection H as <-. constructor.
  - apply bind_ok in H. destruct H as (v & Hv & H).
    apply bind_ok in H. destruct H as (vs' & Hvs & H). injection H as <-.
    unfold map2. simpl. constructor.
    + apply HQ; [left; reflexivity | exact Hv].
    + apply IH; [| exact Hvs]. intros a' v' Hin. apply HQ. right. exact Hin.
Qed.

Lemma mapM_ok_Forall {A B} (Q : B -> Prop) (f : A -> result B) (l : list A)
    (vs : list B) :
  (forall a v, f a = ok v -> Q v) -> mapM f l = ok vs -> Forall Q vs.
Proof.
  intros HQ. revert vs. induction l as [| a l IH]; intros vs H; simpl in H.
  - injection H as <-. constructor.
  - apply bind_ok in H. destruct H as (v & Hv & H).
    apply bind_ok in H. destruct H as (vs' & Hvs & H). injection H as <-.
    constructor; [exact (HQ a v Hv) | exact (IH vs' Hvs)].
Qed.

Lemma stack_values_Forall {A} (P : A -> Prop) (vs : list (list A)) :
  Forall (Forall P) vs -> Forall (Forall P) (stack_values vs).
Proof.
  intros Hvs. unfold stack_values, stack_rows.
  apply Forall_forall. intros row Hrow. apply in_map_iff in Hrow.
  destruct Hrow as (b & <- & _).
  induction Hvs as [| v vs Hv _ IH]; simpl; [constructor |].
  apply Forall_app. split; [| exact IH].
  destruct (nth_error v b) as [a |] eqn:Ha; [| constructor].
  constructor; [| constructor].
  rewrite Forall_forall in Hv. apply Hv. eapply nth_error_In. exact Ha.
Qed.

(** The scores of one greedy choice. *)
Lemma greedy_choice_scores (cfg : Config) ctx (o : Mat) predicts scores :
  greedy_choice cfg ctx o = ok (predicts, scores) ->
  Forall (fun s => / IZR (decoder_vocab_size cfg) <= s <= 1) scores.
Proof.
  unfold greedy_choice. intros H.
  apply bind_ok in H. destruct H as (ps & Hps & H). injection H as _ <-.
  apply (map2_mapM_Forall _ tf_argmax) with (2 := Hps).
  intros p i Hin Hi.
  unfold project_logits in Hin. rewrite map_map in Hin.
  apply in_map_iff in Hin. destruct Hin as (x & <- & _).
  set (logits := dense_vec (vars ctx) "decoder/decoder_logits"
                           (decoder_vocab_size cfg) true x) in *.
  assert (Hlen : length logits = Z.to_nat (decoder_vocab_size cfg)).
  { unfold logits, dense_vec. rewrite length_map, length_seq. reflexivity. }
  assert (Hne : logits <> []).
  { intros Hnil. rewrite Hnil in Hi. discriminate Hi. }
  split; [| apply nth_bounds, softmax_bounds].
  pose proof (tf_reduce_max_argmax (softmax logits)) as Hmax.
  rewrite Hi in Hmax. cbn [bind ok] in Hmax.
  pose proof (tf_reduce_max_uniform _ _ (Rsum_softmax logits Hne) Hmax) as Hlow.
  rewrite softmax_length, Hlen in Hlow.
  assert (HV : (0 < decoder_vocab_size cfg)%Z).
  { destruct logits; [contradiction | simpl in Hlen; lia]. }
  rewrite INR_IZR_INZ, Z2Nat.id in Hlow by lia. exact Hlow.
Qed.

End Scores.

(** X11. Whatever [inference] returns, every score is the greatest of
    [decoder_vocab_size] probabilities that sum to 1: it lies between
    [1 / decoder_vocab_size] and 1.  (Real arithmetic stands for the
    floats.) *)
Theorem scores_at_least_uniform (cfg : Config) (md : string) (g : Graph)
    (m : Seq2SeqModel) (g' : Graph) (sess sess' : Session) (w : Noise)
    (E : IntMat) (El : IntVec) (predicts : IntMat) (scores : Mat) :
  Seq2SeqModel_init cfg md g = (inr m, g') ->
  inference m sess w E El = ok ((predicts, scores), sess') ->
  Forall (Forall (fun s => (/ IZR (decoder_vocab_size cfg) <= s <= 1)%R)) scores.
Proof.
  intros H Hinf.
  apply Seq2SeqModel_init_ok in H. destruct H as [[Hmd | Hmd] H]; rewrite Hmd in H;
    apply build_graph_ok in H;
    destruct H as (g1 & enc & g2 & dec & g3 & opt & _ & Henc & Hdec & _ & ->).
  - apply build_decoder_train in Hdec. destruct Hdec as (Hp & _).
    unfold inference in Hinf. cbn [decoder] in Hinf. rewrite Hp in Hinf.
    discriminate Hinf.
  - destruct (encoder_last_state_tuple _ _ _ _ _ Henc) as (hs0 & Hhs0).
    destruct (build_decoder_inference_inv _ _ _ _ _ _ _ Hdec Hhs0)
      as (cells & _ & _ & _ & _ & _ & Hp & Hs).
    unfold inference in Hinf. cbn [decoder] in Hinf. rewrite Hp, Hs in Hinf.
    cbn [attr bind ok] in Hinf.
    apply bind_ok in Hinf. destruct Hinf as (ps & _ & Hinf).
    apply bind_ok in Hinf. destruct Hinf as (ss & Hss & Hinf).
    injection Hinf as _ <- _.
    apply bind_ok in Hss. destruct Hss as (vs & Hvs & Hss). injection Hss as <-.
    apply stack_values_Forall.
    apply mapM_ok_Forall with (2 := Hvs).
    intros k v Hk. cbv beta in Hk.
    apply bind_ok in Hk. destruct Hk as ([p s] & Hstep & Hk). injection Hk as <-.
    unfold greedy_step in Hstep.
    apply bind_ok in Hstep. destruct Hstep as (r & _ & Hchoice).
    exact (greedy_choice_scores cfg _ _ _ _ Hchoice).
Qed.

(** ** A batch with no time step *)

(** On a batch with no time step the outputs of [dynamic_rnn] raise. *)
Lemma tf_dynamic_rnn_no_time_step cell scope inputs lens outs st ctx
    (x : Tensor3) (l : IntVec) :
  tf_dynamic_rnn cell scope None inputs lens = ok (outs, st) ->
  inputs ctx = ok x -> width x = 0%nat ->
  lens ctx = ok l -> length l = length x ->
  outs ctx = inl UnimplementedError.
Proof.
  intros H Hx Hw Hl Hlen. rewrite tf_dynamic_rnn_zero_state in H. cbv zeta in H.
  injection H as <- _. cbv beta. rewrite Hx, Hl. cbn [bind ok].
  unfold dynamic_rnn_run, time_major. rewrite Hw.
  replace (Nat.eqb (length l) (length x)) with true
    by (symmetry; apply Nat.eqb_eq; exact Hlen).
  cbn [seq map rnn_loop bind ok fst]. unfold stack_outputs. rewrite Hw.
  reflexivity.
Qed.

(** The final state of [dynamic_rnn] raises what its inputs raise. *)
Lemma tf_dynamic_rnn_failed_inputs cell scope inputs lens outs st ctx e :
  tf_dynamic_rnn cell scope None inputs lens = ok (outs, st) ->
  inputs ctx = inl e ->
  match st with
  | TTensor h => h ctx = inl e
  | TTuple hs => Forall (fun h : Tensor Mat => h ctx = inl e) hs
  end.
Proof.
  intros H Hin. rewrite tf_dynamic_rnn_zero_state in H. cbv zeta in H.
  injection H as _ <-. destruct cell as [c | cells].
  - unfold state_tensor. rewrite Hin. reflexivity.
  - apply Forall_forall. intros h Hh. apply in_map_iff in Hh.
    destruct Hh as (i & <- & _). unfold state_component. rewrite Hin. reflexivity.
Qed.

(** The bidirectional encoder of depth 2 or more on a batch with no time
    step: the state of the forward cell evaluates, the states of the
    upper cells need the outputs of the bidirectional layer and raise. *)
Lemma build_encoder_no_time_step (cfg : Config) (mode : string) (g : Graph) enc g'
    ctx (E : IntMat) (El : IntVec) p :
  build_encoder cfg (build_placeholders mode) g = (inr enc, g') ->
  use_bidirectional cfg = true -> 2 <= encoder_depth cfg ->
  fd_encoder_inputs (feed ctx) = Some E ->
  fd_encoder_inputs_length (feed ctx) = Some El ->
  fd_keep_prob (feed ctx) = Some p ->
  valid_encoder_batch cfg E El = true ->
  width E = 0%nat ->
  exists fw upper uppers,
    encoder_last_state enc = TTuple (fw :: upper :: uppers) /\
    rows_at ctx (length E) fw /\
    upper ctx = inl UnimplementedError.
Proof.
  intros H Hbi Hdepth HfE HfL Hfp Hvalid Hwidth.
  destruct (valid_encoder_batch_spec cfg E El Hvalid)
    as (Hrect & Hi32 & Hids & Hlen & HLi32 & Hbirange).
  specialize (Hbirange Hbi).
  pose proof (build_single_cell_model cfg mode) as Hcell.
  assert (Hp : placeholder_scalar fd_keep_prob ctx = ok p)
    by (unfold placeholder_scalar; rewrite Hfp; reflexivity).
  assert (HE : encoder_inputs (build_placeholders mode) ctx = ok E).
  { unfold build_placeholders. destruct (String.eqb mode "train"); simpl;
      apply placeholder_mat_fed; assumption. }
  assert (HL : encoder_inputs_length (build_placeholders mode) ctx = ok El).
  { unfold build_placeholders. destruct (String.eqb mode "train"); simpl;
      apply placeholder_vec_fed; assumption. }
  set (ph := build_placeholders mode) in *.
  unfold build_encoder in H. rewrite Hbi in H.
  apply bbind_ok in H. destruct H as (emb & g0 & _ & H).
  apply bbind_ok in H. destruct H as (u0 & g1 & _ & H).
  assert (Hdense : shape3_at ctx (length E) (width E)
            (tf_layers_dense3 (scoped "encoder" "inputs_embedded_dense")
               (hidden_units cfg) false
               (embedding_lookup_mat emb (encoder_vocab_size cfg)
                  (embedding_size cfg) (encoder_inputs ph)))).
  { apply shape3_dense3. apply embedding_lookup_mat_total; assumption. }
  apply bbind_ok in H.
  destruct H as ([[fw_outputs bw_outputs] [fw_state bw_state]] & g2 & Hbidi & H).
  apply bidirectional_dynamic_rnn_ok in Hbidi. destruct Hbidi as [Hbidi _].
  destruct (tf_bidirectional_dynamic_rnn_total _ _ _ _ _ _ ctx (length E)
              (width E) El p Hbidi Hcell Hcell Hp Hdense HL Hlen Hbirange)
    as (_ & Hfs).
  cbn [fst snd] in Hfs.
  assert (Hfo : fw_outputs ctx = inl UnimplementedError).
  { unfold tf_bidirectional_dynamic_rnn in Hbidi.
    apply bind_ok in Hbidi. destruct Hbidi as ([ofw sfw] & Hf & Hbidi).
    apply bind_ok in Hbidi. destruct Hbidi as ([tmp sbw] & _ & Hbidi).
    injection Hbidi as <- _ _ _.
    destruct Hdense as (x & Hx & Hxn & Hxw).
    apply (tf_dynamic_rnn_no_time_step _ _ _ _ _ _ ctx x El Hf Hx); [| exact HL | len_lia].
    destruct x as [| r x]; [reflexivity |]. inversion Hxw; subst. simpl. len_lia. }
  apply bbind_ok in H. destruct H as (u1 & g3 & _ & H).
  apply bbind_ok in H. destruct H as (upper & g4 & Hupper & H).
  apply lift_ok in Hupper. destruct Hupper as [Hupper ->]. cbn [fst snd] in H.
  assert (Hbo : tf_layers_dense3 (scoped "encoder" "dense") (hidden_units cfg) false
                  (tf_concat_last3 fw_outputs bw_outputs) ctx
                = inl UnimplementedError).
  { unfold tf_layers_dense3, tf_concat_last3. rewrite Hfo. reflexivity. }
  destruct upper as [upper_cell |].
  - apply bbind_ok in H.
    destruct H as ([upper_outputs upper_last_state] & g5 & Hrnn & H).
    apply dynamic_rnn_ok in Hrnn.
    pose proof (tf_dynamic_rnn_failed_inputs _ _ _ _ _ _ ctx _ Hrnn Hbo) as Hus.
    apply bbind_ok in H. destruct H as (fw & g6 & Hfw & H).
    apply lift_ok in Hfw. destruct Hfw as [Hfw ->].
    apply bbind_ok in H. destruct H as (up & g7 & Hup & H).
    apply lift_ok in Hup. destruct Hup as [Hup ->].
    apply bret_ok in H. destruct H as [-> _]. cbn [encoder_last_state].
    destruct fw_state as [h | hs]; simpl in Hfw; [| discriminate].
    injection Hfw as <-. cbn [state_rows_at] in Hfs.
    assert (Hne : exists u ups, up = u :: ups /\ u ctx = inl UnimplementedError).
    { destruct (2 <? encoder_depth cfg) eqn:Hgt.
      - apply bind_ok in Hupper. destruct Hupper as (c & Hc & Hsome).
        injection Hsome as <-.
        replace (encoder_depth cfg =? 2) with false in Hup
          by (symmetry; apply Z.eqb_neq; apply Z.ltb_lt in Hgt; lia).
        destruct upper_last_state as [h' | hs']; simpl in Hup; [discriminate |].
        injection Hup as <-.
        unfold build_encoder_cell, new_MultiRNNCell in Hc.
        destruct (map _ _) as [| c0 cs]; [discriminate |]. injection Hc as <-.
        rewrite tf_dynamic_rnn_zero_state in Hrnn. cbv zeta in Hrnn.
        injection Hrnn as _ Hst. subst hs'.
        cbn [length seq map] in Hus |- *. inversion Hus; subst.
        eexists _, _. split; [reflexivity | assumption].
      - replace (encoder_depth cfg =? 2) with true in Hupper, Hup
          by (symmetry; apply Z.eqb_eq; apply Z.ltb_ge in Hgt; lia).
        injection Hupper as <-.
        destruct upper_last_state as [h' | hs']; simpl in Hup; [| discriminate].
        injection Hup as <-. exists h', []. split; [reflexivity | exact Hus]. }
    destruct Hne as (u & ups & -> & Hu).
    exists h, u, ups. split; [reflexivity |]. split; assumption.
  - exfalso. destruct (2 <? encoder_depth cfg) eqn:Hgt.
    + apply bind_ok in Hupper. destruct Hupper as (c & _ & Hsome). discriminate.
    + replace (encoder_depth cfg =? 2) with true in Hupper
        by (symmetry; apply Z.eqb_eq; apply Z.ltb_ge in Hgt; lia).
      discriminate.
Qed.

(** X13. A batch of examples with no time step (its rows are empty)
    cannot be decoded through a bidirectional encoder of depth 2 or
    more: the outputs of the bidirectional layer, which the upper cells
    read, are the stack of an empty TensorArray.  When the decoder has
    two layers or more, so that it starts from the state of an upper
    cell, [inference] raises UnimplementedError. *)
Theorem no_time_step_is_unimplemented (cfg : Config) (md : string) (g : Graph)
    (m : Seq2SeqModel) (g' : Graph) (sess : Session) (w : Noise)
    (E : IntMat) (El : IntVec) :
  Seq2SeqModel_init cfg md g = (inr m, g') ->
  lower md = "inference"%string ->
  use_bidirectional cfg = true ->
  2 <= encoder_depth cfg -> 2 <= decoder_depth cfg ->
  0 <= GO < decoder_vocab_size cfg ->
  valid_encoder_batch cfg E El = true ->
  E <> [] -> width E = 0%nat ->
  inference m sess w E El = inl UnimplementedError.
Proof.
  intros H Hmode Hbi Hdepth Hdec2 HGO Hvalid _ Hwidth.
  apply Seq2SeqModel_init_ok in H. destruct H as [_ H].
  rewrite Hmode in H. apply build_graph_ok in H.
  destruct H as (g1 & enc & g2 & dec & g3 & opt & _ & Henc & Hdec & _ & ->).
  set (ctx := run_ctx sess
                {| fd_encoder_inputs := Some E;
                   fd_encoder_inputs_length := Some El;
                   fd_decoder_inputs := None;
                   fd_decoder_inputs_length := None;
                   fd_keep_prob := Some 1%R |} w).
  destruct (build_encoder_no_time_step cfg "inference" g1 enc g2 ctx E El 1%R
              Henc Hbi Hdepth eq_refl eq_refl eq_refl Hvalid Hwidth)
    as (fw & upper & uppers & Hhs0 & (v & Hfw & _) & Hupper).
  destruct (build_decoder_inference_inv _ _ _ _ _ _ _ Hdec Hhs0)
    as (cells & Hcellok & _ & _ & _ & HT & Hp & Hs).
  destruct (build_decoder_cell_multi _ _ _ Hcellok) as (cells' & Heq & _ & Hcells).
  injection Heq as <-.
  pose proof (batch_size_valid "inference" ctx E El cfg eq_refl Hvalid) as Hbatch.
  destruct (embed_tokens_total cfg ctx (ones_times (length E) GO)) as (x & Hx & _).
  { unfold ones_times. apply Forall_forall. intros t Ht.
    apply repeat_spec in Ht. subst t. exact HGO. }
  assert (Hinit : eval_state (TTuple (firstn (length cells) (fw :: upper :: uppers))) ctx
                  = inl UnimplementedError).
  { destruct (length cells) as [| [| n]] eqn:Hn; [lia | lia |].
    cbn [firstn eval_state mapM]. rewrite Hfw. cbn [bind ok]. rewrite Hupper.
    reflexivity. }
  unfold inference. cbn [decoder]. rewrite Hp, Hs. cbn [attr bind ok]. fold ctx.
  unfold range. destruct (Z.to_nat (decoder_max_time_steps cfg)) as [| T] eqn:HTn;
    [lia |].
  cbn [seq mapM]. unfold greedy_step at 1. cbn [greedy_cell].
  rewrite Hbatch. cbn [bind ok]. rewrite Hx. cbn [bind ok]. rewrite Hinit.
  reflexivity.
Qed.

End Seq2Seq.

(** * The theorems on sample inputs *)

Lemma sample_train_model_ok (bi : bool) :
  is_ok (fst (Seq2SeqModel_init 1 2 sample_gru sample_gradients sample_adam
                (sample_config bi 2 2 3 "adam") "train" [])) = true.
Proof. destruct bi; vm_compute; reflexivity. Qed.

Lemma sample_inference_model_ok (bi : bool) :
  is_ok (fst (Seq2SeqModel_init 1 2 sample_gru sample_gradients sample_adam
                (sample_config bi 2 2 3 "adam") "inference" [])) = true.
Proof. destruct bi; vm_compute; reflexivity. Qed.

Lemma teacher_forcing_shifts_witness :
  exists m g' ctx,
    Seq2SeqModel_init 1 2 sample_gru sample_gradients sample_adam
      (sample_config true 2 2 3 "adam") "train" [] = (inr m, g') /\
    encoder_inputs (placeholders m) ctx = ok [[4; 5; 6]; [4; 5; 0]] /\
    decoder_inputs (placeholders m) ctx = ok [[7; 8]; [7; 0]] /\
    fetch (decoder_inputs_length (placeholders m)) ctx = ok [2; 1] /\
    fetch (decoder_inputs_train (placeholders m)) ctx = ok [[1; 7; 8]; [1; 7; 0]] /\
    fetch (decoder_targets_train (placeholders m)) ctx = ok [[7; 8; 2]; [7; 0; 2]] /\
    fetch (decoder_inputs_train_length (placeholders m)) ctx = ok [3; 2] /\
    fetch (decoder_targets_train_length (placeholders m)) ctx = ok [3; 2].
Proof.
  destruct (Seq2SeqModel_init 1 2 sample_gru sample_gradients sample_adam
              (sample_config true 2 2 3 "adam") "train" [])
    as [[e | m] g'] eqn:H.
  - exfalso. pose proof (sample_train_model_ok true) as Hok.
    rewrite H in Hok. discriminate Hok.
  - pose (ctx := run_ctx sample_session
                   {| fd_encoder_inputs := Some [[4; 5; 6]; [4; 5; 0]];
                      fd_encoder_inputs_length := Some [3; 2];
                      fd_decoder_inputs := Some [[7; 8]; [7; 0]];
                      fd_decoder_inputs_length := Some [2; 1];
                      fd_keep_prob := Some 1%R |} sample_noise).
    exists m, g', ctx.
    pose proof (Seq2SeqModel_init_placeholders _ _ _ _ _ _ _ _ _ _ H) as Hph.
    assert (HE : encoder_inputs (placeholders m) ctx = ok [[4; 5; 6]; [4; 5; 0]])
      by (rewrite Hph; reflexivity).
    assert (HD : decoder_inputs (placeholders m) ctx = ok [[7; 8]; [7; 0]])
      by (rewrite Hph; reflexivity).
    assert (HL : fetch (decoder_inputs_length (placeholders m)) ctx = ok [2; 1])
      by (rewrite Hph; reflexivity).
    split; [reflexivity |]. split; [exact HE |]. split; [exact HD |].
    split; [exact HL |].
    apply (teacher_forcing_shifts 1 2 sample_gru sample_gradients sample_adam
             (sample_config true 2 2 3 "adam") "train" [] m g' ctx
             [[4; 5; 6]; [4; 5; 0]] [[7; 8]; [7; 0]] [2; 1] H eq_refl HE HD HL
             eq_refl).
    repeat constructor.
Defined.

Lemma optimizer_type_counterexample :
  "Adam"%string <> "adam"%string /\
  is_ok (fst (Seq2SeqModel_init 1 2 sample_gru sample_gradients sample_adam
                (sample_config true 2 2 3 "Adam") "train" [])) = true /\
  fst (Seq2SeqModel_init 1 2 sample_gru sample_gradients sample_adam
         (sample_config true 2 2 3 "sgd") "train" []) = inl AttributeError.
Proof.
  split; [discriminate |]. split; vm_compute; reflexivity.
Qed.

Lemma unknown_optimizer_fails_at_construction_witness :
  lower "train" = "train"%string /\
  lower (optimizer_type (sample_config true 2 2 3 "sgd")) <> "adam"%string /\
  Seq2SeqModel_init 1 2 sample_gru sample_gradients sample_adam
    (sample_config true 2 2 3 "sgd") "train" []
  = match bbind (build_encoder sample_gru (sample_config true 2 2 3 "sgd")
                               (build_placeholders 1 2 "train"))
                (fun enc => build_decoder 1 sample_gru
                              (sample_config true 2 2 3 "sgd") "train"
                              (build_placeholders 1 2 "train") enc)
            ([] ++ [("global_step"%string, false);
                    ("global_epoch_step"%string, false)]) with
    | (inl e, g3) => (inl e, g3)
    | (inr dec, g3) => (inl AttributeError, g3)
    end.
Proof.
  assert (Hne : lower (optimizer_type (sample_config true 2 2 3 "sgd"))
                <> "adam"%string) by (simpl; discriminate).
  split; [reflexivity |]. split; [exact Hne |].
  exact (unknown_optimizer_fails_at_construction 1 2 sample_gru sample_gradients
           sample_adam (sample_config true 2 2 3 "sgd") "train" [] eq_refl Hne).
Defined.

Lemma modes_build_disjoint_operations_witness :
  (exists m g',
     Seq2SeqModel_init 1 2 sample_gru sample_gradients sample_adam
       (sample_config true 2 2 3 "adam") "train" [] = (inr m, g') /\
     decoder_predicts (decoder m) = None /\
     decoder_scores (decoder m) = None /\
     forall sess w e l,
       inference m sess w e l = inl AttributeError)
  /\
  (exists m g',
     Seq2SeqModel_init 1 2 sample_gru sample_gradients sample_adam
       (sample_config true 2 2 3 "adam") "inference" [] = (inr m, g') /\
     loss (decoder m) = None /\
     train_op (optimization m) = None /\
     forall sess w e l d dl,
       train m sess w e l d dl = inl AttributeError /\
       eval m sess w e l d dl = inl AttributeError).
Proof.
  split.
  - destruct (Seq2SeqModel_init 1 2 sample_gru sample_gradients sample_adam
                (sample_config true 2 2 3 "adam") "train" [])
      as [[e | m] g'] eqn:H.
    + exfalso. pose proof (sample_train_model_ok true) as Hok.
      rewrite H in Hok. discriminate Hok.
    + exists m, g'. split; [reflexivity |].
      exact (modes_build_disjoint_operations 1 2 sample_gru sample_gradients
               sample_adam (sample_config true 2 2 3 "adam") "train" [] m g' H).
  - destruct (Seq2SeqModel_init 1 2 sample_gru sample_gradients sample_adam
                (sample_config true 2 2 3 "adam") "inference" [])
      as [[e | m] g'] eqn:H.
    + exfalso. pose proof (sample_inference_model_ok true) as Hok.
      rewrite H in Hok. discriminate Hok.
    + exists m, g'. split; [reflexivity |].
      destruct (modes_build_disjoint_operations 1 2 sample_gru sample_gradients
                  sample_adam (sample_config true 2 2 3 "adam") "inference" []
                  m g' H) as (Hl & Ht & _ & _ & Hrun).
      auto.
Defined.

Lemma sample_encoder_ok :
  is_ok (fst (build_encoder sample_gru (sample_config true 3 3 3 "adam")
                (build_placeholders 1 2 "train") [])) = true.
Proof. vm_compute. reflexivity. Qed.

Lemma bidirectional_final_state_witness :
  exists enc g',
    use_bidirectional (sample_config true 3 3 3 "adam") = true /\
    build_encoder sample_gru (sample_config true 3 3 3 "adam")
      (build_placeholders 1 2 "train") [] = (inr enc, g') /\
    exists fw upper,
      length upper = 2%nat /\ encoder_last_state enc = TTuple (fw :: upper).
Proof.
  destruct (build_encoder sample_gru (sample_config true 3 3 3 "adam")
              (build_placeholders 1 2 "train") []) as [[e | enc] g'] eqn:H.
  - exfalso. pose proof sample_encoder_ok as Hok. rewrite H in Hok.
    discriminate Hok.
  - exists enc, g'. split; [reflexivity |]. split; [reflexivity |].
    destruct (bidirectional_final_state sample_gru
                (sample_config true 3 3 3 "adam") (build_placeholders 1 2 "train")
                [] enc g' eq_refl H)
      as (fw_outputs & bw_outputs & fw & bw & _ & Hstate).
    simpl in Hstate.
    destruct Hstate as (cells & outs & upper & _ & _ & _ & Hlen & Hlast).
    exists fw, upper. split; assumption.
Defined.


(** C2. The mask does not hide the padding.  In the batch of decoder
    rows [[7; 8]] and [[7; 0]] with lengths 2 and 1, the second example is
    padded with one 0: its targets are [[7; 0; EOS]] and its weights
    [[1; 1; 0]], so that the padding at index 1, past its true length, is a
    target of weight 1 and its EOS has weight 0.  And the example of true
    length 1 alone in a batch has a loss when it is padded to its length,
    while with one more column of padding the mask, of width 2, no longer
    matches the 3 positions of the logits and the loss raises. *)
Theorem loss_mask_weights_padding :
  on_model (Seq2SeqModel_init 1 2 sample_gru sample_gradients sample_adam
              (sample_config true 2 2 3 "adam") "train" [])
    (fun m => fetch (decoder_targets_train (placeholders m))
                (sample_train_ctx [[4; 5; 6]; [4; 5; 0]] [3; 2]
                                  [[7; 8]; [7; 0]] [2; 1]))
  = ok [[7; 8; 2]; [7; 0; 2]] /\
  on_model (Seq2SeqModel_init 1 2 sample_gru sample_gradients sample_adam
              (sample_config true 2 2 3 "adam") "train" [])
    (fun m => fetch (decoder_masks (decoder m))
                (sample_train_ctx [[4; 5; 6]; [4; 5; 0]] [3; 2]
                                  [[7; 8]; [7; 0]] [2; 1]))
  = ok [[1%R; 1%R; 1%R]; [1%R; 1%R; 0%R]] /\
  is_ok (on_model (Seq2SeqModel_init 1 2 sample_gru sample_gradients sample_adam
                     (sample_config true 2 2 3 "adam") "train" [])
           (fun m => fetch (loss (decoder m))
                       (sample_train_ctx [[4; 5; 6]] [3] [[7]] [1]))) = true /\
  on_model (Seq2SeqModel_init 1 2 sample_gru sample_gradients sample_adam
              (sample_config true 2 2 3 "adam") "train" [])
    (fun m => fetch (loss (decoder m))
                (sample_train_ctx [[4; 5; 6]] [3] [[7; 0]] [1]))
  = inl InvalidArgumentError /\
  on_model (Seq2SeqModel_init 1 2 sample_gru sample_gradients sample_adam
              (sample_config true 2 2 3 "adam") "train" [])
    (fun m => fetch (decoder_masks (decoder m))
                (sample_train_ctx [[4; 5; 6]] [3] [[7; 0]] [1]))
  = ok [[1%R; 1%R]].
Proof. split; [| split; [| split; [| split]]]; lazy; reflexivity. Qed.

Lemma on_model_ok {A} (r : result Seq2SeqModel * Graph)
    (f : Seq2SeqModel -> result A) :
  is_ok (on_model r f) = true -> exists m g a, r = (inr m, g) /\ f m = ok a.
Proof.
  unfold on_model. destruct r as [[e | m] g]; simpl; [discriminate |].
  destruct (f m) as [e | a] eqn:Hf; simpl; [discriminate |].
  intros _. exists m, g, a. split; [reflexivity | exact Hf].
Qed.

Lemma sample_train_loss_ok :
  is_ok (on_model (Seq2SeqModel_init 1 2 sample_gru sample_gradients sample_adam
                     (sample_config true 2 2 3 "adam") "train" [])
           (fun m => fetch (loss (decoder m))
                       (sample_train_ctx [[4; 5; 6]; [4; 5; 0]] [3; 2]
                                         [[7; 8]; [7; 0]] [2; 1]))) = true.
Proof. vm_compute. reflexivity. Qed.

Lemma loss_is_masked_average_witness :
  exists m g' v,
    let ctx := sample_train_ctx [[4; 5; 6]; [4; 5; 0]] [3; 2] [[7; 8]; [7; 0]] [2; 1] in
    Seq2SeqModel_init 1 2 sample_gru sample_gradients sample_adam
      (sample_config true 2 2 3 "adam") "train" [] = (inr m, g') /\
    encoder_inputs (placeholders m) ctx = ok [[4; 5; 6]; [4; 5; 0]] /\
    decoder_inputs (placeholders m) ctx = ok [[7; 8]; [7; 0]] /\
    fetch (decoder_inputs_length (placeholders m)) ctx = ok [2; 1] /\
    tf_reduce_max_int [2; 1] = Z.of_nat (width [[7; 8]; [7; 0]]) /\
    fetch (loss (decoder m)) ctx = ok v /\
    fetch (decoder_masks (decoder m)) ctx = ok [[1; 1; 1]; [1; 1; 0]]%R /\
    exists X,
      v = (Rsum (map2 masked_sum X [[1; 1; 1]; [1; 1; 0]])
           / (Rsum (concat [[1; 1; 1]; [1; 1; 0]]) + / 1000000000000))%R.
Proof.
  destruct (on_model_ok _ _ sample_train_loss_ok) as (m & g' & v & H & Hloss).
  pose proof (Seq2SeqModel_init_placeholders _ _ _ _ _ _ _ _ _ _ H) as Hph.
  set (ctx := sample_train_ctx [[4; 5; 6]; [4; 5; 0]] [3; 2] [[7; 8]; [7; 0]] [2; 1])
    in *.
  assert (HE : encoder_inputs (placeholders m) ctx = ok [[4; 5; 6]; [4; 5; 0]])
    by (rewrite Hph; reflexivity).
  assert (HD : decoder_inputs (placeholders m) ctx = ok [[7; 8]; [7; 0]])
    by (rewrite Hph; reflexivity).
  assert (HL : fetch (decoder_inputs_length (placeholders m)) ctx = ok [2; 1])
    by (rewrite Hph; reflexivity).
  exists m, g', v.
  split; [exact H |]. split; [exact HE |]. split; [exact HD |].
  split; [exact HL |]. split; [reflexivity |]. split; [exact Hloss |].
  destruct (loss_is_masked_average 1 2 sample_gru sample_gradients sample_adam
              (sample_config true 2 2 3 "adam") "train" [] m g' ctx
              [[4; 5; 6]; [4; 5; 0]] [[7; 8]; [7; 0]] [2; 1] v
              H eq_refl HE HD HL eq_refl eq_refl eq_refl Hloss)
    as (HM & logits & X & _ & _ & _ & Hv).
  split; [exact HM |]. exists X. exact Hv.
Defined.

Lemma sample_eval_ok :
  is_ok (on_model (Seq2SeqModel_init 1 2 sample_gru sample_gradients sample_adam
                     (sample_config true 2 2 3 "adam") "train" [])
           (fun m => eval m sample_session sample_noise
                       [[4; 5; 6]; [4; 5; 0]] [3; 2] [[7; 8]; [7; 0]] [2; 1])) = true.
Proof. vm_compute. reflexivity. Qed.

Lemma eval_is_deterministic_witness :
  exists m g' l sess',
    Seq2SeqModel_init 1 2 sample_gru sample_gradients sample_adam
      (sample_config true 2 2 3 "adam") "train" [] = (inr m, g') /\
    unit_noise sample_noise /\ unit_noise sample_noise_half /\
    eval m sample_session sample_noise
      [[4; 5; 6]; [4; 5; 0]] [3; 2] [[7; 8]; [7; 0]] [2; 1] = ok (l, sess') /\
    sess' = sample_session /\
    eval m sess' sample_noise_half
      [[4; 5; 6]; [4; 5; 0]] [3; 2] [[7; 8]; [7; 0]] [2; 1] = ok (l, sess').
Proof.
  destruct (on_model_ok _ _ sample_eval_ok) as (m & g' & [l sess'] & H & Heval).
  assert (Hw1 : unit_noise sample_noise)
    by (intros site t b i; unfold sample_noise; lra).
  assert (Hw2 : unit_noise sample_noise_half)
    by (intros site t b i; unfold sample_noise_half; lra).
  exists m, g', l, sess'.
  split; [exact H |]. split; [exact Hw1 |]. split; [exact Hw2 |].
  split; [exact Heval |].
  exact (eval_is_deterministic 1 2 sample_gru sample_gradients sample_adam
           (sample_config true 2 2 3 "adam") "train" [] m g' sample_session sess'
           sample_noise sample_noise_half
           [[4; 5; 6]; [4; 5; 0]] [3; 2] [[7; 8]; [7; 0]] [2; 1] l
           H Hw1 Hw2 Heval).
Defined.

Lemma inference_is_greedy_loop_witness :
  exists m g' cells hs0,
    Seq2SeqModel_init 1 2 sample_gru sample_gradients sample_adam
      (sample_config true 2 2 3 "adam") "inference" [] = (inr m, g') /\
    lower "inference" = "inference"%string /\
    decoder_cell (decoder m) = MultiRNNCell cells /\
    decoder_initial_state (decoder m) = encoder_last_state (encoder m) /\
    encoder_last_state (encoder m) = TTuple hs0 /\
    (0 < length cells <= length hs0)%nat /\
    forall sess w,
      let ctx :=
        run_ctx sess
          {| fd_encoder_inputs := Some [[4; 5; 6]; [4; 5; 0]];
             fd_encoder_inputs_length := Some [3; 2];
             fd_decoder_inputs := None;
             fd_decoder_inputs_length := None;
             fd_keep_prob := Some 1%R |} w in
      let step :=
        greedy_step 1 sample_gru (sample_config true 2 2 3 "adam")
          (MultiRNNCell cells) (batch_size (placeholders m))
          (eval_state (TTuple (firstn (length cells) hs0))) in
      inference m sess w [[4; 5; 6]; [4; 5; 0]] [3; 2]
      = (predicts <- mapM (fun k => r <- step k ctx ;; ok (fst r)) [0; 1; 2]%nat ;;
         scores <- mapM (fun k => r <- step k ctx ;; ok (snd r)) [0; 1; 2]%nat ;;
         ok ((stack_values predicts, stack_values scores), sess)).
Proof.
  destruct (Seq2SeqModel_init 1 2 sample_gru sample_gradients sample_adam
              (sample_config true 2 2 3 "adam") "inference" [])
    as [[e | m] g'] eqn:H.
  - exfalso. pose proof (sample_inference_model_ok true) as Hok.
    rewrite H in Hok. discriminate Hok.
  - destruct (inference_is_greedy_loop 1 2 sample_gru sample_gradients sample_adam
                (sample_config true 2 2 3 "adam") "inference" [] m g' H eq_refl)
      as (cells & hs0 & Hcell & Hstate & Hhs0 & Hlen & _ & Hinf).
    exists m, g', cells, hs0.
    split; [reflexivity |]. split; [reflexivity |]. split; [exact Hcell |].
    split; [exact Hstate |]. split; [exact Hhs0 |]. split; [exact Hlen |].
    intros sess w. exact (Hinf sess w [[4; 5; 6]; [4; 5; 0]] [3; 2]).
Defined.


Lemma one_model_per_graph_witness :
  exists m g',
    Seq2SeqModel_init 1 2 sample_gru sample_gradients sample_adam
      (sample_config true 2 2 3 "adam") "train" [] = (inr m, g') /\
    fst (Seq2SeqModel_init 1 2 sample_gru sample_gradients sample_adam
           (sample_config false 1 1 3 "adam") "inference" g')
    = inl ValueError.
Proof.
  destruct (Seq2SeqModel_init 1 2 sample_gru sample_gradients sample_adam
              (sample_config true 2 2 3 "adam") "train" [])
    as [[e | m] g'] eqn:H.
  - exfalso. pose proof (sample_train_model_ok true) as Hok.
    rewrite H in Hok. discriminate Hok.
  - exists m, g'. split; [reflexivity |].
    exact (one_model_per_graph 1 2 sample_gru sample_gradients sample_adam
             (sample_config true 2 2 3 "adam") "train" [] m g'
             (sample_config false 1 1 3 "adam") "inference" H).
Defined.

Lemma depths_must_agree_witness :
  exists m g',
    Seq2SeqModel_init 1 2 sample_gru sample_gradients sample_adam
      (sample_config true 2 2 3 "adam") "train" [] = (inr m, g') /\
    1 <= 2 /\ (true = false -> 1 <= 2) /\ 2 = Z.max 1 2.
Proof.
  destruct (Seq2SeqModel_init 1 2 sample_gru sample_gradients sample_adam
              (sample_config true 2 2 3 "adam") "train" [])
    as [[e | m] g'] eqn:H.
  - exfalso. pose proof (sample_train_model_ok true) as Hok.
    rewrite H in Hok. discriminate Hok.
  - exists m, g'. split; [reflexivity |].
    exact (depths_must_agree 1 2 sample_gru sample_gradients sample_adam
             (sample_config true 2 2 3 "adam") "train" [] m g' H).
Defined.

Lemma sample_train_ok :
  is_ok (on_model (Seq2SeqModel_init 1 2 sample_gru sample_gradients sample_adam
                     (sample_config true 2 2 3 "adam") "train" [])
           (fun m => train m sample_session sample_noise
                       [[4; 5; 6]; [4; 5; 0]] [3; 2] [[7; 8]; [7; 0]] [2; 1])) = true.
Proof. vm_compute. reflexivity. Qed.

Lemma train_step_witness :
  exists m g' l sess',
    Seq2SeqModel_init 1 2 sample_gru sample_gradients sample_adam
      (sample_config true 2 2 3 "adam") "train" [] = (inr m, g') /\
    train m sample_session sample_noise
      [[4; 5; 6]; [4; 5; 0]] [3; 2] [[7; 8]; [7; 0]] [2; 1] = ok (l, sess') /\
    sess_global_step sess' = 1 /\
    sess_global_epoch_step sess' = 0 /\
    eval m sample_session sample_noise_half
      [[4; 5; 6]; [4; 5; 0]] [3; 2] [[7; 8]; [7; 0]] [2; 1] = ok (l, sample_session).
Proof.
  destruct (on_model_ok _ _ sample_train_ok) as (m & g' & [l sess'] & H & Htrain).
  assert (Hw1 : unit_noise sample_noise)
    by (intros site t b i; unfold sample_noise; lra).
  assert (Hw2 : unit_noise sample_noise_half)
    by (intros site t b i; unfold sample_noise_half; lra).
  destruct (train_step 1 2 sample_gru sample_gradients sample_adam
              (sample_config true 2 2 3 "adam") "train" [] m g'
              sample_session sess' sample_noise
              [[4; 5; 6]; [4; 5; 0]] [3; 2] [[7; 8]; [7; 0]] [2; 1] l H Htrain)
    as (Hstep & Hepoch & Heval).
  exists m, g', l, sess'.
  split; [exact H |]. split; [exact Htrain |]. split; [exact Hstep |].
  split; [exact Hepoch |]. exact (Heval eq_refl Hw1 sample_noise_half Hw2).
Defined.

Lemma batch_sizes_must_agree_witness :
  exists m g',
    Seq2SeqModel_init 1 2 sample_gru sample_gradients sample_adam
      (sample_config true 2 2 3 "adam") "train" [] = (inr m, g') /\
    train m sample_session sample_noise [[4; 5; 6]] [3] [[7; 8]; [7; 0]] [2; 1]
    = inl InvalidArgumentError /\
    eval m sample_session sample_noise [[4; 5; 6]] [3] [[7; 8]; [7; 0]] [2; 1]
    = inl InvalidArgumentError.
Proof.
  destruct (Seq2SeqModel_init 1 2 sample_gru sample_gradients sample_adam
              (sample_config true 2 2 3 "adam") "train" [])
    as [[e | m] g'] eqn:H.
  - exfalso. pose proof (sample_train_model_ok true) as Hok.
    rewrite H in Hok. discriminate Hok.
  - exists m, g'. split; [reflexivity |].
    apply (batch_sizes_must_agree 1 2 sample_gru sample_gradients sample_adam
             (sample_config true 2 2 3 "adam") "train" [] m g'
             sample_session sample_noise [[4; 5; 6]] [3] [[7; 8]; [7; 0]] [2; 1]
             H eq_refl eq_refl eq_refl).
    simpl. lia.
Defined.

Lemma eos_target_weight_witness :
  exists m g' T M t weights,
    let ctx := sample_train_ctx [[4; 5; 6]; [4; 5; 0]] [3; 2] [[7; 8]; [7; 0]] [2; 1] in
    Seq2SeqModel_init 1 2 sample_gru sample_gradients sample_adam
      (sample_config true 2 2 3 "adam") "train" [] = (inr m, g') /\
    fetch (decoder_targets_train (placeholders m)) ctx = ok T /\
    fetch (decoder_masks (decoder m)) ctx = ok M /\
    nth_error T 1 = Some t /\ nth_error M 1 = Some weights /\
    nth 2 t 0 = 2 /\ nth 2 weights 0%R = 0%R /\
    nth 1 t 0 = 0 /\ nth 1 weights 0%R = 1%R.
Proof.
  destruct (Seq2SeqModel_init 1 2 sample_gru sample_gradients sample_adam
              (sample_config true 2 2 3 "adam") "train" [])
    as [[e | m] g'] eqn:H.
  - exfalso. pose proof (sample_train_model_ok true) as Hok.
    rewrite H in Hok. discriminate Hok.
  - pose proof (Seq2SeqModel_init_placeholders _ _ _ _ _ _ _ _ _ _ H) as Hph.
    set (ctx := sample_train_ctx [[4; 5; 6]; [4; 5; 0]] [3; 2]
                                 [[7; 8]; [7; 0]] [2; 1]).
    assert (HE : encoder_inputs (placeholders m) ctx = ok [[4; 5; 6]; [4; 5; 0]])
      by (rewrite Hph; reflexivity).
    assert (HD : decoder_inputs (placeholders m) ctx = ok [[7; 8]; [7; 0]])
      by (rewrite Hph; reflexivity).
    assert (HL : fetch (decoder_inputs_length (placeholders m)) ctx = ok [2; 1])
      by (rewrite Hph; reflexivity).
    assert (Hrange : Forall (fun l => 0 <= l < max_i32) [2; 1])
      by (repeat constructor; unfold max_i32; lia).
    destruct (eos_target_weight 1 2 sample_gru sample_gradients sample_adam
                (sample_config true 2 2 3 "adam") "train" [] m g' ctx
                [[4; 5; 6]; [4; 5; 0]] [[7; 8]; [7; 0]] [2; 1] 1%nat [7; 0] 1
                H eq_refl HE HD HL eq_refl Hrange eq_refl eq_refl)
      as (T & M & t & weights & HT & HM & Ht & Hw & Heos & Hweos & Hshort).
    destruct Hshort as [Hpad Hwpad]; [simpl; lia |].
    exists m, g', T, M, t, weights.
    split; [reflexivity |]. split; [exact HT |]. split; [exact HM |].
    split; [exact Ht |]. split; [exact Hw |]. split; [exact Heos |].
    split; [exact Hweos |]. split; [exact Hpad | exact Hwpad].
Defined.

Lemma inference_ignores_dropout_witness :
  exists m g',
    Seq2SeqModel_init 1 2 sample_gru sample_gradients sample_adam
      (sample_config true 2 2 3 "adam") "inference" [] = (inr m, g') /\
    unit_noise sample_noise /\ unit_noise sample_noise_half /\
    inference m sample_session sample_noise [[4; 5; 6]; [4; 5; 0]] [3; 2]
    = inference m sample_session sample_noise_half [[4; 5; 6]; [4; 5; 0]] [3; 2].
Proof.
  destruct (Seq2SeqModel_init 1 2 sample_gru sample_gradients sample_adam
              (sample_config true 2 2 3 "adam") "inference" [])
    as [[e | m] g'] eqn:H.
  - exfalso. pose proof (sample_inference_model_ok true) as Hok.
    rewrite H in Hok. discriminate Hok.
  - assert (Hw1 : unit_noise sample_noise)
      by (intros site t b i; unfold sample_noise; lra).
    assert (Hw2 : unit_noise sample_noise_half)
      by (intros site t b i; unfold sample_noise_half; lra).
    exists m, g'. split; [reflexivity |]. split; [exact Hw1 |].
    split; [exact Hw2 |].
    exact (inference_ignores_dropout 1 2 sample_gru sample_gradients sample_adam
             (sample_config true 2 2 3 "adam") "inference" [] m g'
             sample_session sample_noise sample_noise_half
             [[4; 5; 6]; [4; 5; 0]] [3; 2] H Hw1 Hw2).
Defined.

Lemma variables_of_both_modes_witness :
  exists m1 g1 m2 g2,
    Seq2SeqModel_init 1 2 sample_gru sample_gradients sample_adam
      (sample_config true 2 2 3 "adam") "train" [] = (inr m1, g1) /\
    Seq2SeqModel_init 1 2 sample_gru sample_gradients sample_adam
      (sample_config true 2 2 3 "adam") "inference" [] = (inr m2, g2) /\
    (exists slots, g1 = g2 ++ slots /\ Forall (fun v => snd v = false) slots) /\
    trainable_variables g1 = trainable_variables g2 /\
    trainable_verbs (optimization m1) = Some (trainable_variables g2).
Proof.
  destruct (Seq2SeqModel_init 1 2 sample_gru sample_gradients sample_adam
              (sample_config true 2 2 3 "adam") "train" [])
    as [[e | m1] g1] eqn:H1.
  - exfalso. pose proof (sample_train_model_ok true) as Hok.
    rewrite H1 in Hok. discriminate Hok.
  - destruct (Seq2SeqModel_init 1 2 sample_gru sample_gradients sample_adam
                (sample_config true 2 2 3 "adam") "inference" [])
      as [[e | m2] g2] eqn:H2.
    + exfalso. pose proof (sample_inference_model_ok true) as Hok.
      rewrite H2 in Hok. discriminate Hok.
    + exists m1, g1, m2, g2. split; [reflexivity |]. split; [reflexivity |].
      exact (variables_of_both_modes 1 2 sample_gru sample_gradients sample_adam
               (sample_config true 2 2 3 "adam") "train" "inference" []
               m1 m2 g1 g2 H1 H2 eq_refl eq_refl).
Defined.

Lemma constructor_succeeds_witness :
  fresh_graph [] = true /\
  positive_sizes (sample_config false 3 2 4 "Adam") = true /\
  buildable (sample_config false 3 2 4 "Adam") (lower "Inference") = true /\
  is_ok (fst (Seq2SeqModel_init 1 2 sample_gru sample_gradients sample_adam
                (sample_config false 3 2 4 "Adam") "Inference" [])) = true.
Proof.
  split; [reflexivity |]. split; [reflexivity |]. split; [reflexivity |].
  exact (constructor_succeeds 1 2 sample_gru sample_gradients sample_adam
           (sample_config false 3 2 4 "Adam") "Inference" []
           eq_refl eq_refl eq_refl).
Defined.

Lemma padding_is_ignored_witness :
  exists m g',
    Seq2SeqModel_init 1 2 sample_gru sample_gradients sample_adam
      (sample_config false 2 2 3 "adam") "inference" [] = (inr m, g') /\
    valid_encoder_batch (sample_config false 2 2 3 "adam")
      [[4; 5; 6]; [4; 5; 0]] [3; 2] = true /\
    valid_encoder_batch (sample_config false 2 2 3 "adam")
      [[4; 5; 6]; [4; 5; 9]] [3; 2] = true /\
    same_up_to_lengths [3; 2] [[4; 5; 6]; [4; 5; 0]] [[4; 5; 6]; [4; 5; 9]] = true /\
    inference m sample_session sample_noise [[4; 5; 6]; [4; 5; 0]] [3; 2]
    = inference m sample_session sample_noise [[4; 5; 6]; [4; 5; 9]] [3; 2].
Proof.
  destruct (Seq2SeqModel_init 1 2 sample_gru sample_gradients sample_adam
              (sample_config false 2 2 3 "adam") "inference" [])
    as [[e | m] g'] eqn:H.
  - exfalso. pose proof (sample_inference_model_ok false) as Hok.
    rewrite H in Hok. discriminate Hok.
  - exists m, g'. split; [reflexivity |].
    split; [reflexivity |]. split; [reflexivity |]. split; [reflexivity |].
    apply (padding_is_ignored 1 2 sample_gru sample_gradients sample_adam
             (sample_config false 2 2 3 "adam") "inference" [] m g'
             sample_session sample_noise
             [[4; 5; 6]; [4; 5; 0]] [[4; 5; 6]; [4; 5; 9]] [3; 2] H).
    + intros Hb. discriminate Hb.
    + reflexivity.
    + reflexivity.
    + reflexivity.
Defined.

Lemma training_ignores_encoder_padding_witness :
  exists m g',
    Seq2SeqModel_init 1 2 sample_gru sample_gradients sample_adam
      (sample_config false 2 2 3 "adam") "train" [] = (inr m, g') /\
    valid_encoder_batch (sample_config false 2 2 3 "adam")
      [[4; 5; 6]; [4; 5; 0]] [3; 2] = true /\
    valid_encoder_batch (sample_config false 2 2 3 "adam")
      [[4; 5; 6]; [4; 5; 9]] [3; 2] = true /\
    same_up_to_lengths [3; 2] [[4; 5; 6]; [4; 5; 0]] [[4; 5; 6]; [4; 5; 9]] = true /\
    eval m sample_session sample_noise
      [[4; 5; 6]; [4; 5; 0]] [3; 2] [[7; 8]; [7; 0]] [2; 1]
    = eval m sample_session sample_noise
        [[4; 5; 6]; [4; 5; 9]] [3; 2] [[7; 8]; [7; 0]] [2; 1] /\
    train m sample_session sample_noise
      [[4; 5; 6]; [4; 5; 0]] [3; 2] [[7; 8]; [7; 0]] [2; 1]
    = train m sample_session sample_noise
        [[4; 5; 6]; [4; 5; 9]] [3; 2] [[7; 8]; [7; 0]] [2; 1].
Proof.
  destruct (Seq2SeqModel_init 1 2 sample_gru sample_gradients sample_adam
              (sample_config false 2 2 3 "adam") "train" [])
    as [[e | m] g'] eqn:H.
  - exfalso. pose proof (sample_train_model_ok false) as Hok.
    rewrite H in Hok. discriminate Hok.
  - exists m, g'. split; [reflexivity |].
    split; [reflexivity |]. split; [reflexivity |]. split; [reflexivity |].
    apply (training_ignores_encoder_padding 1 2 sample_gru sample_gradients
             sample_adam (sample_config false 2 2 3 "adam") "train" [] m g'
             sample_session sample_noise
             [[4; 5; 6]; [4; 5; 0]] [[4; 5; 6]; [4; 5; 9]] [3; 2]
             [[7; 8]; [7; 0]] [2; 1] H).
    + intros Hb. discriminate Hb.
    + reflexivity.
    + reflexivity.
    + reflexivity.
Defined.

Lemma sample_inference_ok :
  is_ok (on_model (Seq2SeqModel_init 1 2 sample_gru sample_gradients sample_adam
                     (sample_config false 2 2 1 "adam") "inference" [])
           (fun m => inference m sample_session sample_noise
                       [[4; 5; 6]; [4; 5; 0]] [3; 2])) = true.
Proof. vm_compute. reflexivity. Qed.

Lemma scores_at_least_uniform_witness :
  exists m g' predicts scores sess',
    Seq2SeqModel_init 1 2 sample_gru sample_gradients sample_adam
      (sample_config false 2 2 1 "adam") "inference" [] = (inr m, g') /\
    inference m sample_session sample_noise [[4; 5; 6]; [4; 5; 0]] [3; 2]
    = ok ((predicts, scores), sess') /\
    Forall (Forall (fun s => (/ 10 <= s <= 1)%R)) scores.
Proof.
  destruct (on_model_ok _ _ sample_inference_ok)
    as (m & g' & [[predicts scores] sess'] & H & Hinf).
  exists m, g', predicts, scores, sess'.
  split; [exact H |]. split; [exact Hinf |].
  exact (scores_at_least_uniform 1 2 sample_gru sample_gradients sample_adam
           (sample_config false 2 2 1 "adam") "inference" [] m g'
           sample_session sess' sample_noise [[4; 5; 6]; [4; 5; 0]] [3; 2]
           predicts scores H Hinf).
Defined.

Lemma no_time_step_is_unimplemented_witness :
  exists m g',
    Seq2SeqModel_init 1 2 sample_gru sample_gradients sample_adam
      (sample_config true 2 2 3 "adam") "inference" [] = (inr m, g') /\
    valid_encoder_batch (sample_config true 2 2 3 "adam") [[]] [0] = true /\
    inference m sample_session sample_noise [[]] [0] = inl UnimplementedError.
Proof.
  destruct (Seq2SeqModel_init 1 2 sample_gru sample_gradients sample_adam
              (sample_config true 2 2 3 "adam") "inference" [])
    as [[e | m] g'] eqn:H.
  - exfalso. pose proof (sample_inference_model_ok true) as Hok.
    rewrite H in Hok. discriminate Hok.
  - exists m, g'. split; [reflexivity |]. split; [reflexivity |].
    apply (no_time_step_is_unimplemented 1 2 sample_gru sample_gradients
             sample_adam (sample_config true 2 2 3 "adam") "inference" [] m g'
             sample_session sample_noise [[]] [0] H).
    + reflexivity.
    + reflexivity.
    + simpl. lia.
    + simpl. lia.
    + simpl. lia.
    + reflexivity.
    + discriminate.
    + reflexivity.
Defined.
